(** * DVD-Agent backend: a shallow embedding of [backend/server.py]

    The service keeps two MongoDB collections ([dvd_stores], [search_jobs]),
    a rate-limited Hunter.io client, three scraper collectors and a job
    orchestrator.  Everything the Python code touches outside its own
    variables (the collections, the wall clock, the answers of remote
    servers, the uuid generator, the logger) lives in one record, [world],
    and the coroutines are functions in a state-and-exception monad over it.

    Conventions.
    - Time is an exact integer number of microseconds (the resolution of
      [datetime]); [seconds n] is [n] seconds.
    - A collection is the list of its documents in natural (insertion) order;
      [find_one] and [update_one] act on the first match.
    - The driver encodes a [datetime] as BSON, which keeps milliseconds: a
      timestamp is cut to the millisecond wherever it is written to a
      collection ([bson_datetime]), so what is read back may be earlier than
      what was written.
    - Every repository call may raise: the world carries the schedule of the
      outcomes of the calls to come ([db_faults]).
    - [trace] records what an outside observer can see of a run: repository
      calls, outbound HTTP requests, suspensions and log lines. *)

From Stdlib Require Import ZArith String Ascii Bool Lia QArith Sorted Permutation List
  DecimalString.
Import ListNotations.

Local Open Scope string_scope.
Local Open Scope Z_scope.

Set Implicit Arguments.

(* ================================================================== *)
(** * Python values used by the service *)

(** Truthiness of [Optional[str]]: [None] and [""] are falsy. *)
Definition truthy (o : option string) : bool :=
  match o with
  | Some s => negb (s =? "")%string
  | None => false
  end.

Definition option_eqb (a b : option string) : bool :=
  match a, b with
  | Some x, Some y => (x =? y)%string
  | None, None => true
  | _, _ => false
  end.

Definition seconds (n : Z) : Z := n * 1000000.

(** Instants are large numbers: simplification leaves their arithmetic to
    [lia]. *)
#[global] Arguments seconds : simpl never.
#[local] Arguments Z.add : simpl never.
#[local] Arguments Z.sub : simpl never.
#[local] Arguments Z.mul : simpl never.
#[local] Arguments Z.opp : simpl never.
#[local] Arguments Z.ltb : simpl never.
#[local] Arguments Z.leb : simpl never.
#[local] Arguments Z.eqb : simpl never.
#[local] Arguments Z.div : simpl never.
#[local] Arguments Z.of_nat : simpl never.

(** [s.replace(old, "")]: every non-overlapping occurrence of [old], scanned
    from the left, is removed.  [skip] counts the characters of an occurrence
    still to be dropped. *)
Fixpoint remove_all_from (old s : string) (skip : nat) : string :=
  match s with
  | EmptyString => EmptyString
  | String c rest =>
      match skip with
      | S k => remove_all_from old rest k
      | O =>
          if andb (negb (old =? "")%string) (String.prefix old s)
          then remove_all_from old rest (Nat.pred (String.length old))
          else String c (remove_all_from old rest O)
      end
  end.

Definition remove_all (old s : string) : string := remove_all_from old s O.

(** [old in s]: [old] is found somewhere in [s]. *)
Fixpoint occurs (old s : string) : bool :=
  orb (String.prefix old s)
      (match s with
       | EmptyString => false
       | String _ rest => occurs old rest
       end).

(** [s.split(sep)[0]] for a one-character separator. *)
Fixpoint split_head (sep : ascii) (s : string) : string :=
  match s with
  | EmptyString => EmptyString
  | String c rest => if Ascii.eqb c sep then EmptyString else String c (split_head sep rest)
  end.

(* ================================================================== *)
(** * Models (pydantic classes) *)

Module DVDStore.
Record t := mk {
  id : string;
  name : string;
  address : option string;
  city : option string;
  state : option string;
  phone : option string;
  website : option string;
  email : option string;
  email_confidence : option Q;
  source : string;
  source_url : option string;
  notes : option string;
  verified : bool;
  created_at : Z;
  updated_at : Z
}.
End DVDStore.

(** A field of a request body: absent, or present with a value
    ([store_update.dict(exclude_unset=True)] keeps the present ones). *)
Inductive supplied (A : Type) : Type :=
| Unset
| Given (v : A).
Arguments Unset {A}.
Arguments Given {A} v.

Definition or_default {A} (f : supplied A) (d : A) : A :=
  match f with Given v => v | Unset => d end.

(** What [$set] does to one field. *)
Definition assign {A} (f : supplied A) (old : A) : A := or_default f old.

Module DVDStoreCreate.
(** A validated payload: [name] is a required [str]; [source] is a [str]
    with default ["manual"]; the others are [Optional[str]] with default
    [None], so a present field may hold an explicit null. *)
Record t := mk {
  name : string;
  address : supplied (option string);
  city : supplied (option string);
  state : supplied (option string);
  phone : supplied (option string);
  website : supplied (option string);
  email : supplied (option string);
  source : supplied string;
  source_url : supplied (option string);
  notes : supplied (option string)
}.
End DVDStoreCreate.

(** The JSON object of a request body before validation.  Values are strings
    or null; other JSON types are outside the model. *)
Module Body.
Record t := mk {
  name : supplied (option string);
  address : supplied (option string);
  city : supplied (option string);
  state : supplied (option string);
  phone : supplied (option string);
  website : supplied (option string);
  email : supplied (option string);
  source : supplied (option string);
  source_url : supplied (option string);
  notes : supplied (option string)
}.
End Body.

(** A candidate record as the collectors build it (a dict whose absent keys
    take the defaults of [DVDStore]). *)
Module Candidate.
Record t := mk {
  name : string;
  address : option string;
  city : option string;
  phone : option string;
  website : option string;
  source : string;
  source_url : option string;
  notes : option string
}.
End Candidate.

Inductive job_status := pending | running | completed | failed.

Definition status_eqb (a b : job_status) : bool :=
  match a, b with
  | pending, pending | running, running
  | completed, completed | failed, failed => true
  | _, _ => false
  end.

(** [SearchJob.parameters]: the keys the endpoints write, each possibly
    absent ([job.parameters.get(key, default)]). *)
Module Parameters.
Record t := mk {
  query : option string;
  location : option string;
  max_results : option Z;
  max_posts : option Z;
  store_ids : option (list string)
}.
Definition empty : t := mk None None None None None.
End Parameters.

Module Results.
Record t := mk {
  stores : list Candidate.t;
  total_found : Z;
  credits_used : Z
}.
End Results.

Module SearchJob.
Record t := mk {
  id : string;
  job_type : string;
  status : job_status;
  parameters : Parameters.t;
  results : option Results.t;
  error_message : option string;
  created_at : Z;
  completed_at : option Z;
  stores_found : Z;
  credits_used : Z
}.
End SearchJob.

(* ================================================================== *)
(** * The outside world *)

(** Python exceptions the service raises or meets. *)
Inductive exn :=
| HTTPException (status_code : Z) (detail : string)
| TimeoutException                       (* httpx.TimeoutException *)
| RequestError (msg : string)            (* httpx.RequestError *)
| PyMongoError                           (* a repository call failed *)
| RequestValidationError (field : string) (* FastAPI rejects the request: 422 *)
| Error (kind msg : string).             (* any other [Exception] *)

Definition exn_str (e : exn) : string :=
  match e with
  | HTTPException _ detail => detail
  | TimeoutException => "timeout"
  | RequestError msg => msg
  | PyMongoError => "repository error"
  | RequestValidationError field => field
  | Error _ msg => msg
  end.

(** The outcome of an expression evaluated on data that came from outside:
    it raises, or it gives a value. *)
Inductive access (A : Type) : Type :=
| Raises (msg : string)
| Gives (a : A).
Arguments Raises {A} msg.
Arguments Gives {A} a.

(** One entry of Hunter's [data.emails]. *)
Module EmailCandidate.
Record t := mk {
  value : option string;          (* [.get("value")] *)
  confidence : option Z           (* [.get("confidence", 0)], 0..100 *)
}.
End EmailCandidate.

(** The JSON body of a Hunter answer, as far as the service reads it. *)
Module HunterJson.
Record data_t := mk_data {
  emails : option (list EmailCandidate.t);
  calls_left : option Z;                 (* [data.calls.left] *)
  plan_name : option string
}.
Record t := mk { data : option data_t }.
End HunterJson.

(** What comes back over the wire for [http_client.get]. *)
Inductive hunter_reply :=
| HTimeout
| HNetworkError (msg : string)
| HResponse (status_code : Z) (text : string) (json : access HunterJson.t).

(** A directory result element, described by what each accessor of the
    parsing loop yields on it: [Gives None] when [find] returns nothing,
    [Gives (Some s)] for the stripped text (or the attribute), [Raises] when
    the expression raises. *)
Module YPResult.
Record t := mk {
  business_name : access (option string);
  street_address : access (option string);
  locality : access (option string);
  phones : access (option string);
  track_visit_website : access (option string)
}.
End YPResult.

Module YelpResult.
Record t := mk { biz_name : access (option string) }.
End YelpResult.

(** A forum post: [post.get('data', {})] and the three reads on it raise, or
    give the three strings (absent keys read as ['']). *)
Module RedditPost.
Record data_t := mk_data { title : string; selftext : string; permalink : string }.
Definition t := access data_t.
End RedditPost.

(** A fetched page, described by what each parser of the service finds in it. *)
Module Page.
Record t := mk {
  url : string;                                    (* [response.url] *)
  div_result : access (list YPResult.t);           (* [find_all('div', class_='result')] *)
  serp_ia_card : access (list YelpResult.t);       (* [find_all('div', attrs=...)] *)
  children : access (list RedditPost.t)            (* [.json()...get('children', [])] *)
}.
End Page.

Inductive web_reply :=
| WFailure (msg : string)                  (* [session.get] raised *)
| WResponse (status_code : Z) (page : Page.t).

(** A query-string value. *)
Inductive param := PStr (s : string) | PInt (n : Z).

Inductive event :=
| Slept (d : Z)
| Logged (level msg : string)
| HttpGet (url : string) (params : list (string * param))
| DbCall (collection op : string).

Record world := mk_world {
  dvd_stores : list DVDStore.t;
  search_jobs : list SearchJob.t;
  active_jobs : list string;
  request_timestamps : list Z;        (* [hunter_client.request_timestamps] *)
  clock : Z;
  db_faults : list bool;              (* [true]: the next repository call raises *)
  hunter_wire : list hunter_reply;
  web_wire : list web_reply;
  uuid_source : nat -> string;
  uuid_next : nat;
  rng : list Z;
  trace : list event
}.

Definition set_dvd_stores (x : list DVDStore.t) (w : world) : world :=
  mk_world x (search_jobs w) (active_jobs w) (request_timestamps w) (clock w)
    (db_faults w) (hunter_wire w) (web_wire w) (uuid_source w) (uuid_next w) (rng w) (trace w).
Definition set_search_jobs (x : list SearchJob.t) (w : world) : world :=
  mk_world (dvd_stores w) x (active_jobs w) (request_timestamps w) (clock w)
    (db_faults w) (hunter_wire w) (web_wire w) (uuid_source w) (uuid_next w) (rng w) (trace w).
Definition set_active_jobs (x : list string) (w : world) : world :=
  mk_world (dvd_stores w) (search_jobs w) x (request_timestamps w) (clock w)
    (db_faults w) (hunter_wire w) (web_wire w) (uuid_source w) (uuid_next w) (rng w) (trace w).
Definition set_request_timestamps (x : list Z) (w : world) : world :=
  mk_world (dvd_stores w) (search_jobs w) (active_jobs w) x (clock w)
    (db_faults w) (hunter_wire w) (web_wire w) (uuid_source w) (uuid_next w) (rng w) (trace w).
Definition set_clock (x : Z) (w : world) : world :=
  mk_world (dvd_stores w) (search_jobs w) (active_jobs w) (request_timestamps w) x
    (db_faults w) (hunter_wire w) (web_wire w) (uuid_source w) (uuid_next w) (rng w) (trace w).
Definition set_db_faults (x : list bool) (w : world) : world :=
  mk_world (dvd_stores w) (search_jobs w) (active_jobs w) (request_timestamps w) (clock w)
    x (hunter_wire w) (web_wire w) (uuid_source w) (uuid_next w) (rng w) (trace w).
Definition set_hunter_wire (x : list hunter_reply) (w : world) : world :=
  mk_world (dvd_stores w) (search_jobs w) (active_jobs w) (request_timestamps w) (clock w)
    (db_faults w) x (web_wire w) (uuid_source w) (uuid_next w) (rng w) (trace w).
Definition set_web_wire (x : list web_reply) (w : world) : world :=
  mk_world (dvd_stores w) (search_jobs w) (active_jobs w) (request_timestamps w) (clock w)
    (db_faults w) (hunter_wire w) x (uuid_source w) (uuid_next w) (rng w) (trace w).
Definition set_uuid_next (x : nat) (w : world) : world :=
  mk_world (dvd_stores w) (search_jobs w) (active_jobs w) (request_timestamps w) (clock w)
    (db_faults w) (hunter_wire w) (web_wire w) (uuid_source w) x (rng w) (trace w).
Definition set_rng (x : list Z) (w : world) : world :=
  mk_world (dvd_stores w) (search_jobs w) (active_jobs w) (request_timestamps w) (clock w)
    (db_faults w) (hunter_wire w) (web_wire w) (uuid_source w) (uuid_next w) x (trace w).
Definition emit (e : event) (w : world) : world :=
  mk_world (dvd_stores w) (search_jobs w) (active_jobs w) (request_timestamps w) (clock w)
    (db_faults w) (hunter_wire w) (web_wire w) (uuid_source w) (uuid_next w) (rng w)
    (trace w ++ [e]).

(* ================================================================== *)
(** * Coroutines: state and exceptions over the world *)

Inductive outcome (A : Type) : Type :=
| Return (a : A)
| Raise (e : exn).
Arguments Return {A} a.
Arguments Raise {A} e.

Definition M (A : Type) : Type := world -> outcome A * world.

Definition ret {A} (a : A) : M A := fun w => (Return a, w).

Definition bind {A B} (m : M A) (k : A -> M B) : M B :=
  fun w =>
    match m w with
    | (Return a, w1) => k a w1
    | (Raise e, w1) => (Raise e, w1)
    end.

Definition raise {A} (e : exn) : M A := fun w => (Raise e, w).

(** [try: body / except Exception as e: handler e]. *)
Definition try_except {A} (body : M A) (handler : exn -> M A) : M A :=
  fun w =>
    match body w with
    | (Return a, w1) => (Return a, w1)
    | (Raise e, w1) => handler e w1
    end.

(** [try: body / finally: cleanup]. *)
Definition try_finally {A} (body : M A) (cleanup : M unit) : M A :=
  fun w =>
    match body w with
    | (r, w1) =>
        match cleanup w1 with
        | (Return _, w2) => (r, w2)
        | (Raise e, w2) => (Raise e, w2)
        end
    end.

Declare Scope py_scope.
Delimit Scope py_scope with py.
Notation "x <- m ;; k" := (bind m (fun x => k))
  (at level 61, m at next level, right associativity) : py_scope.
Notation "m ;; k" := (bind m (fun _ => k))
  (at level 61, right associativity) : py_scope.
Local Open Scope py_scope.

Definition gets {A} (f : world -> A) : M A := fun w => (Return (f w), w).
Definition modify (f : world -> world) : M unit := fun w => (Return tt, f w).

(** The world a coroutine leaves, and what it hands back. *)
Definition after {A} (m : M A) (w : world) : world := snd (m w).
Definition result {A} (m : M A) (w : world) : outcome A := fst (m w).

(** [for x in xs: acc = body acc x]: the loop variable the body updates is
    threaded through; an exception leaves the loop. *)
Fixpoint for_each {A B} (xs : list A) (body : B -> A -> M B) (acc : B) : M B :=
  match xs with
  | [] => ret acc
  | x :: rest => acc1 <- body acc x ;; for_each rest body acc1
  end.

(** ** Clock, sleeping, logging, identifiers *)

Definition utcnow : M Z := gets clock.

Definition sleep (d : Z) : M unit :=
  modify (fun w => emit (Slept d) (set_clock (clock w + d) w)).

Definition logger (level msg : string) : M unit := modify (emit (Logged level msg)).

Definition uuid4 : M string :=
  fun w => (Return (uuid_source w (uuid_next w)), set_uuid_next (S (uuid_next w)) w).

(** [random.uniform(lo, hi)]: the next draw, kept inside the interval. *)
Definition random_uniform (lo hi : Z) : M Z :=
  fun w =>
    match rng w with
    | [] => (Return lo, w)
    | d :: rest => (Return (Z.max lo (Z.min hi d)), set_rng rest w)
    end.

(* ================================================================== *)
(** * The repository (motor collections) *)

(** A [datetime] as BSON keeps it: whole milliseconds, the microseconds
    dropped. *)
Definition bson_datetime (t : Z) : Z := t / 1000 * 1000.
#[global] Arguments bson_datetime : simpl never.

(** A collection of the database: its name, where its documents live, and
    what a document of it becomes once encoded for the server. *)
Record collection (A : Type) := mk_collection {
  coll_name : string;
  docs : world -> list A;
  set_docs : list A -> world -> world;
  bson : A -> A
}.

(** A store document as stored: both timestamps cut to the millisecond. *)
Definition bson_store (s : DVDStore.t) : DVDStore.t :=
  DVDStore.mk (DVDStore.id s) (DVDStore.name s) (DVDStore.address s) (DVDStore.city s)
    (DVDStore.state s) (DVDStore.phone s) (DVDStore.website s) (DVDStore.email s)
    (DVDStore.email_confidence s) (DVDStore.source s) (DVDStore.source_url s)
    (DVDStore.notes s) (DVDStore.verified s)
    (bson_datetime (DVDStore.created_at s)) (bson_datetime (DVDStore.updated_at s)).

(** A job document as stored. *)
Definition bson_job (j : SearchJob.t) : SearchJob.t :=
  SearchJob.mk (SearchJob.id j) (SearchJob.job_type j) (SearchJob.status j)
    (SearchJob.parameters j) (SearchJob.results j) (SearchJob.error_message j)
    (bson_datetime (SearchJob.created_at j))
    (option_map bson_datetime (SearchJob.completed_at j))
    (SearchJob.stores_found j) (SearchJob.credits_used j).

Definition db_dvd_stores : collection DVDStore.t :=
  mk_collection "dvd_stores" dvd_stores set_dvd_stores bson_store.
Definition db_search_jobs : collection SearchJob.t :=
  mk_collection "search_jobs" search_jobs set_search_jobs bson_job.

(** Every call is a round trip that the server may fail; a failed call has no
    effect on the documents. *)
Definition db_call (coll op : string) : M unit :=
  fun w =>
    let w1 := set_db_faults (tl (db_faults w)) (emit (DbCall coll op) w) in
    if hd false (db_faults w) then (Raise PyMongoError, w1) else (Return tt, w1).

(** The first document matching [q] is replaced by its image under [f]; the
    updated document is handed back.  [f] is the update document as the
    server applies it: it sets the fields the [$set] names, to their encoded
    values, and leaves the other fields as they are stored. *)
Fixpoint update_first {A} (q : A -> bool) (f : A -> A) (l : list A) : option A * list A :=
  match l with
  | [] => (None, [])
  | x :: rest =>
      if q x then (Some (f x), f x :: rest)
      else let (o, rest') := update_first q f rest in (o, x :: rest')
  end.

Fixpoint remove_first {A} (q : A -> bool) (l : list A) : nat * list A :=
  match l with
  | [] => (O, [])
  | x :: rest =>
      if q x then (1%nat, rest)
      else let (n, rest') := remove_first q rest in (n, x :: rest')
  end.

Section Collection.
Context {A : Type} (c : collection A).

Definition find_one (q : A -> bool) : M (option A) :=
  db_call (coll_name c) "find_one" ;;
  gets (fun w => find q (docs c w)).

(** [insert_one(d)]: the document is stored as encoded, which need not be
    the document the caller holds. *)
Definition insert_one (d : A) : M unit :=
  db_call (coll_name c) "insert_one" ;;
  modify (fun w => set_docs c (docs c w ++ [bson c d]) w).

(** [update_one(q, {"$set": ...})], the [$set] given by its effect [f] on
    the stored document (its datetimes already encoded). *)
Definition update_one (q : A -> bool) (f : A -> A) : M unit :=
  db_call (coll_name c) "update_one" ;;
  modify (fun w => set_docs c (snd (update_first q f (docs c w))) w).

(** [find_one_and_update(..., return_document=True)]: the document after
    the update, read back from the collection (so with the datetimes the
    collection keeps), or [None]. *)
Definition find_one_and_update (q : A -> bool) (f : A -> A) : M (option A) :=
  db_call (coll_name c) "find_one_and_update" ;;
  fun w =>
    let (o, l) := update_first q f (docs c w) in
    (Return o, set_docs c l w).

(** [delete_one(...).deleted_count]. *)
Definition delete_one (q : A -> bool) : M nat :=
  db_call (coll_name c) "delete_one" ;;
  fun w =>
    let (n, l) := remove_first q (docs c w) in
    (Return n, set_docs c l w).

(** [find(q).skip(s).limit(n).to_list(k)]. *)
Definition find_to_list (q : A -> bool) (s n k : nat) : M (list A) :=
  db_call (coll_name c) "find" ;;
  gets (fun w => firstn k (firstn n (skipn s (filter q (docs c w))))).

(** [find(q).to_list(k)]. *)
Definition find_all_to_list (q : A -> bool) (k : nat) : M (list A) :=
  db_call (coll_name c) "find" ;;
  gets (fun w => firstn k (filter q (docs c w))).

Definition count_documents (q : A -> bool) : M nat :=
  db_call (coll_name c) "count_documents" ;;
  gets (fun w => length (filter q (docs c w))).
End Collection.

(* ================================================================== *)
(** * Hunter.io client *)

(** The key itself is of no consequence here; the literal of the source is
    not repeated. *)
Definition HUNTER_API_KEY : string := "<api-key>".
Definition HUNTER_BASE_URL : string := "https://api.hunter.io/v2".

Definition is_some {A} (o : option A) : bool :=
  match o with Some _ => true | None => false end.

(** The pruning and the two checks of [_enforce_rate_limit], for the instant
    [current_time] read on entry. *)
Definition rate_limit_checks (current_time : Z) : M unit :=
  (* Remove timestamps older than 1 minute *)
  let cutoff_time := current_time - seconds 60 in
  modify (fun w => set_request_timestamps
                     (filter (fun ts => cutoff_time <? ts) (request_timestamps w)) w) ;;
  (* Check per-minute limit (500 requests) *)
  stamps <- gets request_timestamps ;;
  (if 500 <=? Z.of_nat (length stamps) then
     let sleep_time := seconds 60 - (current_time - hd 0 stamps) in
     if 0 <? sleep_time then
       logger "warning" "Rate limit approaching, sleeping" ;;
       sleep sleep_time
     else ret tt
   else ret tt) ;;
  (* Check per-second limit (15 requests) *)
  stamps <- gets request_timestamps ;;
  let recent_requests := filter (fun ts => current_time - seconds 1 <? ts) stamps in
  if 15 <=? Z.of_nat (length recent_requests) then sleep (seconds 1) else ret tt.

(** [HunterAPIClient._enforce_rate_limit]: the checks, then
    [self.request_timestamps.append(current_time)]. *)
Definition _enforce_rate_limit : M unit :=
  current_time <- gets clock ;;
  rate_limit_checks current_time ;;
  modify (fun w => set_request_timestamps (request_timestamps w ++ [current_time]) w).

(** [http_client.get(url, params=params)] with a 30 s timeout: one request
    goes out and the wire answers (an exhausted wire is an unreachable
    server). *)
Definition http_client_get (url : string) (params : list (string * param))
  : M (Z * string * access HunterJson.t) :=
  fun w =>
    let w1 := emit (HttpGet url params) w in
    match hunter_wire w with
    | [] => (Raise (RequestError "unreachable"), w1)
    | HTimeout :: rest => (Raise TimeoutException, set_hunter_wire rest w1)
    | HNetworkError msg :: rest => (Raise (RequestError msg), set_hunter_wire rest w1)
    | HResponse code text json :: rest => (Return (code, text, json), set_hunter_wire rest w1)
    end.

(** [HunterAPIClient._make_request]. *)
Definition _make_request (endpoint : string) (params : list (string * param))
  : M HunterJson.t :=
  _enforce_rate_limit ;;
  let params := (params ++ [("api_key", PStr HUNTER_API_KEY)])%list in
  let url := HUNTER_BASE_URL ++ "/" ++ endpoint in
  try_except
    (response <- http_client_get url params ;;
     let '(status_code, text, json) := response in
     if status_code =? 403 then
       raise (HTTPException 429 "Rate limit exceeded or insufficient credits")
     else if status_code =? 401 then
       raise (HTTPException 401 "Invalid API key")
     else if negb (status_code =? 200) then
       raise (HTTPException status_code ("API request failed: " ++ text))
     else
       match json with
       | Gives body => ret body
       | Raises msg => raise (Error "JSONDecodeError" msg)
       end)
    (fun e =>
       match e with
       | TimeoutException => raise (HTTPException 408 "Request timeout")
       | RequestError msg => raise (HTTPException 503 ("Network error: " ++ msg))
       | other => raise other
       end).

Definition domain_search (domain : string) (limit : Z) : M HunterJson.t :=
  _make_request "domain-search" [("domain", PStr domain); ("limit", PInt limit)].

Definition email_finder (domain first_name last_name : string) : M HunterJson.t :=
  _make_request "email-finder"
    [("domain", PStr domain); ("first_name", PStr first_name);
     ("last_name", PStr last_name)].

Definition get_account_info : M HunterJson.t := _make_request "account" [].

Definition email_count (domain : string) : M HunterJson.t :=
  _make_request "email-count" [("domain", PStr domain)].

(* ================================================================== *)
(** * Scraper collectors *)

Definition is_space (c : ascii) : bool :=
  let n := nat_of_ascii c in
  orb (Nat.eqb n 32) (andb (Nat.leb 9 n) (Nat.leb n 13)).

Fixpoint lstrip (s : string) : string :=
  match s with
  | EmptyString => EmptyString
  | String c rest => if is_space c then lstrip rest else s
  end.

Fixpoint rstrip (s : string) : string :=
  match s with
  | EmptyString => EmptyString
  | String c rest =>
      match rstrip rest with
      | EmptyString => if is_space c then EmptyString else String c EmptyString
      | r => String c r
      end
  end.

(** [str.strip()]. *)
Definition strip (s : string) : string := rstrip (lstrip s).

(** [l[:n]] with Python's reading of a negative bound. *)
Definition slice_to {A} (l : list A) (n : Z) : list A :=
  if 0 <=? n then firstn (Z.to_nat n) l
  else firstn (length l - Z.to_nat (- n)) l.

Definition from_access {A} (a : access A) : M A :=
  match a with
  | Gives x => ret x
  | Raises msg => raise (Error "Exception" msg)
  end.

(** [self.session.get(url, params=params, timeout=10)]. *)
Definition session_get (url : string) (params : list (string * param)) : M (Z * Page.t) :=
  fun w =>
    let w1 := emit (HttpGet url params) w in
    match web_wire w with
    | [] => (Raise (Error "ConnectionError" "unreachable"), w1)
    | WFailure msg :: rest => (Raise (Error "RequestException" msg), set_web_wire rest w1)
    | WResponse code page :: rest => (Return (code, page), set_web_wire rest w1)
    end.

(** The courtesy delay [time.sleep(random.uniform(1, 3))]. *)
Definition courtesy_delay : M unit :=
  d <- random_uniform (seconds 1) (seconds 3) ;; sleep d.

(** The body of the loop over the directory results: one result parsed and
    appended to [stores], or a warning. *)
Definition yellow_pages_result (page : Page.t) (stores : list Candidate.t)
    (result : YPResult.t) : M (list Candidate.t) :=
  try_except
    (name_elem <- from_access (YPResult.business_name result) ;;
     let name := match name_elem with Some s => s | None => "Unknown" end in
     address <- from_access (YPResult.street_address result) ;;
     city <- from_access (YPResult.locality result) ;;
     phone <- from_access (YPResult.phones result) ;;
     website <- from_access (YPResult.track_visit_website result) ;;
     ret (stores ++ [Candidate.mk name address city phone website
                       "yellow_pages" (Some (Page.url page)) None])%list)
    (fun e =>
       logger "warning" ("Error parsing result: " ++ exn_str e) ;;
       ret stores).

(** [WebScraper.search_yellow_pages].  The outer handler hands back [stores]
    as it stands when the exception arrives; every raising point of the outer
    block lies before the loop, where [stores] is still empty. *)
Definition search_yellow_pages (query location : string) (max_results : Z)
  : M (list Candidate.t) :=
  try_except
    (response <- session_get "https://www.yellowpages.com/search"
                   [("search_terms", PStr query); ("geo_location_terms", PStr location)] ;;
     let (status_code, page) := response in
     if negb (status_code =? 200) then ret []
     else
       results <- from_access (Page.div_result page) ;;
       stores <- for_each (slice_to results max_results) (yellow_pages_result page) [] ;;
       (* Add delay to be respectful *)
       courtesy_delay ;;
       ret stores)
    (fun e =>
       logger "error" ("Error searching Yellow Pages: " ++ exn_str e) ;;
       ret []).

(** The body of the loop over the review-site results. *)
Definition yelp_result (page : Page.t) (stores : list Candidate.t)
    (result : YelpResult.t) : M (list Candidate.t) :=
  try_except
    (name_elem <- from_access (YelpResult.biz_name result) ;;
     let name := match name_elem with Some s => s | None => "Unknown" end in
     ret (stores ++ [Candidate.mk name None None None None
                       "yelp" (Some (Page.url page)) None])%list)
    (fun e =>
       logger "warning" ("Error parsing Yelp result: " ++ exn_str e) ;;
       ret stores).

(** [WebScraper.search_yelp]. *)
Definition search_yelp (query location : string) (max_results : Z)
  : M (list Candidate.t) :=
  try_except
    (response <- session_get "https://www.yelp.com/search"
                   [("find_desc", PStr query); ("find_loc", PStr location)] ;;
     let (status_code, page) := response in
     if negb (status_code =? 200) then ret []
     else
       results <- from_access (Page.serp_ia_card page) ;;
       stores <- for_each (slice_to results max_results) (yelp_result page) [] ;;
       courtesy_delay ;;
       ret stores)
    (fun e =>
       logger "error" ("Error searching Yelp: " ++ exn_str e) ;;
       ret []).

Definition store_patterns : list string :=
  [ "([A-Z][a-z]+ (?:DVD|Video|Movies?|Records?)(?:\s+(?:Store|Shop|Outlet))?)";
    "([A-Z][a-z]+\'s (?:DVD|Video|Movies?|Records?))" ].

Section Service.

(** [re.findall(pattern, text, re.IGNORECASE)] for a pattern with one group:
    the regular-expression engine is taken as given. *)
Variable re_findall : string -> string -> list string.

(** MongoDB's test of [{field: {"$regex": pattern, "$options": "i"}}] against
    a string value: the server's engine is taken as given. *)
Variable regex_search : string -> string -> bool.

(** The candidates one post yields: every match of every pattern in the
    title and the body. *)
Definition reddit_matches (post_data : RedditPost.data_t) : list Candidate.t :=
  let title := RedditPost.title post_data in
  let selftext := RedditPost.selftext post_data in
  (* Extract potential store names and information *)
  let text := title ++ " " ++ selftext in
  let source_url := "https://reddit.com" ++ RedditPost.permalink post_data in
  let notes := "Found in Reddit post: " ++ String.substring 0 100 title ++ "..." in
  flat_map
    (fun pattern =>
       map (fun m => Candidate.mk (strip m) None None None None "reddit"
                       (Some source_url) (Some notes))
           (re_findall pattern text))
    store_patterns.

(** The body of the loop over the posts. *)
Definition reddit_post (stores : list Candidate.t) (post : RedditPost.t)
  : M (list Candidate.t) :=
  try_except
    (post_data <- from_access post ;;
     ret (stores ++ reddit_matches post_data)%list)
    (fun e =>
       logger "warning" ("Error parsing Reddit post: " ++ exn_str e) ;;
       ret stores).

(** [WebScraper.search_reddit]. *)
Definition search_reddit (query : string) (max_posts : Z) : M (list Candidate.t) :=
  try_except
    (response <- session_get "https://www.reddit.com/search.json"
                   [("q", PStr query); ("limit", PInt max_posts);
                    ("sort", PStr "relevance")] ;;
     let (status_code, page) := response in
     if negb (status_code =? 200) then ret []
     else
       children <- from_access (Page.children page) ;;
       stores <- for_each children reddit_post [] ;;
       courtesy_delay ;;
       ret stores)
    (fun e =>
       logger "error" ("Error searching Reddit: " ++ exn_str e) ;;
       ret []).

(* ================================================================== *)
(** * Job orchestrator *)

Definition job_by_id (job_id : string) (j : SearchJob.t) : bool :=
  (SearchJob.id j =? job_id)%string.

Definition store_by_id (store_id : string) (s : DVDStore.t) : bool :=
  (DVDStore.id s =? store_id)%string.

(** [{"$set": {"status": "running"}}]. *)
Definition set_running (j : SearchJob.t) : SearchJob.t :=
  SearchJob.mk (SearchJob.id j) (SearchJob.job_type j) running (SearchJob.parameters j)
    (SearchJob.results j) (SearchJob.error_message j) (SearchJob.created_at j)
    (SearchJob.completed_at j) (SearchJob.stores_found j) (SearchJob.credits_used j).

(** [{"$set": {"status": "completed", "results": ..., "completed_at": ...,
    "stores_found": ..., "credits_used": ...}}] for [completed_at = now]. *)
Definition set_completed (r : Results.t) (now : Z) (j : SearchJob.t) : SearchJob.t :=
  SearchJob.mk (SearchJob.id j) (SearchJob.job_type j) completed (SearchJob.parameters j)
    (Some r) (SearchJob.error_message j) (SearchJob.created_at j)
    (Some (bson_datetime now)) (Results.total_found r) (Results.credits_used r).

(** [{"$set": {"status": "failed", "error_message": ..., "completed_at": ...}}]
    for [completed_at = now]. *)
Definition set_failed (msg : string) (now : Z) (j : SearchJob.t) : SearchJob.t :=
  SearchJob.mk (SearchJob.id j) (SearchJob.job_type j) failed (SearchJob.parameters j)
    (SearchJob.results j) (Some msg) (SearchJob.created_at j)
    (Some (bson_datetime now)) (SearchJob.stores_found j) (SearchJob.credits_used j).

(** [{"$set": {"email": ..., "email_confidence": ..., "updated_at": ...}}]
    for [updated_at = now]. *)
Definition set_email (value : option string) (conf : Q) (now : Z) (s : DVDStore.t)
  : DVDStore.t :=
  DVDStore.mk (DVDStore.id s) (DVDStore.name s) (DVDStore.address s) (DVDStore.city s)
    (DVDStore.state s) (DVDStore.phone s) (DVDStore.website s)
    value (Some conf) (DVDStore.source s) (DVDStore.source_url s) (DVDStore.notes s)
    (DVDStore.verified s) (DVDStore.created_at s) (bson_datetime now).

(** The [DVDStore] built from a candidate's keys: fresh id, both timestamps read
    from the clock, the absent keys at their defaults. *)
Definition DVDStore_of_candidate (c : Candidate.t) : M DVDStore.t :=
  i <- uuid4 ;;
  created <- utcnow ;;
  updated <- utcnow ;;
  ret (DVDStore.mk i (Candidate.name c) (Candidate.address c) (Candidate.city c) None
         (Candidate.phone c) (Candidate.website c) None None (Candidate.source c)
         (Candidate.source_url c) (Candidate.notes c) false created updated).

(** [website.replace("http://", "").replace("https://", "").replace("www.", "").split("/")[0]]. *)
Definition domain_of (website : string) : string :=
  split_head "/"%char
    (remove_all "www." (remove_all "https://" (remove_all "http://" website))).

(** [best_email.get("confidence", 0) / 100]. *)
Definition normalized_confidence (best_email : EmailCandidate.t) : Q :=
  (inject_Z (match EmailCandidate.confidence best_email with Some c => c | None => 0 end)
   / inject_Z 100)%Q.

(** [search_result.get("data", {}).get("emails", [])]. *)
Definition emails_of (search_result : HunterJson.t) : list EmailCandidate.t :=
  match HunterJson.data search_result with
  | Some d => match HunterJson.emails d with Some l => l | None => [] end
  | None => []
  end.

(** The body of the email-discovery loop for one [store_id]; [credits] is
    [results["credits_used"]]. *)
Definition discover_email (credits : Z) (store_id : string) : M Z :=
  try_except
    (store_doc <- find_one db_dvd_stores (store_by_id store_id) ;;
     match store_doc with
     | Some doc =>
         if truthy (DVDStore.website doc) then
           let website := match DVDStore.website doc with Some s => s | None => "" end in
           let domain := domain_of website in
           (* Try to find emails *)
           credits <-
             try_except
               (search_result <- domain_search domain 5 ;;
                match emails_of search_result with
                | best_email :: _ =>      (* Take the first/best email *)
                    now <- utcnow ;;
                    update_one db_dvd_stores (store_by_id store_id)
                      (set_email (EmailCandidate.value best_email)
                                 (normalized_confidence best_email) now) ;;
                    ret (credits + 1)
                | [] => ret credits
                end)
               (fun e =>
                  logger "warning" ("Failed to find email for " ++ domain ++ ": " ++ exn_str e) ;;
                  ret credits) ;;
           (* Add delay between requests *)
           sleep (seconds 1) ;;
           ret credits
         else ret credits
     | None => ret credits
     end)
    (fun e =>
       logger "warning" ("Error processing store " ++ store_id ++ ": " ++ exn_str e) ;;
       ret credits).

(** The body of the loop that stores the found stores; [total_found] is
    [results["total_found"]]. *)
Definition store_candidate (total_found : Z) (store_data : Candidate.t) : M Z :=
  try_except
    (store <- DVDStore_of_candidate store_data ;;
     existing <- find_one db_dvd_stores
                   (fun s => andb (DVDStore.name s =? DVDStore.name store)%string
                                  (option_eqb (DVDStore.city s) (DVDStore.city store))) ;;
     if negb (is_some existing) then
       insert_one db_dvd_stores store ;;
       ret (total_found + 1)
     else ret total_found)
    (fun e =>
       logger "warning" ("Error storing store: " ++ exn_str e) ;;
       ret total_found).

Definition get_or {A} (o : option A) (d : A) : A :=
  match o with Some x => x | None => d end.

(** The branch on [job.job_type]: the candidates found and the credits used. *)
Definition collect (job : SearchJob.t) : M (list Candidate.t * Z) :=
  let parameters := SearchJob.parameters job in
  if (SearchJob.job_type job =? "directory_search")%string then
    (* Search business directories *)
    let query := get_or (Parameters.query parameters) "DVD store" in
    let location := get_or (Parameters.location parameters) "United States" in
    let max_results := get_or (Parameters.max_results parameters) 100 in
    yp_stores <- search_yellow_pages query location (max_results / 2) ;;
    yelp_stores <- search_yelp query location (max_results / 2) ;;
    ret ((yp_stores ++ yelp_stores)%list, 0)
  else if (SearchJob.job_type job =? "reddit_search")%string then
    let query := get_or (Parameters.query parameters) "DVD store recommendations" in
    let max_posts := get_or (Parameters.max_posts parameters) 100 in
    reddit_stores <- search_reddit query max_posts ;;
    ret (reddit_stores, 0)
  else if (SearchJob.job_type job =? "email_discovery")%string then
    (* Discover emails for existing stores *)
    let store_ids := get_or (Parameters.store_ids parameters) [] in
    credits <- for_each store_ids discover_email 0 ;;
    ret ([], credits)
  else ret ([], 0).

(** The task up to and including the write of [running]: [None] when the job
    document is not there. *)
Definition job_begin (job_id : string) : M (option SearchJob.t) :=
  (* Get job from database *)
  job_doc <- find_one db_search_jobs (job_by_id job_id) ;;
  match job_doc with
  | None => ret None
  | Some job =>
      (* Update status to running *)
      update_one db_search_jobs (job_by_id job_id) set_running ;;
      ret (Some job)
  end.

(** The task from there to the write of [completed]. *)
Definition job_run (job_id : string) (job : SearchJob.t) : M unit :=
  found <- collect job ;;
  let (stores, credits_used) := found in
  (* Store found stores in database *)
  total_found <- for_each stores store_candidate 0 ;;
  (* Update job completion *)
  now <- utcnow ;;
  update_one db_search_jobs (job_by_id job_id)
    (set_completed (Results.mk stores total_found credits_used) now).

(** The top-level [except Exception as e]. *)
Definition job_failed (job_id : string) (e : exn) : M unit :=
  logger "error" ("Job " ++ job_id ++ " failed: " ++ exn_str e) ;;
  now <- utcnow ;;
  update_one db_search_jobs (job_by_id job_id) (set_failed (exn_str e) now).

(** The [finally] clause: [if job_id in active_jobs: del active_jobs[job_id]]. *)
Definition job_cleanup (job_id : string) : M unit :=
  modify (fun w => set_active_jobs
                     (filter (fun k => negb (k =? job_id)%string) (active_jobs w)) w).

(** [process_search_job]. *)
Definition process_search_job (job_id : string) : M unit :=
  try_finally
    (try_except
       (job_doc <- job_begin job_id ;;
        match job_doc with
        | None => ret tt
        | Some job => job_run job_id job
        end)
       (job_failed job_id))
    (job_cleanup job_id).

(* ================================================================== *)
(** * API routes *)

(** FastAPI builds the [DVDStoreCreate] argument from the request body before
    the handler runs: [name] must be present and a string, [source] may be
    absent but not null. *)
Definition parse_DVDStoreCreate (body : Body.t) : M DVDStoreCreate.t :=
  match Body.name body with
  | Given (Some name) =>
      match Body.source body with
      | Given None => raise (RequestValidationError "source")
      | Given (Some src) =>
          ret (DVDStoreCreate.mk name (Body.address body) (Body.city body) (Body.state body)
                 (Body.phone body) (Body.website body) (Body.email body) (Given src)
                 (Body.source_url body) (Body.notes body))
      | Unset =>
          ret (DVDStoreCreate.mk name (Body.address body) (Body.city body) (Body.state body)
                 (Body.phone body) (Body.website body) (Body.email body) Unset
                 (Body.source_url body) (Body.notes body))
      end
  | _ => raise (RequestValidationError "name")
  end.

(** [GET /]. *)
Definition root : M string := ret "DVD Store Data Collection API".

(** [create_store]: [store.dict()] carries every field of the payload with
    its default, and [DVDStore] adds id, flags and timestamps. *)
Definition create_store (store : DVDStoreCreate.t) : M DVDStore.t :=
  i <- uuid4 ;;
  created <- utcnow ;;
  updated <- utcnow ;;
  let store_obj :=
    DVDStore.mk i (DVDStoreCreate.name store)
      (or_default (DVDStoreCreate.address store) None)
      (or_default (DVDStoreCreate.city store) None)
      (or_default (DVDStoreCreate.state store) None)
      (or_default (DVDStoreCreate.phone store) None)
      (or_default (DVDStoreCreate.website store) None)
      (or_default (DVDStoreCreate.email store) None)
      None
      (or_default (DVDStoreCreate.source store) "manual")
      (or_default (DVDStoreCreate.source_url store) None)
      (or_default (DVDStoreCreate.notes store) None)
      false created updated in
  insert_one db_dvd_stores store_obj ;;
  ret store_obj.

Definition POST_stores (body : Body.t) : M DVDStore.t :=
  store <- parse_DVDStoreCreate body ;; create_store store.

(** The [$or] of the three [$regex] conditions on [name], [city], [address]. *)
Definition search_condition (search : string) (s : DVDStore.t) : bool :=
  orb (regex_search search (DVDStore.name s))
      (orb (match DVDStore.city s with Some c => regex_search search c | None => false end)
           (match DVDStore.address s with Some a => regex_search search a | None => false end)).

Definition bool_eqb (a b : bool) : bool := Bool.eqb a b.

(** [filter_dict] as [get_stores] builds it: the conditions present, all of
    which a document has to meet. *)
Definition filter_dict (search state : option string) (verified : option bool)
  : list (DVDStore.t -> bool) :=
  ((if truthy search then [search_condition (get_or search "")] else []) ++
   (if truthy state then [fun s => option_eqb (DVDStore.state s) state] else []) ++
   (match verified with
    | Some v => [fun s => bool_eqb (DVDStore.verified s) v]
    | None => []
    end))%list.

Definition meets (conds : list (DVDStore.t -> bool)) (s : DVDStore.t) : bool :=
  forallb (fun c => c s) conds.

(** [get_stores], with the bounds FastAPI enforces on [skip] ([ge=0]) and
    [limit] ([ge=1, le=500]) before the handler runs. *)
Definition get_stores (skip limit : Z) (search state : option string)
    (verified : option bool) : M (list DVDStore.t) :=
  if skip <? 0 then raise (RequestValidationError "skip")
  else if orb (limit <? 1) (500 <? limit) then raise (RequestValidationError "limit")
  else
    find_to_list db_dvd_stores (meets (filter_dict search state verified))
      (Z.to_nat skip) (Z.to_nat limit) (Z.to_nat limit).

(** [{"$set": update_dict}] for [update_dict = store_update.dict(exclude_unset=True)]
    extended with [updated_at = now]. *)
Definition apply_update (u : DVDStoreCreate.t) (now : Z) (s : DVDStore.t) : DVDStore.t :=
  DVDStore.mk (DVDStore.id s)
    (DVDStoreCreate.name u)
    (assign (DVDStoreCreate.address u) (DVDStore.address s))
    (assign (DVDStoreCreate.city u) (DVDStore.city s))
    (assign (DVDStoreCreate.state u) (DVDStore.state s))
    (assign (DVDStoreCreate.phone u) (DVDStore.phone s))
    (assign (DVDStoreCreate.website u) (DVDStore.website s))
    (assign (DVDStoreCreate.email u) (DVDStore.email s))
    (DVDStore.email_confidence s)
    (assign (DVDStoreCreate.source u) (DVDStore.source s))
    (assign (DVDStoreCreate.source_url u) (DVDStore.source_url s))
    (assign (DVDStoreCreate.notes u) (DVDStore.notes s))
    (DVDStore.verified s) (DVDStore.created_at s) (bson_datetime now).

(** [update_store]. *)
Definition update_store (store_id : string) (store_update : DVDStoreCreate.t)
  : M DVDStore.t :=
  now <- utcnow ;;
  result <- find_one_and_update db_dvd_stores (store_by_id store_id)
              (apply_update store_update now) ;;
  match result with
  | None => raise (HTTPException 404 "Store not found")
  | Some doc => ret doc
  end.

(** [PUT /stores/{store_id}]: validation of the body, then the handler. *)
Definition PUT_stores (store_id : string) (body : Body.t) : M DVDStore.t :=
  store_update <- parse_DVDStoreCreate body ;; update_store store_id store_update.

(** [delete_store]. *)
Definition delete_store (store_id : string) : M string :=
  deleted_count <- delete_one db_dvd_stores (store_by_id store_id) ;;
  if Nat.eqb deleted_count 0 then raise (HTTPException 404 "Store not found")
  else ret "Store deleted successfully".

(** [{"$set": {"verified": True, "updated_at": ...}}] for [updated_at = now]. *)
Definition set_verified (now : Z) (s : DVDStore.t) : DVDStore.t :=
  DVDStore.mk (DVDStore.id s) (DVDStore.name s) (DVDStore.address s) (DVDStore.city s)
    (DVDStore.state s) (DVDStore.phone s) (DVDStore.website s) (DVDStore.email s)
    (DVDStore.email_confidence s) (DVDStore.source s) (DVDStore.source_url s)
    (DVDStore.notes s) true (DVDStore.created_at s) (bson_datetime now).

(** [verify_store]. *)
Definition verify_store (store_id : string) : M DVDStore.t :=
  now <- utcnow ;;
  result <- find_one_and_update db_dvd_stores (store_by_id store_id) (set_verified now) ;;
  match result with
  | None => raise (HTTPException 404 "Store not found")
  | Some doc => ret doc
  end.

(** [SearchJob(job_type=..., parameters=...)]: fresh id, [pending], creation
    time read from the clock. *)
Definition new_SearchJob (job_type : string) (parameters : Parameters.t) : M SearchJob.t :=
  i <- uuid4 ;;
  created <- utcnow ;;
  ret (SearchJob.mk i job_type pending parameters None None created None 0 0).

(** [task = asyncio.create_task(process_search_job(job.id))] followed by
    [active_jobs[job.id] = task]: the task is registered; it runs when the
    event loop gets to it. *)
Definition create_task (job_id : string) : M unit :=
  modify (fun w =>
            set_active_jobs
              (if existsb (fun k => (k =? job_id)%string) (active_jobs w)
               then active_jobs w
               else (active_jobs w ++ [job_id])%list) w).

(** What the three [start_*] routes answer. *)
Record started := mk_started {
  job_id : string;
  started_status : string;
  stores_to_process : option nat
}.

(** [start_directory_search]. *)
Definition start_directory_search (query location : string) (max_results : Z)
  : M started :=
  job <- new_SearchJob "directory_search"
           (Parameters.mk (Some query) (Some location) (Some max_results) None None) ;;
  insert_one db_search_jobs job ;;
  create_task (SearchJob.id job) ;;
  ret (mk_started (SearchJob.id job) "started" None).

(** [start_reddit_search]. *)
Definition start_reddit_search (query : string) (max_posts : Z) : M started :=
  job <- new_SearchJob "reddit_search"
           (Parameters.mk (Some query) None None (Some max_posts) None) ;;
  insert_one db_search_jobs job ;;
  create_task (SearchJob.id job) ;;
  ret (mk_started (SearchJob.id job) "started" None).

(** [{"email": None, "website": {"$ne": None}}]. *)
Definition lacks_email_has_website (s : DVDStore.t) : bool :=
  andb (negb (is_some (DVDStore.email s))) (is_some (DVDStore.website s)).

(** [not store_ids] for [Optional[List[str]]]. *)
Definition no_ids (store_ids : option (list string)) : bool :=
  match store_ids with
  | None | Some [] => true
  | Some (_ :: _) => false
  end.

(** [start_email_discovery]. *)
Definition start_email_discovery (store_ids : option (list string)) : M started :=
  store_ids <-
    (if no_ids store_ids then
       (* Get all stores without emails *)
       stores <- find_all_to_list db_dvd_stores lacks_email_has_website 1000 ;;
       ret (map DVDStore.id stores)
     else ret (get_or store_ids [])) ;;
  job <- new_SearchJob "email_discovery"
           (Parameters.mk None None None None (Some store_ids)) ;;
  insert_one db_search_jobs job ;;
  create_task (SearchJob.id job) ;;
  ret (mk_started (SearchJob.id job) "started" (Some (length store_ids))).

(** [sort("created_at", -1)]: newest first. *)
Fixpoint insert_newest_first (j : SearchJob.t) (l : list SearchJob.t) : list SearchJob.t :=
  match l with
  | [] => [j]
  | x :: rest =>
      if SearchJob.created_at x <? SearchJob.created_at j then j :: l
      else x :: insert_newest_first j rest
  end.

Definition newest_first (l : list SearchJob.t) : list SearchJob.t :=
  fold_right insert_newest_first [] l.

(** [get_search_jobs], with the bounds on [limit] ([ge=1, le=100]). *)
Definition get_search_jobs (limit : Z) : M (list SearchJob.t) :=
  if orb (limit <? 1) (100 <? limit) then raise (RequestValidationError "limit")
  else
    db_call "search_jobs" "find" ;;
    gets (fun w => firstn (Z.to_nat limit) (newest_first (search_jobs w))).

(** [get_search_job]. *)
Definition get_search_job (job_id : string) : M SearchJob.t :=
  job <- find_one db_search_jobs (job_by_id job_id) ;;
  match job with
  | None => raise (HTTPException 404 "Job not found")
  | Some j => ret j
  end.

(** [credits_remaining] as the two account routes read it:
    [data.calls.left], 0 when absent. *)
Definition credits_left (info : HunterJson.t) : Z :=
  match HunterJson.data info with
  | Some d => get_or (HunterJson.calls_left d) 0
  | None => 0
  end.

(** [get_hunter_account]: any failure becomes a 500. *)
Definition get_hunter_account : M (Z * string) :=
  try_except
    (info <- get_account_info ;;
     ret (credits_left info,
          match HunterJson.data info with
          | Some d => get_or (HunterJson.plan_name d) "unknown"
          | None => "unknown"
          end))
    (fun e =>
       logger "error" ("Failed to get account info: " ++ exn_str e) ;;
       raise (HTTPException 500 (exn_str e))).

Record stats := mk_stats {
  total_stores : nat;
  verified_stores : nat;
  stores_with_emails : nat;
  active_job_count : nat;
  credits_remaining : option Z;        (* [None]: "unknown" *)
  recent_jobs : list SearchJob.t
}.

(** The answer of a route without a response model goes through FastAPI's
    JSON encoder as it is: a raw job document carries the [ObjectId] the
    collection gave it, which the encoder refuses. *)
Definition encode_raw_jobs (jobs : list SearchJob.t) : M unit :=
  match jobs with
  | [] => ret tt
  | _ :: _ => raise (Error "ValueError" "ObjectId object is not iterable")
  end.

(** [get_stats]: [recent_jobs] are the documents as [to_list] gives them,
    not [SearchJob] models. *)
Definition get_stats : M stats :=
  total <- count_documents db_dvd_stores (fun _ => true) ;;
  verified <- count_documents db_dvd_stores DVDStore.verified ;;
  with_emails <- count_documents db_dvd_stores (fun s => is_some (DVDStore.email s)) ;;
  active <- gets (fun w => length (active_jobs w)) ;;
  db_call "search_jobs" "find" ;;
  recent <- gets (fun w => firstn 5 (newest_first (search_jobs w))) ;;
  credits <- try_except (info <- get_account_info ;; ret (Some (credits_left info)))
               (fun _ => ret None) ;;
  encode_raw_jobs recent ;;
  ret (mk_stats total verified with_emails active credits recent).

(* ================================================================== *)
(** * The running service

    The event loop interleaves the routes it serves with the background
    tasks.  A task is followed in two moves, cut where the source writes
    [running]: [task_begin] (the lookup of the job and the write of
    [running]) and [task_run] (the work and the terminal write).  The
    statuses of [search_jobs] are written by these moves and by the three
    [start_*] routes only, one atomic repository call each. *)

Inductive request :=
| GET_root
| GET_hunter_account
| POST_stores_ (body : Body.t)
| GET_stores (skip limit : Z) (search state : option string) (verified : option bool)
| PUT_stores_ (store_id : string) (body : Body.t)
| DELETE_stores (store_id : string)
| POST_stores_verify (store_id : string)
| POST_search_directory (query location : string) (max_results : Z)
| POST_search_reddit (query : string) (max_posts : Z)
| POST_search_emails (store_ids : option (list string))
| GET_jobs (limit : Z)
| GET_job (job_id : string)
| GET_stats.

(** Serving a request; the value is the id of the job whose task the route
    created, if it created one. *)
Definition serve (r : request) : M (option string) :=
  match r with
  | GET_root => root ;; ret None
  | GET_hunter_account => get_hunter_account ;; ret None
  | POST_stores_ body => POST_stores body ;; ret None
  | GET_stores skip limit search state verified =>
      get_stores skip limit search state verified ;; ret None
  | PUT_stores_ store_id body => PUT_stores store_id body ;; ret None
  | DELETE_stores store_id => delete_store store_id ;; ret None
  | POST_stores_verify store_id => verify_store store_id ;; ret None
  | POST_search_directory query location max_results =>
      a <- start_directory_search query location max_results ;; ret (Some (job_id a))
  | POST_search_reddit query max_posts =>
      a <- start_reddit_search query max_posts ;; ret (Some (job_id a))
  | POST_search_emails store_ids =>
      a <- start_email_discovery store_ids ;; ret (Some (job_id a))
  | GET_jobs limit => get_search_jobs limit ;; ret None
  | GET_job job_id => get_search_job job_id ;; ret None
  | GET_stats => get_stats ;; ret None
  end.

Definition creates_job (r : request) : bool :=
  match r with
  | POST_search_directory _ _ _ | POST_search_reddit _ _ | POST_search_emails _ => true
  | _ => false
  end.

(** First move of a task.  [Some job]: [running] is written and the work is
    still to do; [None]: the task is over. *)
Definition task_begin (job_id : string) : M (option SearchJob.t) :=
  fun w =>
    match job_begin job_id w with
    | (Return (Some job), w1) => (Return (Some job), w1)
    | (Return None, w1) => try_finally (ret None) (job_cleanup job_id) w1
    | (Raise e, w1) =>
        try_finally (job_failed job_id e ;; ret None) (job_cleanup job_id) w1
    end.

(** Second move of a task. *)
Definition task_run (job_id : string) (job : SearchJob.t) : M unit :=
  try_finally (try_except (job_run job_id job) (job_failed job_id)) (job_cleanup job_id).

Inductive task_pc :=
| Spawned                          (* created, not yet run *)
| Started (job : SearchJob.t).     (* [running] written, work to do *)

Record system := mk_system {
  sys_world : world;
  sys_tasks : list (string * task_pc)
}.

Definition drop_task (job_id : string) (tasks : list (string * task_pc))
  : list (string * task_pc) :=
  filter (fun t => negb (fst t =? job_id)%string) tasks.

(** A request arrives [d] microseconds after the last event and is served. *)
Definition handle (r : request) (d : Z) (s : system) : system :=
  let w := set_clock (clock (sys_world s) + d) (sys_world s) in
  match serve r w with
  | (Return (Some job_id), w') => mk_system w' (sys_tasks s ++ [(job_id, Spawned)])
  | (_, w') => mk_system w' (sys_tasks s)
  end.

Definition begin_task (job_id : string) (s : system) : system :=
  match task_begin job_id (sys_world s) with
  | (Return (Some job), w') =>
      mk_system w' (drop_task job_id (sys_tasks s) ++ [(job_id, Started job)])
  | (_, w') => mk_system w' (drop_task job_id (sys_tasks s))
  end.

Definition run_task (job_id : string) (job : SearchJob.t) (s : system) : system :=
  mk_system (after (task_run job_id job) (sys_world s)) (drop_task job_id (sys_tasks s)).

Definition job_ids (w : world) : list string := map SearchJob.id (search_jobs w).

Inductive label :=
| Serve (r : request) (d : Z)
| Begin (job_id : string)
| Run (job_id : string)
| Idle (d : Z).

(** One move of the service.  The clock is read strictly later at each
    request than at any earlier event, and [uuid4] does not repeat the id of a
    stored job. *)
Inductive step : system -> label -> system -> Prop :=
| step_serve s r d :
    0 < d ->
    (creates_job r = true ->
     ~ In (uuid_source (sys_world s) (uuid_next (sys_world s))) (job_ids (sys_world s))) ->
    step s (Serve r d) (handle r d s)
| step_begin s job_id :
    In (job_id, Spawned) (sys_tasks s) ->
    step s (Begin job_id) (begin_task job_id s)
| step_run s job_id job :
    In (job_id, Started job) (sys_tasks s) ->
    step s (Run job_id) (run_task job_id job s)
| step_idle s d :
    0 <= d ->
    step s (Idle d)
      (mk_system (set_clock (clock (sys_world s) + d) (sys_world s)) (sys_tasks s)).

(** No stored record carries a timestamp from the future. *)
Definition stamps_ok (w : world) : Prop :=
  forall x, In x (dvd_stores w) -> DVDStore.updated_at x <= clock w.

(** The service starts on a database whose timestamps are past, with no
    task. *)
Definition boot (s : system) : Prop :=
  stamps_ok (sys_world s) /\ sys_tasks s = [].

Inductive reachable : system -> Prop :=
| reach_boot s : boot s -> reachable s
| reach_step s l s' : reachable s -> step s l s' -> reachable s'.

(** The order of the state machine: a status may only move to one it is
    below. *)
Definition status_le (a b : job_status) : Prop :=
  match a, b with
  | pending, _ => True
  | running, (running | completed | failed) => True
  | completed, completed => True
  | failed, failed => True
  | _, _ => False
  end.

(** The edges of [pending -> running -> completed | failed], and staying put. *)
Definition status_edge (a b : job_status) : Prop :=
  a = b \/ (a = pending /\ b = running) \/
  (a = running /\ (b = completed \/ b = failed)).

Definition status_in (job_id : string) (w : world) : option job_status :=
  option_map SearchJob.status (find (job_by_id job_id) (search_jobs w)).

(** What holds of the service at every moment: timestamps are past, a job
    has one task at most, a task not yet run has its job [pending], a task
    that wrote [running] has its job [running]. *)
Definition invariant (s : system) : Prop :=
  stamps_ok (sys_world s) /\
  NoDup (map fst (sys_tasks s)) /\
  (forall job_id, In (job_id, Spawned) (sys_tasks s) ->
                  status_in job_id (sys_world s) = Some pending) /\
  (forall job_id job, In (job_id, Started job) (sys_tasks s) ->
                      status_in job_id (sys_world s) = Some running).

(** How one move may change the status of a job: not at all, or along
    [pending -> running | failed] when the job's task begins, or along
    [running -> completed | failed] when it runs. *)
Definition status_move (l : label) (job_id : string) (st st' : job_status) : Prop :=
  st' = st \/
  (l = Begin job_id /\ st = pending /\ (st' = running \/ st' = failed)) \/
  (l = Run job_id /\ st = running /\ (st' = completed \/ st' = failed)).


(** The first job with the id has been rewritten to status [st], its id
    kept; no other job has been touched. *)
Definition job_written (job_id : string) (st : job_status) (w w' : world) : Prop :=
  exists f,
    (forall j, SearchJob.status (f j) = st /\ SearchJob.id (f j) = SearchJob.id j) /\
    search_jobs w' = snd (update_first (job_by_id job_id) f (search_jobs w)).

(* ================================================================== *)
(** * Scenarios of the rate limiter *)

(** A caller awaits the check once per entry of [gaps], [g] microseconds
    after the previous call let it go; per call, the instant of the call and
    how long the call kept the caller suspended. *)
Fixpoint issue (gaps : list Z) (w : world) : list (Z * Z) * world :=
  match gaps with
  | [] => ([], w)
  | g :: rest =>
      let w1 := set_clock (clock w + g) w in
      let w2 := after _enforce_rate_limit w1 in
      let (obs, w3) := issue rest w2 in
      ((clock w1, clock w2 - clock w1) :: obs, w3)
  end.


(** What an accessor gave, if it gave. *)
Definition gives {A} (a : access A) : option A :=
  match a with Gives x => Some x | Raises _ => None end.

(** A directory result that parses: all five accessors give. *)
Definition yellow_pages_parsed (page : Page.t) (r : YPResult.t) : option Candidate.t :=
  match gives (YPResult.business_name r), gives (YPResult.street_address r),
        gives (YPResult.locality r), gives (YPResult.phones r),
        gives (YPResult.track_visit_website r) with
  | Some name_elem, Some address, Some city, Some phone, Some website =>
      Some (Candidate.mk (match name_elem with Some s => s | None => "Unknown" end)
              address city phone website "yellow_pages" (Some (Page.url page)) None)
  | _, _, _, _, _ => None
  end.

(** A review-site result that parses: the accessor of the name gives. *)
Definition yelp_parsed (page : Page.t) (r : YelpResult.t) : option Candidate.t :=
  match gives (YelpResult.biz_name r) with
  | Some name_elem =>
      Some (Candidate.mk (match name_elem with Some s => s | None => "Unknown" end)
              None None None None "yelp" (Some (Page.url page)) None)
  | None => None
  end.

Definition option_list {A} (o : option A) : list A :=
  match o with Some x => [x] | None => [] end.

(** What [search_yelp] returns, read off the reply. *)
Definition yelp_found (max_results : Z) (w : world) : list Candidate.t :=
  match web_wire w with
  | WResponse code page :: _ =>
      if code =? 200 then
        match Page.serp_ia_card page with
        | Gives results =>
            flat_map (fun r => option_list (yelp_parsed page r))
                     (slice_to results max_results)
        | Raises _ => []
        end
      else []
  | _ => []
  end.

Definition is_warning (e : event) : bool :=
  match e with Logged level _ => (level =? "warning")%string | _ => false end.

(** The warnings logged so far. *)
Definition warnings (w : world) : list event := filter is_warning (trace w).

(** The dedup key of a stored record. *)
Definition store_key (s : DVDStore.t) : string * option string :=
  (DVDStore.name s, DVDStore.city s).

Definition candidate_key (c : Candidate.t) : string * option string :=
  (Candidate.name c, Candidate.city c).

(** No repository call to come is scheduled to fail. *)
Definition db_healthy (w : world) : Prop := forall b, In b (db_faults w) -> b = false.

(** The world right after a repository call went out: the call is on the
    trace and its scheduled outcome is consumed. *)
Definition called (coll op : string) (w : world) : world :=
  set_db_faults (tl (db_faults w)) (emit (DbCall coll op) w).




Definition is_HttpGet (e : event) : bool :=
  match e with HttpGet _ _ => true | _ => false end.

Definition is_DbCall (e : event) : bool :=
  match e with DbCall _ _ => true | _ => false end.

(** The requests that went out, in order. *)
Definition requests_sent (w : world) : list event := filter is_HttpGet (trace w).

(** What a partial update owes one field: the payload's value if the
    payload has the field, the old value otherwise. *)
Definition set_or_kept {A} (f : supplied A) (old new : A) : Prop :=
  match f with
  | Given v => new = v
  | Unset => new = old
  end.

(** Substring search without regard to the case of ASCII letters. *)
Definition lower_ascii (c : ascii) : ascii :=
  let n := nat_of_ascii c in
  if andb (65 <=? n)%nat (n <=? 90)%nat then ascii_of_nat (n + 32) else c.

Definition eq_ci (a b : ascii) : bool := Ascii.eqb (lower_ascii a) (lower_ascii b).

Fixpoint prefix_ci (term s : string) : bool :=
  match term, s with
  | EmptyString, _ => true
  | String a term', String b s' => andb (eq_ci a b) (prefix_ci term' s')
  | String _ _, EmptyString => false
  end.

Fixpoint contains_ci (term s : string) : bool :=
  orb (prefix_ci term s)
      (match s with
       | EmptyString => false
       | String _ s' => contains_ci term s'
       end).

(** The characters a regular expression reads as operators. *)
Definition metacharacters : list ascii :=
  ascii_of_nat 92 :: list_ascii_of_string ".^$*+?()[]{}|".

Definition meta (c : ascii) : bool := existsb (Ascii.eqb c) metacharacters.

(** A term of ASCII characters none of which is an operator: as a regular
    expression it stands for itself. *)
Definition plain (term : string) : bool :=
  forallb (fun c => andb (negb (meta c)) (nat_of_ascii c <? 128)%nat)
          (list_ascii_of_string term).

(** The records a listing query asks for: the term, if one is given, occurs
    in the name, the city or the address without regard to case; the state,
    if one is given, is the record's; the flag, if given, is the record's. *)
Definition names_term (term : string) (s : DVDStore.t) : bool :=
  orb (contains_ci term (DVDStore.name s))
      (orb (match DVDStore.city s with Some c => contains_ci term c | None => false end)
           (match DVDStore.address s with Some a => contains_ci term a | None => false end)).

Definition listed (search state : option string) (verified : option bool)
    (s : DVDStore.t) : bool :=
  andb (match search with
        | Some term => orb (term =? "")%string (names_term term s)
        | None => true
        end)
       (andb (match state with
              | Some st => orb (st =? "")%string (option_eqb (DVDStore.state s) (Some st))
              | None => true
              end)
             (match verified with
              | Some v => Bool.eqb (DVDStore.verified s) v
              | None => true
              end)).

(** A regular-expression engine for the patterns made of literal characters
    and [.], with option [i]: [.] matches any character but a newline, any
    other character matches itself without regard to case, and a pattern is
    searched for at every offset. *)
Definition dot_char (p c : ascii) : bool :=
  if Ascii.eqb p "." then negb (Ascii.eqb c (ascii_of_nat 10)) else eq_ci p c.

Fixpoint dot_prefix (pattern s : string) : bool :=
  match pattern, s with
  | EmptyString, _ => true
  | String p pattern', String c s' => andb (dot_char p c) (dot_prefix pattern' s')
  | String _ _, EmptyString => false
  end.

Fixpoint dot_engine (pattern s : string) : bool :=
  orb (dot_prefix pattern s)
      (match s with
       | EmptyString => false
       | String _ s' => dot_engine pattern s'
       end).

(** The routes answered from what is stored. *)
Definition reads_only (r : request) : bool :=
  match r with
  | GET_root | GET_hunter_account | GET_stores _ _ _ _ _ | GET_jobs _ | GET_job _
  | GET_stats => true
  | _ => false
  end.

(** Jobs listed newest first: no job is followed by a newer one. *)
Definition newest_to_oldest (l : list SearchJob.t) : Prop :=
  StronglySorted (fun a b => SearchJob.created_at b <= SearchJob.created_at a) l.

(** The repository calls made, in order. *)
Definition db_calls_made (w : world) : list event := filter is_DbCall (trace w).


(* ================================================================== *)
(** * Relations a coroutine keeps *)

(** [keeps R m]: the world [m] leaves is related by [R] to the one it
    started from, however [m] ends. *)
Definition keeps (R : world -> world -> Prop) {A} (m : M A) : Prop :=
  forall w, R w (after m w).

(** A preorder on worlds that does not look at the trace, the fault
    schedule, the wires, the uuid counter, the random draws, the task
    registry or the client's timestamps, and lets the clock move forward. *)
Class Tolerant (R : world -> world -> Prop) : Prop := {
  tol_refl : forall w, R w w;
  tol_trans : forall a b c, R a b -> R b c -> R a c;
  tol_emit : forall e w, R w (emit e w);
  tol_faults : forall x w, R w (set_db_faults x w);
  tol_hunter : forall x w, R w (set_hunter_wire x w);
  tol_web : forall x w, R w (set_web_wire x w);
  tol_uuid : forall x w, R w (set_uuid_next x w);
  tol_rng : forall x w, R w (set_rng x w);
  tol_active : forall x w, R w (set_active_jobs x w);
  tol_timestamps : forall x w, R w (set_request_timestamps x w);
  tol_clock : forall t w, clock w <= t -> R w (set_clock t w)
}.

(** Relations that do not look at the stored records, or at the jobs. *)
Class IgnoresStores (R : world -> world -> Prop) : Prop :=
  ignores_stores : forall x w, R w (set_dvd_stores x w).

Class IgnoresJobs (R : world -> world -> Prop) : Prop :=
  ignores_jobs : forall x w, R w (set_search_jobs x w).

(** The jobs are as they were. *)
Definition same_jobs (w w' : world) : Prop := search_jobs w' = search_jobs w.

(** Both collections are as they were. *)
Definition same_data (w w' : world) : Prop :=
  dvd_stores w' = dvd_stores w /\ search_jobs w' = search_jobs w.

(** No record has been removed: the ids stored are the ids that were
    stored, in their order, then those of the records added. *)
Definition records_kept (w w' : world) : Prop :=
  exists added,
    map DVDStore.id (dvd_stores w') = (map DVDStore.id (dvd_stores w) ++ added)%list.

(** A record but for what an email lookup writes: the address, the
    confidence and [updated_at]. *)
Definition forget_email (s : DVDStore.t) : DVDStore.t :=
  DVDStore.mk (DVDStore.id s) (DVDStore.name s) (DVDStore.address s) (DVDStore.city s)
    (DVDStore.state s) (DVDStore.phone s) (DVDStore.website s) None None
    (DVDStore.source s) (DVDStore.source_url s) (DVDStore.notes s)
    (DVDStore.verified s) (DVDStore.created_at s) 0.

(** The same records are stored, in the same order, equal but for what an
    email lookup writes; the jobs are as they were. *)
Definition emails_only (w w' : world) : Prop :=
  map forget_email (dvd_stores w') = map forget_email (dvd_stores w) /\
  search_jobs w' = search_jobs w.

(** The clock has not gone back, and no record got a timestamp from the
    future. *)
Definition stamps_kept (w w' : world) : Prop :=
  clock w <= clock w' /\ (stamps_ok w -> stamps_ok w').


(* ================================================================== *)
(** * Sample data *)

(** A world with empty collections, a fresh client, no fault scheduled and
    nobody answering on the wires. *)
Definition quiet_world : world :=
  mk_world [] [] [] [] 0 [] [] [] (fun _ => "00000000") 0 [] [].

(** The provider answers the next request with a 500. *)
Definition failing_provider : world :=
  set_hunter_wire [HResponse 500 "down" (Raises "not JSON")] quiet_world.


(** A directory page with three results, the second of which breaks the
    parser, and a forum listing of two posts, the second malformed. *)
Definition sample_page : Page.t :=
  Page.mk "https://www.yellowpages.com/search?search_terms=dvd"
    (Gives [ YPResult.mk (Gives (Some "Vintage Video Palace")) (Gives (Some "1 Main St"))
               (Gives (Some "Los Angeles")) (Gives None) (Gives None);
             YPResult.mk (Gives (Some "Broken")) (Raises "no text") (Gives None)
               (Gives None) (Gives None);
             YPResult.mk (Gives None) (Gives None) (Gives (Some "Reno")) (Gives None)
               (Gives (Some "http://www.reno-dvd.example/shop")) ])
    (Gives [])
    (Gives [ Gives (RedditPost.mk_data "Try Movie Madness" "great shop" "/r/dvd/1");
             Raises "not a dict" ]).

Definition directory_answers : world :=
  set_web_wire [WResponse 200 sample_page] quiet_world.

Definition directory_refuses : world :=
  set_web_wire [WResponse 503 sample_page] quiet_world.


Definition palace : DVDStore.t :=
  DVDStore.mk "s-1" "Vintage Video Palace" (Some "1 Main St") (Some "Los Angeles")
    (Some "CA") None (Some "https://www.vvp.example/contact") None None "manual" None None
    false 5000 5000.

(** One record stored 5 ms after the epoch, the clock at 10.5 ms. *)
Definition one_store : world := set_clock 10500 (set_dvd_stores [palace] quiet_world).

Definition palace_again : Candidate.t :=
  Candidate.mk "Vintage Video Palace" None (Some "Los Angeles") None None "yellow_pages"
    None None.

Definition movie_madness : Candidate.t :=
  Candidate.mk "Movie Madness" None None None None "reddit" None None.










(** A request body that names no store. *)
Definition nameless : Body.t :=
  Body.mk Unset Unset (Given (Some "Reno")) Unset Unset Unset Unset Unset Unset Unset.


(** The repository serves the next call and fails the one after it. *)
Definition flaky_world : world := set_db_faults [false; true] quiet_world.

(** The service a microsecond after boot, a forum search just requested:
    its job is stored and its task created, not yet run. *)
Definition reddit_requested (w : world) : system :=
  handle (POST_search_reddit "dvd" 10) 1 (mk_system w []).


(** A payload that names the store again and moves it to Reno. *)
Definition moved_to_reno : Body.t :=
  Body.mk (Given (Some "Vintage Video Palace")) Unset (Given (Some "Reno")) Unset Unset Unset
    Unset Unset Unset Unset.


(** The job of that search as the route stores it, and the world once its
    task has begun. *)
Definition reddit_job : SearchJob.t :=
  SearchJob.mk "00000000" "reddit_search" pending
    (Parameters.mk (Some "dvd") None None (Some 10) None) None None 0 None 0 0.


(** A directory job that asks for four results. *)
Definition directory_job : SearchJob.t :=
  SearchJob.mk "j-1" "directory_search" running
    (Parameters.mk (Some "dvd") (Some "Los Angeles") (Some 4) None None)
    None None 1 None 0 0.

(** Two jobs stored, the older first. *)
Definition two_jobs : world :=
  set_clock 10 (set_search_jobs [directory_job; reddit_job] quiet_world).

(** The payload [moved_to_reno] once validated. *)
Definition moved_to_reno_valid : DVDStoreCreate.t :=
  DVDStoreCreate.mk "Vintage Video Palace" Unset (Given (Some "Reno")) Unset Unset Unset
    Unset Unset Unset Unset.


(** The client after 500 calls made in the same instant, ten seconds ago. *)
Definition saturated_world : world :=
  set_clock (seconds 10) (set_request_timestamps (repeat 0 500) quiet_world).


(* ================================================================== *)
(** * Elementary facts *)

Local Open Scope list_scope.

Lemma option_eqb_eq (a b : option string) : option_eqb a b = true <-> a = b.
Proof.
  destruct a as [x|], b as [y|]; simpl; try (split; congruence).
  rewrite String.eqb_eq. split; congruence.
Qed.

(** Running a coroutine symbolically: the combinators are unfolded, and the
    reads of the world they leave are resolved; arithmetic is left alone. *)
Ltac run :=
  cbv [bind gets modify ret raise try_except try_finally logger sleep utcnow
       after result];
  cbv beta iota;
  cbn [dvd_stores search_jobs active_jobs request_timestamps clock db_faults
       hunter_wire web_wire uuid_source uuid_next rng trace
       set_dvd_stores set_search_jobs set_active_jobs set_request_timestamps
       set_clock set_db_faults set_hunter_wire set_web_wire set_uuid_next set_rng
       emit fst snd docs set_docs coll_name db_dvd_stores db_search_jobs].

(** The world a sequence of updates builds, written out as a record. *)
Ltac expose :=
  cbv [set_dvd_stores set_search_jobs set_active_jobs set_request_timestamps
       set_clock set_db_faults set_hunter_wire set_web_wire set_uuid_next set_rng emit];
  cbn [dvd_stores search_jobs active_jobs request_timestamps clock db_faults
       hunter_wire web_wire uuid_source uuid_next rng trace].

Tactic Notation "run" "in" hyp(H) :=
  cbv [bind gets modify ret raise try_except try_finally logger sleep utcnow
       after result] in H;
  cbv beta iota in H;
  cbn [dvd_stores search_jobs active_jobs request_timestamps clock db_faults
       hunter_wire web_wire uuid_source uuid_next rng trace
       set_dvd_stores set_search_jobs set_active_jobs set_request_timestamps
       set_clock set_db_faults set_hunter_wire set_web_wire set_uuid_next set_rng
       emit fst snd docs set_docs coll_name db_dvd_stores db_search_jobs] in H.

(** Encoding a datetime never moves it forward, and loses less than a
    millisecond. *)
Lemma bson_datetime_le t : bson_datetime t <= t.
Proof. unfold bson_datetime. pose proof (Z.mul_div_le t 1000). lia. Qed.



Lemma bson_datetime_idem t : bson_datetime (bson_datetime t) = bson_datetime t.
Proof. unfold bson_datetime. now rewrite Z.div_mul by lia. Qed.

Lemma filter_all {A} (p : A -> bool) (l : list A) :
  (forall x, In x l -> p x = true) -> filter p l = l.
Proof.
  induction l as [|a l IH]; simpl; intros H; [reflexivity|].
  rewrite (H a (or_introl eq_refl)). f_equal. apply IH. intros x Hx. apply H. now right.
Qed.

Lemma healthy_hd w : db_healthy w -> hd false (db_faults w) = false.
Proof.
  unfold db_healthy. destruct (db_faults w) as [|b l]; cbn; [reflexivity|].
  intros H. apply H. now left.
Qed.

Lemma healthy_tl w l : db_healthy w -> db_faults w = l -> forall b, In b (tl l) -> b = false.
Proof.
  unfold db_healthy. intros H <- b Hb. apply H.
  destruct (db_faults w); cbn in *; [contradiction | now right].
Qed.

Lemma healthy_hd_tl w : db_healthy w -> hd false (tl (db_faults w)) = false.
Proof.
  intros H. pose proof (healthy_tl H eq_refl) as Ht.
  destruct (tl (db_faults w)) as [|b l]; cbn; [reflexivity|]. apply Ht. now left.
Qed.

(** The repository calls, step by step. *)
Lemma db_call_run coll op w :
  db_call coll op w
  = (if hd false (db_faults w) then Raise PyMongoError else Return tt, called coll op w).
Proof. unfold db_call, called. now destruct (hd false (db_faults w)). Qed.

Lemma find_one_run {A} (c : collection A) q w :
  find_one c q w
  = (if hd false (db_faults w) then Raise PyMongoError
     else Return (find q (docs c (called (coll_name c) "find_one" w))),
     called (coll_name c) "find_one" w).
Proof.
  unfold find_one, bind. rewrite db_call_run. now destruct (hd false (db_faults w)).
Qed.

Lemma insert_one_run {A} (c : collection A) d w :
  insert_one c d w
  = let w1 := called (coll_name c) "insert_one" w in
    if hd false (db_faults w) then (Raise PyMongoError, w1)
    else (Return tt, set_docs c (docs c w1 ++ [bson c d]) w1).
Proof.
  unfold insert_one, bind. rewrite db_call_run. now destruct (hd false (db_faults w)).
Qed.

Lemma update_one_run {A} (c : collection A) q f w :
  update_one c q f w
  = let w1 := called (coll_name c) "update_one" w in
    if hd false (db_faults w) then (Raise PyMongoError, w1)
    else (Return tt, set_docs c (snd (update_first q f (docs c w1))) w1).
Proof.
  unfold update_one, bind. rewrite db_call_run. now destruct (hd false (db_faults w)).
Qed.

Lemma find_one_and_update_run {A} (c : collection A) q f w :
  find_one_and_update c q f w
  = let w1 := called (coll_name c) "find_one_and_update" w in
    if hd false (db_faults w) then (Raise PyMongoError, w1)
    else (Return (fst (update_first q f (docs c w1))),
          set_docs c (snd (update_first q f (docs c w1))) w1).
Proof.
  unfold find_one_and_update, bind. rewrite db_call_run.
  destruct (hd false (db_faults w)); [reflexivity|].
  cbv zeta. now destruct (update_first q f _).
Qed.

(** [update_first] rewrites the first match where it stands and nothing
    else. *)
Lemma update_first_spec {A} (q : A -> bool) (f : A -> A) (l : list A) x :
  find q l = Some x ->
  exists l1 l2,
    l = l1 ++ x :: l2 /\
    (forall y, In y l1 -> q y = false) /\
    update_first q f l = (Some (f x), l1 ++ f x :: l2).
Proof.
  induction l as [|a l IH]; cbn [find update_first]; [discriminate|].
  destruct (q a) eqn:E; intros H.
  - inversion H; subst. exists [], l. repeat split. intros y [].
  - destruct (IH H) as [l1 [l2 [-> [Hl1 Hu]]]]. rewrite Hu.
    exists (a :: l1), l2. repeat split.
    intros y [<- | Hy]; [exact E | now apply Hl1].
Qed.

Lemma update_first_none {A} (q : A -> bool) (f : A -> A) (l : list A) :
  find q l = None -> update_first q f l = (None, l).
Proof.
  induction l as [|a l IH]; cbn [find update_first]; [reflexivity|].
  destruct (q a); [discriminate|]. intros H. now rewrite (IH H).
Qed.


Lemma delete_one_run {A} (c : collection A) q w :
  delete_one c q w
  = let w1 := called (coll_name c) "delete_one" w in
    if hd false (db_faults w) then (Raise PyMongoError, w1)
    else (Return (fst (remove_first q (docs c w1))),
          set_docs c (snd (remove_first q (docs c w1))) w1).
Proof.
  unfold delete_one, bind. rewrite db_call_run.
  destruct (hd false (db_faults w)); [reflexivity|].
  cbv zeta. now destruct (remove_first q _).
Qed.

Lemma hd_in {A} (d : A) (l : list A) : l <> [] -> In (hd d l) l.
Proof. destruct l; simpl; [congruence | auto]. Qed.

(* ================================================================== *)
(** * The rate limiter *)

Section RateLimiter.

(** The timestamps a call at instant [t] keeps. *)
Let kept (t : Z) (w : world) : list Z :=
  filter (fun ts => t - seconds 60 <? ts) (request_timestamps w).

Let recent (t : Z) (l : list Z) : list Z :=
  filter (fun ts => t - seconds 1 <? ts) l.

Lemma kept_young t w ts : In ts (kept t w) -> t - ts < seconds 60.
Proof. unfold kept. rewrite filter_In, Z.ltb_lt. lia. Qed.

Lemma head_wait_positive t w :
  500 <= Z.of_nat (length (kept t w)) -> 0 < seconds 60 - (t - hd 0 (kept t w)).
Proof.
  intros Hlen.
  assert (Hne : kept t w <> []) by (destruct (kept t w); simpl in *; [lia | congruence]).
  pose proof (kept_young t w _ (hd_in 0 Hne)). lia.
Qed.

(** What the checks do, field by field. *)
Lemma rate_limit_checks_run t w :
  let k := kept t w in
  let mw := if 500 <=? Z.of_nat (length k) then seconds 60 - (t - hd 0 k) else 0 in
  let sw := if 15 <=? Z.of_nat (length (recent t k)) then seconds 1 else 0 in
  rate_limit_checks t w =
    (Return tt,
     mk_world (dvd_stores w) (search_jobs w) (active_jobs w) k (clock w + mw + sw)
       (db_faults w) (hunter_wire w) (web_wire w) (uuid_source w) (uuid_next w) (rng w)
       (trace w
          ++ (if 500 <=? Z.of_nat (length k)
              then [Logged "warning" "Rate limit approaching, sleeping"; Slept mw]
              else [])
          ++ (if 15 <=? Z.of_nat (length (recent t k)) then [Slept (seconds 1)] else []))).
Proof.
  intros k mw sw. subst mw sw.
  unfold rate_limit_checks. run.
  fold (kept t w). fold k.
  destruct (500 <=? Z.of_nat (length k)) eqn:E500.
  - apply Z.leb_le in E500.
    pose proof (head_wait_positive t w E500) as Hpos. fold k in Hpos.
    apply Z.ltb_lt in Hpos. rewrite Hpos. run.
    fold (recent t k).
    destruct (15 <=? Z.of_nat (length (recent t k))); run; expose;
      repeat rewrite <- app_assoc; cbn [app];
      do 2 f_equal; lia.
  - run. fold (recent t k).
    destruct (15 <=? Z.of_nat (length (recent t k))); run; expose;
      repeat rewrite app_nil_r; cbn [app];
      do 2 f_equal; lia.
Qed.

Lemma enforce_run w :
  let t := clock w in
  let k := kept t w in
  let mw := if 500 <=? Z.of_nat (length k) then seconds 60 - (t - hd 0 k) else 0 in
  let sw := if 15 <=? Z.of_nat (length (recent t k)) then seconds 1 else 0 in
  _enforce_rate_limit w =
    (Return tt,
     mk_world (dvd_stores w) (search_jobs w) (active_jobs w) (k ++ [t]) (t + mw + sw)
       (db_faults w) (hunter_wire w) (web_wire w) (uuid_source w) (uuid_next w) (rng w)
       (trace w
          ++ (if 500 <=? Z.of_nat (length k)
              then [Logged "warning" "Rate limit approaching, sleeping"; Slept mw]
              else [])
          ++ (if 15 <=? Z.of_nat (length (recent t k)) then [Slept (seconds 1)] else []))).
Proof.
  intros t k mw sw.
  unfold _enforce_rate_limit, bind at 1, gets at 1. cbv beta iota.
  unfold bind at 1. rewrite rate_limit_checks_run. reflexivity.
Qed.

Lemma enforce_returns w : result _enforce_rate_limit w = Return tt.
Proof. unfold result. now rewrite enforce_run. Qed.

Lemma enforce_stamps w :
  request_timestamps (after _enforce_rate_limit w) = (kept (clock w) w ++ [clock w])%list.
Proof. unfold after. now rewrite enforce_run. Qed.

Lemma enforce_clock_lower w : clock w <= clock (after _enforce_rate_limit w).
Proof.
  unfold after. rewrite enforce_run. simpl.
  destruct (500 <=? Z.of_nat (length (kept (clock w) w))) eqn:E.
  - apply Z.leb_le in E. pose proof (head_wait_positive (clock w) w E).
    destruct (15 <=? _); unfold seconds in *; lia.
  - destruct (15 <=? _); unfold seconds; lia.
Qed.


(** ** Runs of calls *)

Lemma issue_app a b w :
  issue (a ++ b) w =
    let (o1, w1) := issue a w in
    let (o2, w2) := issue b w1 in
    (o1 ++ o2, w2).
Proof.
  revert w. induction a as [|g a IH]; intros w; simpl.
  - now destruct (issue b w).
  - rewrite IH.
    destruct (issue a _) as [o1 w1]. destruct (issue b w1) as [o2 w2]. reflexivity.
Qed.

Lemma issue_length gaps w : length (fst (issue gaps w)) = length gaps.
Proof.
  revert w. induction gaps as [|g gaps IH]; intros w; simpl; [reflexivity|].
  specialize (IH (after _enforce_rate_limit (set_clock (clock w + g) w))).
  destruct (issue gaps _); simpl in *. now rewrite IH.
Qed.

(** Calls happen no earlier than the run starts, and the run never turns
    the clock back. *)
Lemma issue_later gaps w :
  Forall (fun g => 0 <= g) gaps ->
  clock w <= clock (snd (issue gaps w)) /\
  forall e d, In (e, d) (fst (issue gaps w)) -> clock w <= e /\ 0 <= d.
Proof.
  revert w. induction gaps as [|g gaps IH]; intros w Hg; simpl.
  - split; [lia | intros e d []].
  - inversion Hg as [|? ? Hg0 Hgs]; subst.
    set (w1 := set_clock (clock w + g) w).
    pose proof (enforce_clock_lower w1) as Hup.
    specialize (IH (after _enforce_rate_limit w1) Hgs).
    destruct (issue gaps _) as [obs w3]; simpl in *.
    destruct IH as [IH1 IH2]. split; [lia|].
    intros e d [Heq | Hin].
    + inversion Heq; subst. lia.
    + destruct (IH2 e d Hin). lia.
Qed.

(** Calls are observed in the order of their instants. *)
Lemma issue_sorted gaps w i j ei di ej dj :
  Forall (fun g => 0 <= g) gaps ->
  (i <= j)%nat ->
  nth_error (fst (issue gaps w)) i = Some (ei, di) ->
  nth_error (fst (issue gaps w)) j = Some (ej, dj) ->
  ei <= ej.
Proof.
  revert w i j. induction gaps as [|g gaps IH]; intros w i j Hg Hij Hi Hj; simpl in *.
  - destruct i; discriminate.
  - inversion Hg as [|? ? Hg0 Hgs]; subst.
    set (w1 := set_clock (clock w + g) w) in *.
    pose proof (enforce_clock_lower w1) as Hup.
    pose proof (issue_later (after _enforce_rate_limit w1) Hgs) as [_ Hl].
    specialize (IH (after _enforce_rate_limit w1)).
    destruct (issue gaps _) as [obs w3]; simpl in *.
    destruct i as [|i], j as [|j]; simpl in *.
    + inversion Hi; inversion Hj; subst. lia.
    + inversion Hi; subst. apply nth_error_In in Hj. destruct (Hl _ _ Hj). lia.
    + lia.
    + apply (IH i j); auto. lia.
Qed.

(** While every call falls within the last 60 seconds of the last one,
    nothing is pruned: the client holds the instants of all the calls. *)
Lemma issue_keeps_all gaps w T :
  (forall ts, In ts (request_timestamps w) -> T - seconds 60 < ts) ->
  (forall e, In e (map fst (fst (issue gaps w))) -> T - seconds 60 < e /\ e <= T) ->
  request_timestamps (snd (issue gaps w))
  = (request_timestamps w ++ map fst (fst (issue gaps w)))%list.
Proof.
  revert w. induction gaps as [|g gaps IH]; intros w Hw He; simpl in *.
  - now rewrite app_nil_r.
  - set (w1 := set_clock (clock w + g) w) in *.
    specialize (IH (after _enforce_rate_limit w1)).
    destruct (issue gaps _) as [obs w3]; simpl in *.
    assert (Ht : T - seconds 60 < clock w + g /\ clock w + g <= T) by (apply He; auto).
    assert (Hk : kept (clock w1) w1 = request_timestamps w).
    { unfold kept. simpl. apply filter_all. intros x Hx. apply Z.ltb_lt.
      specialize (Hw x Hx). lia. }
    rewrite IH.
    + rewrite enforce_stamps, Hk. simpl. now rewrite <- app_assoc.
    + intros ts. rewrite enforce_stamps, Hk. simpl. rewrite in_app_iff. simpl.
      intros [Hin | [<- | []]]; [now apply Hw | lia].
    + intros e Hin. apply He. now right.
Qed.


(** The last call of a run on a fresh client, when the whole run fits in
    less than 60 seconds: the client then holds the instants [l] of all the
    earlier calls, and the suspension of the last call is read off [l]. *)
Lemma burst_last n gaps w e1 d1 eN dN :
  request_timestamps w = [] ->
  Forall (fun g => 0 <= g) gaps ->
  length gaps = S n ->
  nth_error (fst (issue gaps w)) 0 = Some (e1, d1) ->
  nth_error (fst (issue gaps w)) n = Some (eN, dN) ->
  eN - e1 < seconds 60 ->
  exists l,
    length l = n /\
    (forall x, In x l -> e1 <= x <= eN) /\
    (n <> O -> hd 0 l = e1) /\
    dN = (if (500 <=? Z.of_nat (length l)) then seconds 60 - (eN - hd 0 l) else 0)
         + (if (15 <=? Z.of_nat (length (recent eN l))) then seconds 1 else 0).
Proof.
  intros Hfresh Hg Hlen H1 HN Hwin.
  destruct (exists_last (l := gaps)) as [gs [g ->]]; [destruct gaps; simpl in *; congruence|].
  rewrite length_app in Hlen; simpl in Hlen.
  assert (Hgs : length gs = n) by lia.
  pose proof (issue_sorted w (gaps := gs ++ [g])) as Hsorted.
  rewrite issue_app in H1, HN, Hsorted.
  pose proof (issue_length gs w) as Hl1.
  pose proof (issue_keeps_all gs w (T := eN)) as Hkeep.
  destruct (issue gs w) as [o1 w1] eqn:E1. simpl in Hl1, Hkeep.
  simpl in H1, HN, Hsorted.
  set (wn := set_clock (clock w1 + g) w1) in *.
  simpl in H1, HN, Hsorted.
  assert (HeN : eN = clock w1 + g /\ dN = clock (after _enforce_rate_limit wn) - (clock w1 + g)).
  { rewrite nth_error_app2 in HN by lia.
    replace (n - length o1)%nat with O in HN by lia. simpl in HN.
    inversion HN; auto. }
  destruct HeN as [HeN HdN].
  assert (Hrange : forall x, In x (map fst o1) -> e1 <= x <= eN).
  { intros x Hx. apply in_map_iff in Hx. destruct Hx as [[e d] [<- Hin]]. simpl.
    apply In_nth_error in Hin. destruct Hin as [i Hi].
    assert (Hilt : (i < length o1)%nat) by (apply nth_error_Some; congruence).
    assert (Hi' : nth_error (o1 ++ [(clock wn, clock (after _enforce_rate_limit wn) - clock wn)]) i
                  = Some (e, d)) by (rewrite nth_error_app1; auto).
    split.
    - apply (Hsorted O i e1 d1 e d); auto. lia.
    - apply (Hsorted i n e d eN dN); auto. lia. }
  exists (map fst o1). repeat split.
  - rewrite length_map. lia.
  - apply Hrange; auto.
  - apply Hrange; auto.
  - intros Hn. destruct o1 as [|[a b] o1]; simpl in *; [lia|]. now inversion H1.
  - assert (Hst : request_timestamps w1 = map fst o1).
    { rewrite Hkeep, Hfresh; [reflexivity | rewrite Hfresh; intros ? [] |].
      intros e He. destruct (Hrange e He). lia. }
    assert (Hk : kept (clock w1 + g) wn = map fst o1).
    { unfold kept. simpl. rewrite Hst. apply filter_all. intros x Hx.
      apply Z.ltb_lt. destruct (Hrange x Hx). lia. }
    rewrite HdN. unfold after. rewrite enforce_run. simpl.
    rewrite Hk. subst eN. simpl. lia.
Qed.


(** C1.  Every call of the pre-request check returns, and proceeds in this
    order: the timestamps of age 60 s or more are pruned (so every one older
    than 60 s goes); if 500 or more remain, the caller is suspended until
    the head of the list, and with it every timestamp no newer, is 60 s old;
    if 15 or more of the kept timestamps are younger than 1 s at the instant
    of the call, the caller is suspended for 1 s more; only then is the
    instant of the call appended.  On a fresh client, 16 calls within 1 s
    suspend the 16th for at least 1 s, and 501 calls within 60 s hold the
    501st back until the first is 60 s old. *)
Theorem rate_limit_contract :
  (forall w,
      let t := clock w in
      let k := kept t w in
      let w' := after _enforce_rate_limit w in
      let minute_wait := seconds 60 - (t - hd 0 k) in
      result _enforce_rate_limit w = Return tt /\
      (forall ts, In ts k <-> In ts (request_timestamps w) /\ t - ts < seconds 60) /\
      request_timestamps (after (rate_limit_checks t) w) = k /\
      clock (after (rate_limit_checks t) w) = clock w' /\
      request_timestamps w' = (k ++ [t])%list /\
      trace w' =
        (trace w
           ++ (if 500 <=? Z.of_nat (length k)
               then [Logged "warning" "Rate limit approaching, sleeping"; Slept minute_wait]
               else [])
           ++ (if 15 <=? Z.of_nat (length (recent t k)) then [Slept (seconds 1)] else []))%list /\
      (500 <= Z.of_nat (length k) ->
       0 < minute_wait /\ t + minute_wait <= clock w' /\
       forall ts, In ts k -> ts <= hd 0 k -> seconds 60 <= t + minute_wait - ts) /\
      (15 <= Z.of_nat (length (recent t k)) -> t + seconds 1 <= clock w') /\
      (Z.of_nat (length k) < 500 -> Z.of_nat (length (recent t k)) < 15 -> clock w' = t)) /\
  (forall w gaps e1 d1 e16 d16,
      request_timestamps w = [] ->
      Forall (fun g => 0 <= g) gaps ->
      Z.of_nat (length gaps) = 16 ->
      nth_error (fst (issue gaps w)) 0 = Some (e1, d1) ->
      nth_error (fst (issue gaps w)) 15 = Some (e16, d16) ->
      e16 - e1 < seconds 1 ->
      seconds 1 <= d16) /\
  (forall w gaps e1 d1 e501 d501,
      request_timestamps w = [] ->
      Forall (fun g => 0 <= g) gaps ->
      Z.of_nat (length gaps) = 501 ->
      nth_error (fst (issue gaps w)) 0 = Some (e1, d1) ->
      nth_error (fst (issue gaps w)) (Z.to_nat 500) = Some (e501, d501) ->
      e501 - e1 < seconds 60 ->
      e1 + seconds 60 <= e501 + d501).
Proof.
  split; [|split].
  - intros w t k w' minute_wait.
    pose proof (enforce_run w) as Hrun. cbv zeta in Hrun.
    pose proof (rate_limit_checks_run (clock w) w) as Hchk. cbv zeta in Hchk.
    fold t in Hrun, Hchk. fold k in Hrun, Hchk. fold minute_wait in Hrun, Hchk.
    pose proof (head_wait_positive t w) as Hpos.
    fold k in Hpos. fold minute_wait in Hpos.
    assert (Hmem : forall ts, In ts k <-> In ts (request_timestamps w) /\ t - ts < seconds 60).
    { intros ts. subst k. unfold kept. rewrite filter_In, Z.ltb_lt. intuition lia. }
    unfold result. subst w'. unfold after. rewrite Hrun, Hchk.
    cbn [fst snd request_timestamps clock trace].
    destruct (500 <=? Z.of_nat (length k)) eqn:E500;
      [apply Z.leb_le in E500; specialize (Hpos E500) | apply Z.leb_gt in E500; clear Hpos];
      (destruct (15 <=? Z.of_nat (length (recent t k))) eqn:E15;
       [apply Z.leb_le in E15 | apply Z.leb_gt in E15]);
      repeat match goal with |- _ /\ _ => split end;
      try reflexivity; try exact Hmem; intros; try lia;
      repeat match goal with |- _ /\ _ => split end;
      intros; unfold minute_wait, seconds in *; lia.
  - intros w gaps e1 d1 e16 d16 Hfresh Hg Hlen H1 H16 Hwin.
    assert (Hlen' : length gaps = S 15) by lia.
    destruct (burst_last w Hfresh Hg Hlen' H1 H16) as [l [Hl [Hr [_ ->]]]].
    { unfold seconds in *. lia. }
    assert (Hrec : recent e16 l = l).
    { unfold recent. apply filter_all. intros x Hx. apply Z.ltb_lt.
      destruct (Hr x Hx). lia. }
    rewrite Hrec, Hl.
    destruct (500 <=? Z.of_nat 15) eqn:E500; [apply Z.leb_le in E500; lia|].
    destruct (15 <=? Z.of_nat 15) eqn:E15; [|apply Z.leb_gt in E15; lia].
    unfold seconds. lia.
  - intros w gaps e1 d1 e501 d501 Hfresh Hg Hlen H1 H501 Hwin.
    assert (Hlen' : length gaps = S (Z.to_nat 500)) by lia.
    destruct (burst_last w Hfresh Hg Hlen' H1 H501 Hwin) as [l [Hl [_ [Hhd ->]]]].
    rewrite Hl, Hhd by lia.
    rewrite Z2Nat.id, Z.leb_refl by lia.
    destruct (15 <=? _); unfold seconds; lia.
Qed.


End RateLimiter.

(* ================================================================== *)
(** * The Hunter client *)

Section Hunter.

Lemma enforce_leaves_wire w :
  hunter_wire (after _enforce_rate_limit w) = hunter_wire w /\
  requests_sent (after _enforce_rate_limit w) = requests_sent w.
Proof.
  unfold after, requests_sent. rewrite enforce_run. cbn [snd hunter_wire trace].
  split; [reflexivity|].
  rewrite !filter_app.
  destruct (500 <=? _); destruct (15 <=? _); cbn; now rewrite ?app_nil_r.
Qed.

(** One request goes out, one reply is consumed, and the reply decides the
    outcome. *)
Lemma make_request_run endpoint params w :
  let w1 := after _enforce_rate_limit w in
  let sent := HttpGet (HUNTER_BASE_URL ++ "/" ++ endpoint)%string
                      (params ++ [("api_key", PStr HUNTER_API_KEY)]) in
  _make_request endpoint params w =
    match hunter_wire w with
    | [] => (Raise (HTTPException 503 ("Network error: " ++ "unreachable")%string),
             emit sent w1)
    | HTimeout :: rest =>
        (Raise (HTTPException 408 "Request timeout"), set_hunter_wire rest (emit sent w1))
    | HNetworkError msg :: rest =>
        (Raise (HTTPException 503 ("Network error: " ++ msg)%string),
         set_hunter_wire rest (emit sent w1))
    | HResponse code text json :: rest =>
        (if code =? 403 then
           Raise (HTTPException 429 "Rate limit exceeded or insufficient credits")
         else if code =? 401 then Raise (HTTPException 401 "Invalid API key")
         else if negb (code =? 200) then
           Raise (HTTPException code ("API request failed: " ++ text)%string)
         else match json with
              | Gives body => Return body
              | Raises msg => Raise (Error "JSONDecodeError" msg)
              end,
         set_hunter_wire rest (emit sent w1))
    end.
Proof.
  intros w1 sent.
  pose proof (enforce_returns w) as Hret.
  pose proof (proj1 (enforce_leaves_wire w)) as Hwire.
  unfold result, after in *. fold w1 in Hwire.
  unfold _make_request, bind at 1.
  destruct (_enforce_rate_limit w) as [r w1'] eqn:E. cbn [fst snd] in *. subst r.
  subst w1. cbn [snd]. unfold try_except, bind, http_client_get. fold sent.
  rewrite Hwire.
  destruct (hunter_wire w) as [|[|msg|code text json] rest]; try reflexivity.
  unfold raise, ret.
  destruct (code =? 403); [reflexivity|].
  destruct (code =? 401); [reflexivity|].
  destruct (code =? 200); cbn [negb]; [|reflexivity].
  destruct json; reflexivity.
Qed.

(** C7.  The error a request surfaces is decided by what the provider
    answers: 401 gives the unauthorized error, 403 the rate-limit /
    insufficient-credits error, a timeout the timeout error, any other
    status that is not 200 (so every other non-2xx) the generic error with
    the provider's status and body, a network failure the connectivity
    error.  Whatever the answer, exactly one request has gone out and one
    reply has been consumed: nothing is retried. *)
Theorem make_request_errors endpoint params w reply rest :
  hunter_wire w = reply :: rest ->
  let r := result (_make_request endpoint params) w in
  let w' := after (_make_request endpoint params) w in
  match reply with
  | HTimeout => r = Raise (HTTPException 408 "Request timeout")
  | HNetworkError msg => r = Raise (HTTPException 503 ("Network error: " ++ msg)%string)
  | HResponse code text json =>
      (code = 401 -> r = Raise (HTTPException 401 "Invalid API key")) /\
      (code = 403 ->
       r = Raise (HTTPException 429 "Rate limit exceeded or insufficient credits")) /\
      (code <> 200 -> code <> 401 -> code <> 403 ->
       r = Raise (HTTPException code ("API request failed: " ++ text)%string))
  end /\
  hunter_wire w' = rest /\
  requests_sent w' =
    requests_sent w
      ++ [HttpGet (HUNTER_BASE_URL ++ "/" ++ endpoint)%string
                  (params ++ [("api_key", PStr HUNTER_API_KEY)])].
Proof.
  intros Hwire r w'. subst r w'. unfold result, after.
  rewrite make_request_run, Hwire.
  pose proof (proj2 (enforce_leaves_wire w)) as Hsent.
  assert (Hlog : forall e w0 tail,
             requests_sent (set_hunter_wire tail (emit e w0))
             = filter is_HttpGet (trace w0 ++ [e])) by reflexivity.
  destruct reply as [|msg|code text json]; cbn [fst snd];
    (split; [|split; [reflexivity|]]);
    try (rewrite Hlog, filter_app; cbn; unfold requests_sent in Hsent;
         now rewrite Hsent);
    try reflexivity.
  repeat split; intros.
  - subst code. reflexivity.
  - subst code. reflexivity.
  - destruct (Z.eqb_spec code 403); [contradiction|].
    destruct (Z.eqb_spec code 401); [contradiction|].
    destruct (Z.eqb_spec code 200); [contradiction|]. reflexivity.
Qed.

End Hunter.


(* ================================================================== *)
(** * The scraper collectors *)

Section Scrapers.

Lemma emit_warning msg w :
  warnings (emit (Logged "warning" msg) w) = warnings w ++ [Logged "warning" msg].
Proof. unfold warnings. cbn [emit trace]. now rewrite filter_app. Qed.

Lemma yellow_pages_result_run page stores r w :
  match yellow_pages_parsed page r with
  | Some c => yellow_pages_result page stores r w = (Return (stores ++ [c]), w)
  | None => exists msg,
      yellow_pages_result page stores r w
      = (Return stores, emit (Logged "warning" msg) w)
  end.
Proof.
  unfold yellow_pages_parsed, yellow_pages_result.
  destruct r as [n a c p s]; cbn [YPResult.business_name YPResult.street_address
    YPResult.locality YPResult.phones YPResult.track_visit_website].
  destruct n as [m|n]; cbn [gives from_access]; [eexists; reflexivity|].
  destruct a as [m|a]; cbn [gives from_access]; [eexists; reflexivity|].
  destruct c as [m|c]; cbn [gives from_access]; [eexists; reflexivity|].
  destruct p as [m|p]; cbn [gives from_access]; [eexists; reflexivity|].
  destruct s as [m|s]; cbn [gives from_access]; [eexists; reflexivity|].
  reflexivity.
Qed.

(** The loop keeps the results that parse, in order, and logs one warning
    for each of the others; it changes nothing else. *)
Lemma yellow_pages_loop page rs : forall acc w,
  exists w',
    for_each rs (yellow_pages_result page) acc w
    = (Return (acc ++ flat_map (fun r => option_list (yellow_pages_parsed page r)) rs), w') /\
    length (warnings w')
    = (length (warnings w)
       + length (filter (fun r => negb (is_some (yellow_pages_parsed page r))) rs))%nat /\
    rng w' = rng w /\ clock w' = clock w.
Proof.
  induction rs as [|r rs IH]; intros acc w; cbn [for_each flat_map filter].
  - exists w. rewrite app_nil_r. cbn. repeat split; lia.
  - unfold bind at 1.
    pose proof (yellow_pages_result_run page acc r w) as Hr.
    destruct (yellow_pages_parsed page r) as [c|].
    + rewrite Hr. destruct (IH (acc ++ [c]) w) as [w' [Hrun [Hw [Hrng Hclk]]]].
      exists w'. rewrite Hrun. cbn [option_list is_some negb app].
      rewrite <- app_assoc. repeat split; assumption.
    + destruct Hr as [msg Hr]. rewrite Hr.
      destruct (IH acc (emit (Logged "warning" msg) w)) as [w' [Hrun [Hw [Hrng Hclk]]]].
      exists w'. rewrite Hrun. cbn [option_list is_some negb app length].
      repeat split; try assumption.
      rewrite Hw, emit_warning, length_app. cbn [length]. lia.
Qed.

Lemma reddit_post_run stores post w :
  reddit_post stores post w =
    match post with
    | Gives d => (Return (stores ++ reddit_matches d), w)
    | Raises msg =>
        (Return stores,
         emit (Logged "warning" ("Error parsing Reddit post: " ++ msg)%string) w)
    end.
Proof. destruct post; reflexivity. Qed.

Lemma reddit_loop children : forall acc w,
  exists w',
    for_each children reddit_post acc w
    = (Return (acc ++ flat_map (fun post => match gives post with
                                            | Some d => reddit_matches d
                                            | None => []
                                            end) children), w') /\
    length (warnings w')
    = (length (warnings w)
       + length (filter (fun post => negb (is_some (gives post))) children))%nat /\
    rng w' = rng w /\ clock w' = clock w.
Proof.
  induction children as [|post ps IH]; intros acc w; cbn [for_each flat_map filter].
  - exists w. rewrite app_nil_r. cbn. repeat split; lia.
  - unfold bind at 1. rewrite reddit_post_run.
    destruct post as [msg|d]; cbn [gives is_some negb].
    + destruct (IH acc (emit (Logged "warning" ("Error parsing Reddit post: " ++ msg)%string) w))
        as [w' [Hrun [Hw [Hrng Hclk]]]].
      exists w'. rewrite Hrun. cbn [app length].
      repeat split; try assumption.
      rewrite Hw, emit_warning, length_app. cbn [length]. lia.
    + destruct (IH (acc ++ reddit_matches d) w) as [w' [Hrun [Hw [Hrng Hclk]]]].
      exists w'. rewrite Hrun, <- app_assoc. repeat split; assumption.
Qed.

Lemma courtesy_delay_returns w : exists w', courtesy_delay w = (Return tt, w').
Proof.
  unfold courtesy_delay, random_uniform, bind.
  destruct (rng w); run; eexists; reflexivity.
Qed.

Lemma courtesy_delay_quiet w : warnings (after courtesy_delay w) = warnings w.
Proof.
  unfold courtesy_delay, random_uniform, bind, after, warnings.
  destruct (rng w); run; cbn; rewrite filter_app; cbn; now rewrite app_nil_r.
Qed.

Lemma search_yellow_pages_run query location max_results w :
  exists w',
    search_yellow_pages query location max_results w
    = (Return
         match web_wire w with
         | WResponse code page :: _ =>
             if code =? 200 then
               match Page.div_result page with
               | Gives results =>
                   flat_map (fun r => option_list (yellow_pages_parsed page r))
                            (slice_to results max_results)
               | Raises _ => []
               end
             else []
         | _ => []
         end, w') /\
    (forall page rest results,
        web_wire w = WResponse 200 page :: rest ->
        Page.div_result page = Gives results ->
        length (warnings w')
        = (length (warnings w)
           + length (filter (fun r => negb (is_some (yellow_pages_parsed page r)))
                            (slice_to results max_results)))%nat).
Proof.
  unfold search_yellow_pages, try_except, bind at 1, session_get.
  destruct (web_wire w) as [|[msg|code page] rest] eqn:Hwire.
  - eexists. split; [reflexivity | intros; discriminate].
  - eexists. split; [reflexivity | intros; discriminate].
  - cbv beta iota. destruct (Z.eqb_spec code 200) as [->|Hne]; cbn [negb].
    + destruct (Page.div_result page) as [msg|results] eqn:Hdiv; cbn [from_access].
      * eexists. split; [reflexivity|]. intros ? ? ? H1 H2. inversion H1; subst. congruence.
      * unfold bind at 1, ret at 1. unfold bind at 1.
        set (w1 := set_web_wire rest _).
        destruct (yellow_pages_loop page (slice_to results max_results) [] w1)
          as [w2 [Hrun [Hwarn _]]].
        rewrite Hrun. cbv beta iota. unfold bind at 1.
        destruct (courtesy_delay_returns w2) as [w3 Hdelay].
        pose proof (courtesy_delay_quiet w2) as Hquiet.
        unfold after in Hquiet. rewrite Hdelay in *. cbn [snd] in Hquiet.
        exists w3. split; [reflexivity|].
        intros page' rest' results' H1 H2. inversion H1; subst.
        rewrite Hdiv in H2. inversion H2; subst.
        rewrite Hquiet, Hwarn. f_equal.
        unfold w1, warnings. cbn. rewrite filter_app. cbn. now rewrite app_nil_r.
    + eexists. split; [reflexivity|]. intros ? ? ? H1. inversion H1; subst. congruence.
Qed.

Lemma search_reddit_run query max_posts w :
  exists w',
    search_reddit query max_posts w
    = (Return
         match web_wire w with
         | WResponse code page :: _ =>
             if code =? 200 then
               match Page.children page with
               | Gives children =>
                   flat_map (fun post => match gives post with
                                         | Some d => reddit_matches d
                                         | None => []
                                         end) children
               | Raises _ => []
               end
             else []
         | _ => []
         end, w') /\
    (forall page rest children,
        web_wire w = WResponse 200 page :: rest ->
        Page.children page = Gives children ->
        length (warnings w')
        = (length (warnings w)
           + length (filter (fun post => negb (is_some (gives post))) children))%nat).
Proof.
  unfold search_reddit, try_except, bind at 1, session_get.
  destruct (web_wire w) as [|[msg|code page] rest] eqn:Hwire.
  - eexists. split; [reflexivity | intros; discriminate].
  - eexists. split; [reflexivity | intros; discriminate].
  - cbv beta iota. destruct (Z.eqb_spec code 200) as [->|Hne]; cbn [negb].
    + destruct (Page.children page) as [msg|children] eqn:Hch; cbn [from_access].
      * eexists. split; [reflexivity|]. intros ? ? ? H1 H2. inversion H1; subst. congruence.
      * unfold bind at 1, ret at 1. unfold bind at 1.
        set (w1 := set_web_wire rest _).
        destruct (reddit_loop children [] w1) as [w2 [Hrun [Hwarn _]]].
        rewrite Hrun. cbv beta iota. unfold bind at 1.
        destruct (courtesy_delay_returns w2) as [w3 Hdelay].
        pose proof (courtesy_delay_quiet w2) as Hquiet.
        unfold after in Hquiet. rewrite Hdelay in *. cbn [snd] in Hquiet.
        exists w3. split; [reflexivity|].
        intros page' rest' children' H1 H2. inversion H1; subst.
        rewrite Hch in H2. inversion H2; subst.
        rewrite Hquiet, Hwarn. f_equal.
        unfold w1, warnings. cbn. rewrite filter_app. cbn. now rewrite app_nil_r.
    + eexists. split; [reflexivity|]. intros ? ? ? H1. inversion H1; subst. congruence.
Qed.


(** C9.  The directory and the forum collectors never raise.  A response
    whose status is not 200 (so every non-2xx one) gives the empty list.  On
    a 200, the list returned holds exactly the results that parsed, in
    order; each result whose parsing raised is left out and leaves one
    warning in the log. *)
Theorem scrapers_swallow_failures :
  (forall query location max_results w,
      let r := result (search_yellow_pages query location max_results) w in
      let w' := after (search_yellow_pages query location max_results) w in
      (exists stores, r = Return stores) /\
      (forall code page rest,
          web_wire w = WResponse code page :: rest -> code <> 200 -> r = Return []) /\
      (forall page rest results,
          web_wire w = WResponse 200 page :: rest ->
          Page.div_result page = Gives results ->
          let shown := slice_to results max_results in
          r = Return (flat_map (fun x => option_list (yellow_pages_parsed page x)) shown) /\
          length (warnings w')
          = (length (warnings w)
             + length (filter (fun x => negb (is_some (yellow_pages_parsed page x)))
                              shown))%nat)) /\
  (forall query max_posts w,
      let r := result (search_reddit query max_posts) w in
      let w' := after (search_reddit query max_posts) w in
      (exists stores, r = Return stores) /\
      (forall code page rest,
          web_wire w = WResponse code page :: rest -> code <> 200 -> r = Return []) /\
      (forall page rest children,
          web_wire w = WResponse 200 page :: rest ->
          Page.children page = Gives children ->
          r = Return (flat_map (fun post => match gives post with
                                            | Some d => reddit_matches d
                                            | None => []
                                            end) children) /\
          length (warnings w')
          = (length (warnings w)
             + length (filter (fun post => negb (is_some (gives post))) children))%nat)).
Proof.
  split.
  - intros query location max_results w r w'. subst r w'. unfold result, after.
    destruct (search_yellow_pages_run query location max_results w) as [w' [Hrun Hwarn]].
    rewrite Hrun. cbn [fst snd]. split; [eexists; reflexivity|]. split.
    + intros code page rest Hwire Hne. rewrite Hwire.
      destruct (Z.eqb_spec code 200); [contradiction | reflexivity].
    + intros page rest results Hwire Hdiv. split.
      * rewrite Hwire, Hdiv. reflexivity.
      * apply (Hwarn page rest results Hwire Hdiv).
  - intros query max_posts w r w'. subst r w'. unfold result, after.
    destruct (search_reddit_run query max_posts w) as [w' [Hrun Hwarn]].
    rewrite Hrun. cbn [fst snd]. split; [eexists; reflexivity|]. split.
    + intros code page rest Hwire Hne. rewrite Hwire.
      destruct (Z.eqb_spec code 200); [contradiction | reflexivity].
    + intros page rest children Hwire Hch. split.
      * rewrite Hwire, Hch. reflexivity.
      * apply (Hwarn page rest children Hwire Hch).
Qed.


End Scrapers.


(* ================================================================== *)
(** * Storing the candidates a job found *)

Section Dedup.

Lemma find_key_none (store : DVDStore.t) (l : list DVDStore.t) :
  find (fun s => andb (DVDStore.name s =? DVDStore.name store)%string
                      (option_eqb (DVDStore.city s) (DVDStore.city store))) l = None
  <-> ~ In (store_key store) (map store_key l).
Proof.
  induction l as [|x l IH]; cbn [find map In]; [tauto|].
  destruct (andb _ _) eqn:E.
  - apply andb_true_iff in E. destruct E as [E1 E2].
    apply String.eqb_eq in E1. apply option_eqb_eq in E2.
    split; [discriminate|]. intros H. exfalso. apply H. left.
    unfold store_key. now rewrite E1, E2.
  - rewrite IH. split; [|tauto]. intros H [Hx | Hin]; [|tauto].
    unfold store_key in Hx. inversion Hx as [[E1 E2]].
    rewrite E1, String.eqb_refl in E. rewrite E2 in E.
    assert (option_eqb (DVDStore.city store) (DVDStore.city store) = true)
      by now apply option_eqb_eq.
    rewrite H0 in E. discriminate.
Qed.

(** One candidate: either storage is left as it is and the count stands, or
    no stored record had the key and exactly the new record is appended. *)
Lemma store_candidate_cases total c w :
  let w' := after (store_candidate total c) w in
  (dvd_stores w' = dvd_stores w /\ result (store_candidate total c) w = Return total) \/
  (exists s,
      dvd_stores w' = dvd_stores w ++ [s] /\
      store_key s = candidate_key c /\
      ~ In (store_key s) (map store_key (dvd_stores w)) /\
      result (store_candidate total c) w = Return (total + 1)).
Proof.
  unfold store_candidate, DVDStore_of_candidate, uuid4, find_one, insert_one, db_call.
  run.
  destruct (hd false (db_faults w)); run; [left; split; reflexivity|].
  match goal with |- context [find ?q (dvd_stores w)] =>
    destruct (find q (dvd_stores w)) eqn:Hfind end;
    cbn [is_some negb]; run; [left; split; reflexivity|].
  destruct (hd false (tl (db_faults w))); run; [left; split; reflexivity|].
  right. eexists. split; [reflexivity|]. split; [reflexivity|]. split; [|reflexivity].
  apply find_key_none in Hfind. exact Hfind.
Qed.

(** With the repository answering, a candidate whose pair is not stored is
    inserted. *)
Lemma store_candidate_inserts total c w :
  db_healthy w ->
  ~ In (candidate_key c) (map store_key (dvd_stores w)) ->
  exists s,
    dvd_stores (after (store_candidate total c) w) = dvd_stores w ++ [s] /\
    store_key s = candidate_key c /\
    result (store_candidate total c) w = Return (total + 1).
Proof.
  intros Hh Hnew.
  pose proof (healthy_hd Hh) as H1. pose proof (healthy_hd_tl Hh) as H2.
  unfold store_candidate, DVDStore_of_candidate, uuid4, find_one, insert_one, db_call.
  run. rewrite H1. run.
  match goal with |- context [find ?q (dvd_stores w)] =>
    destruct (find q (dvd_stores w)) eqn:Hfind end.
  - exfalso. apply Hnew. apply find_some in Hfind. destruct Hfind as [Hin Hq].
    apply andb_true_iff in Hq. destruct Hq as [E1 E2]. cbn in E1, E2.
    apply String.eqb_eq in E1. apply option_eqb_eq in E2.
    apply in_map_iff. exists t. split; [|exact Hin].
    unfold store_key, candidate_key. now rewrite E1, E2.
  - cbn [is_some negb]. run. rewrite H2. run.
    eexists. repeat split; reflexivity.
Qed.

Lemma store_loop cands : forall total w,
  exists added,
    dvd_stores (after (for_each cands store_candidate total) w) = dvd_stores w ++ added /\
    result (for_each cands store_candidate total) w
    = Return (total + Z.of_nat (length added)) /\
    NoDup (map store_key added) /\
    (forall s, In s added -> ~ In (store_key s) (map store_key (dvd_stores w))) /\
    (forall s, In s added -> exists c, In c cands /\ store_key s = candidate_key c).
Proof.
  induction cands as [|c cs IH]; intros total w.
  - exists []. cbn. rewrite app_nil_r. repeat split; try constructor; try tauto.
    f_equal. lia.
  - cbn [for_each]. unfold after, result, bind.
    pose proof (store_candidate_cases total c w) as Hc. cbv zeta in Hc.
    unfold after, result in Hc.
    destruct (store_candidate total c w) as [r1 w1]. cbn [fst snd] in Hc.
    destruct Hc as [[Hst Hr] | [s [Hst [Hkey [Hnew Hr]]]]]; subst r1.
    + destruct (IH total w1) as [added [Ha [Hres [Hnd [Hfresh Hfrom]]]]].
      unfold after, result in Ha, Hres.
      exists added. rewrite Ha, Hres, Hst. repeat split; auto.
      * intros x Hx. rewrite <- Hst. now apply Hfresh.
      * intros x Hx. destruct (Hfrom x Hx) as [c' [Hin Hk]]. exists c'. split; [now right | exact Hk].
    + destruct (IH (total + 1) w1) as [added [Ha [Hres [Hnd [Hfresh Hfrom]]]]].
      unfold after, result in Ha, Hres.
      exists (s :: added). rewrite Ha, Hres, Hst, <- app_assoc. cbn [app length map].
      split; [reflexivity|]. split; [f_equal; lia|]. split; [|split].
      * constructor; [|exact Hnd]. intros Hin. apply in_map_iff in Hin.
        destruct Hin as [x [Hkx Hx]]. apply (Hfresh x Hx).
        rewrite Hst, map_app, in_app_iff. right. cbn. left. congruence.
      * intros x [<- | Hx]; [exact Hnew|].
        intros Hin. apply (Hfresh x Hx). rewrite Hst, map_app, in_app_iff. now left.
      * intros x [<- | Hx].
        -- exists c. split; [now left | exact Hkey].
        -- destruct (Hfrom x Hx) as [c' [Hin Hk]]. exists c'. split; [now right | exact Hk].
Qed.

(** C3.  When a job stores its candidates one after the other, a candidate
    is inserted only if no stored record has its (name, city) pair, and a
    candidate whose pair is stored already is dropped without raising and
    without being counted.  So the records a run adds carry pairwise distinct
    pairs, none of them the pair of a record stored before the run, and the
    count the job reports is the number of records added. *)
Theorem no_duplicate_pairs :
  (forall total c w,
      In (candidate_key c) (map store_key (dvd_stores w)) ->
      dvd_stores (after (store_candidate total c) w) = dvd_stores w /\
      result (store_candidate total c) w = Return total) /\
  (forall total c w,
      dvd_stores (after (store_candidate total c) w) <> dvd_stores w ->
      ~ In (candidate_key c) (map store_key (dvd_stores w))) /\
  (forall total c w,
      db_healthy w ->
      ~ In (candidate_key c) (map store_key (dvd_stores w)) ->
      exists s,
        dvd_stores (after (store_candidate total c) w) = dvd_stores w ++ [s] /\
        store_key s = candidate_key c /\
        result (store_candidate total c) w = Return (total + 1)) /\
  (forall cands total w,
      exists added,
        dvd_stores (after (for_each cands store_candidate total) w) = dvd_stores w ++ added /\
        result (for_each cands store_candidate total) w
        = Return (total + Z.of_nat (length added)) /\
        (forall s, In s added -> exists c, In c cands /\ store_key s = candidate_key c) /\
        (forall s, In s added -> ~ In (store_key s) (map store_key (dvd_stores w))) /\
        (forall i j a b,
            nth_error added i = Some a -> nth_error added j = Some b ->
            store_key a = store_key b -> i = j)).
Proof.
  split; [|split; [|split]]; [| |exact store_candidate_inserts|].
  - intros total c w Hin.
    destruct (store_candidate_cases total c w) as [H | [s [_ [Hkey [Hnew _]]]]];
      [exact H|].
    rewrite Hkey in Hnew. contradiction.
  - intros total c w Hchanged.
    destruct (store_candidate_cases total c w) as [[H _] | [s [_ [Hkey [Hnew _]]]]];
      [contradiction|].
    now rewrite <- Hkey.
  - intros cands total w.
    destruct (store_loop cands total w) as [added [Ha [Hres [Hnd [Hfresh Hfrom]]]]].
    exists added. repeat split; auto.
    intros i j a b Hi Hj Hk.
    apply (proj1 (NoDup_nth_error (map store_key added)) Hnd).
    + rewrite length_map. apply nth_error_Some. congruence.
    + rewrite !nth_error_map, Hi, Hj. cbn. now rewrite Hk.
Qed.


End Dedup.


(* ================================================================== *)
(** * Email discovery *)

Section EmailDiscovery.

Lemma enforce_frame w :
  dvd_stores (after _enforce_rate_limit w) = dvd_stores w /\
  search_jobs (after _enforce_rate_limit w) = search_jobs w /\
  db_faults (after _enforce_rate_limit w) = db_faults w /\
  active_jobs (after _enforce_rate_limit w) = active_jobs w.
Proof. unfold after. rewrite enforce_run. cbn. repeat split. Qed.



(** Whatever the repository and the provider do, the lookup for one store
    hands the loop a count: the job goes on. *)
Lemma discover_email_returns credits store_id w :
  exists credits', result (discover_email credits store_id) w = Return credits'.
Proof.
  unfold result, discover_email, try_except.
  match goal with |- context [let (o, w1) := ?m w in _] => destruct (m w) as [[a|e] w1] end.
  - eexists. reflexivity.
  - eexists. reflexivity.
Qed.





End EmailDiscovery.


(* ================================================================== *)
(** * Starting an email-discovery job *)

Section StartEmails.




End StartEmails.


(* ================================================================== *)
(** * Updating a store *)

Section UpdateStore.

Lemma store_by_id_stable store_id (f : DVDStore.t -> DVDStore.t) x :
  DVDStore.id (f x) = DVDStore.id x ->
  store_by_id store_id x = true -> store_by_id store_id (f x) = true.
Proof. unfold store_by_id. now intros ->. Qed.


Lemma update_store_missing store_id u w :
  hd false (db_faults w) = false ->
  find (store_by_id store_id) (dvd_stores w) = None ->
  update_store store_id u w
  = (Raise (HTTPException 404 "Store not found"),
     set_dvd_stores (dvd_stores w) (called "dvd_stores" "find_one_and_update" w)).
Proof.
  intros H1 Hfind.
  unfold update_store. unfold bind at 1, utcnow at 1, gets at 1. unfold bind at 1.
  rewrite find_one_and_update_run, H1. cbv zeta.
  change (docs db_dvd_stores (called (coll_name db_dvd_stores) "find_one_and_update" w))
    with (dvd_stores w).
  rewrite update_first_none by exact Hfind. reflexivity.
Qed.

Lemma parse_requires_name body w :
  match Body.name body with
  | Given (Some name) => True
  | _ => parse_DVDStoreCreate body w = (Raise (RequestValidationError "name"), w)
  end.
Proof.
  unfold parse_DVDStoreCreate. destruct (Body.name body) as [|[name|]]; trivial.
Qed.

Lemma parse_gives_name body u w w' :
  parse_DVDStoreCreate body w = (Return u, w') ->
  w' = w /\ Body.name body = Given (Some (DVDStoreCreate.name u)).
Proof.
  unfold parse_DVDStoreCreate.
  destruct (Body.name body) as [|[name|]]; try discriminate.
  destruct (Body.source body) as [|[src|]]; try discriminate;
    unfold ret; intros H; inversion H; subst; cbn; auto.
Qed.

(** C10.  A request to update a store whose body has no name (or a null
    name) is refused with a validation error before the handler runs: the
    world is left exactly as it was, so no repository call is made and no
    record changes.  Conversely an update that answers with a record had a
    name in its body, and the record carries it. *)
Theorem update_requires_name store_id body w :
  (Body.name body = Unset \/ Body.name body = Given None ->
   PUT_stores store_id body w = (Raise (RequestValidationError "name"), w)) /\
  (forall doc,
      result (PUT_stores store_id body) w = Return doc ->
      Body.name body = Given (Some (DVDStore.name doc))).
Proof.
  split.
  - intros Hname. unfold PUT_stores, bind.
    pose proof (parse_requires_name body w) as Hp.
    destruct Hname as [Hn | Hn]; rewrite Hn in Hp; now rewrite Hp.
  - intros doc. unfold result, PUT_stores, bind.
    destruct (parse_DVDStoreCreate body w) as [[u|e] w1] eqn:Hparse; [|discriminate].
    destruct (parse_gives_name body w Hparse) as [-> Hname].
    unfold update_store. unfold bind at 1, utcnow at 1, gets at 1. unfold bind at 1.
    rewrite find_one_and_update_run. cbv zeta.
    destruct (hd false (db_faults w)); [discriminate|].
    change (docs db_dvd_stores (called (coll_name db_dvd_stores) "find_one_and_update" w))
      with (dvd_stores w).
    destruct (find (store_by_id store_id) (dvd_stores w)) as [old|] eqn:Hfind.
    + destruct (update_first_spec (store_by_id store_id) (apply_update u (clock w))
                  (dvd_stores w) Hfind) as [l1 [l2 [_ [_ ->]]]].
      cbn [fst snd]. unfold ret. intros H. inversion H; subst. exact Hname.
    + rewrite update_first_none by exact Hfind. discriminate.
Qed.

End UpdateStore.


(* ================================================================== *)
(** * What the coroutines leave alone *)

Section Keeps.

Context (R : world -> world -> Prop) {TR : Tolerant R}.

Lemma keeps_ret {A} (a : A) : keeps R (ret a).
Proof. intros w. apply tol_refl. Qed.

Lemma keeps_raise {A} (e : exn) : keeps R (raise (A := A) e).
Proof. intros w. apply tol_refl. Qed.

Lemma keeps_gets {A} (f : world -> A) : keeps R (gets f).
Proof. intros w. apply tol_refl. Qed.

Lemma keeps_bind {A B} (m : M A) (k : A -> M B) :
  keeps R m -> (forall a, keeps R (k a)) -> keeps R (bind m k).
Proof.
  intros Hm Hk w. specialize (Hm w). unfold after, bind in *.
  destruct (m w) as [[a|e] w1]; cbn [snd] in *; [|exact Hm].
  eapply tol_trans; [exact Hm | apply Hk].
Qed.

Lemma keeps_try_except {A} (body : M A) (handler : exn -> M A) :
  keeps R body -> (forall e, keeps R (handler e)) -> keeps R (try_except body handler).
Proof.
  intros Hm Hk w. specialize (Hm w). unfold after, try_except in *.
  destruct (body w) as [[a|e] w1]; cbn [snd] in *; [exact Hm|].
  eapply tol_trans; [exact Hm | apply Hk].
Qed.

Lemma keeps_try_finally {A} (body : M A) (cleanup : M unit) :
  keeps R body -> keeps R cleanup -> keeps R (try_finally body cleanup).
Proof.
  intros Hm Hc w. specialize (Hm w). unfold after, try_finally in *.
  destruct (body w) as [r w1]; cbn [snd] in *. specialize (Hc w1). unfold after in Hc.
  destruct (cleanup w1) as [[u|e] w2]; cbn [snd] in *;
    exact (tol_trans _ _ _ Hm Hc).
Qed.

Lemma keeps_for_each {A B} (xs : list A) (body : B -> A -> M B) :
  (forall acc x, keeps R (body acc x)) -> forall acc, keeps R (for_each xs body acc).
Proof.
  intros Hb. induction xs as [|x xs IH]; intros acc; cbn [for_each].
  - apply keeps_ret.
  - apply keeps_bind; [apply Hb | exact IH].
Qed.

Lemma keeps_modify (f : world -> world) : (forall w, R w (f w)) -> keeps R (modify f).
Proof. intros H w. apply H. Qed.

Lemma keeps_logger level msg : keeps R (logger level msg).
Proof. apply keeps_modify. intros w. apply tol_emit. Qed.

Lemma keeps_sleep d : 0 <= d -> keeps R (sleep d).
Proof.
  intros Hd. apply keeps_modify. intros w.
  eapply tol_trans; [apply (@tol_clock R TR (clock w + d) w); lia | apply tol_emit].
Qed.

Lemma keeps_uuid4 : keeps R uuid4.
Proof. intros w. apply tol_uuid. Qed.

Lemma keeps_db_call coll op : keeps R (db_call coll op).
Proof.
  intros w. unfold after. rewrite db_call_run. cbn [snd]. unfold called.
  eapply tol_trans; [apply tol_emit | apply tol_faults].
Qed.

Lemma keeps_courtesy_delay : keeps R courtesy_delay.
Proof.
  intros w. unfold after, courtesy_delay, random_uniform, bind.
  destruct (rng w) as [|d rest].
  - apply (keeps_sleep (d := seconds 1)). unfold seconds. lia.
  - eapply tol_trans; [apply (@tol_rng R TR rest w)|].
    apply (keeps_sleep (d := Z.max (seconds 1) (Z.min (seconds 3) d))).
    unfold seconds. lia.
Qed.

Lemma keeps_rate_limit_checks t : keeps R (rate_limit_checks t).
Proof.
  unfold rate_limit_checks.
  apply keeps_bind; [apply keeps_modify; intros w; apply tol_timestamps | intros _].
  apply keeps_bind; [apply keeps_gets | intros stamps].
  apply keeps_bind; [|intros _].
  - destruct (500 <=? _); [|apply keeps_ret].
    destruct (0 <? _) eqn:E; [|apply keeps_ret].
    apply Z.ltb_lt in E.
    apply keeps_bind; [apply keeps_logger | intros _]. apply keeps_sleep. lia.
  - apply keeps_bind; [apply keeps_gets | intros stamps2].
    destruct (15 <=? _); [|apply keeps_ret]. apply keeps_sleep. unfold seconds. lia.
Qed.

Lemma keeps_enforce : keeps R _enforce_rate_limit.
Proof.
  unfold _enforce_rate_limit.
  apply keeps_bind; [apply keeps_gets | intros t].
  apply keeps_bind; [apply keeps_rate_limit_checks | intros _].
  apply keeps_modify. intros w. apply tol_timestamps.
Qed.

Lemma keeps_http_client_get url params : keeps R (http_client_get url params).
Proof.
  intros w. unfold after, http_client_get.
  destruct (hunter_wire w) as [|[|msg|code text json] rest]; cbn [snd];
    try (eapply tol_trans; [apply tol_emit | apply tol_hunter]).
  apply tol_emit.
Qed.

Lemma keeps_session_get url params : keeps R (session_get url params).
Proof.
  intros w. unfold after, session_get.
  destruct (web_wire w) as [|[msg|code page] rest]; cbn [snd];
    try (eapply tol_trans; [apply tol_emit | apply tol_web]).
  apply tol_emit.
Qed.

Lemma keeps_from_access {A} (a : access A) : keeps R (from_access a).
Proof. destruct a; [apply keeps_raise | apply keeps_ret]. Qed.

End Keeps.

Create HintDb keeps.

#[local] Hint Resolve keeps_ret keeps_raise keeps_gets keeps_logger keeps_uuid4
  keeps_db_call keeps_courtesy_delay keeps_rate_limit_checks keeps_enforce
  keeps_http_client_get keeps_session_get keeps_from_access : keeps.

Ltac tolerant :=
  match goal with
  | |- Tolerant _ => first [assumption | exact _]
  | _ => idtac
  end.

(** Taking a coroutine apart along its combinators. *)
Ltac keeps_step :=
  match goal with
  | |- keeps _ _ => solve [eauto with keeps typeclass_instances]
  | |- keeps _ (bind _ _) => apply keeps_bind; tolerant; [|intros]
  | |- keeps _ (try_except _ _) => apply keeps_try_except; tolerant; [|intros]
  | |- keeps _ (try_finally _ _) => apply keeps_try_finally; tolerant
  | |- keeps _ (for_each _ _ _) => apply keeps_for_each; tolerant; intros
  | |- keeps _ utcnow => apply keeps_gets; tolerant
  | |- keeps _ (if ?b then _ else _) => destruct b
  | |- keeps _ (match ?x with _ => _ end) => destruct x
  | |- keeps _ _ => solve [eauto with keeps typeclass_instances]
  end.

Ltac keeps_auto := repeat keeps_step.


Section KeepsReaders.

Context (R : world -> world -> Prop) {TR : Tolerant R}.

Lemma keeps_make_request endpoint params : keeps R (_make_request endpoint params).
Proof. unfold _make_request. keeps_auto. Qed.

Lemma keeps_domain_search domain limit : keeps R (domain_search domain limit).
Proof. apply keeps_make_request. Qed.

Lemma keeps_get_account_info : keeps R get_account_info.
Proof. apply keeps_make_request. Qed.

Lemma keeps_yellow_pages_result page stores r : keeps R (yellow_pages_result page stores r).
Proof. unfold yellow_pages_result. keeps_auto. Qed.

Lemma keeps_yelp_result page stores r : keeps R (yelp_result page stores r).
Proof. unfold yelp_result. keeps_auto. Qed.

Lemma keeps_reddit_post stores post : keeps R (reddit_post stores post).
Proof. unfold reddit_post. keeps_auto. Qed.

Lemma keeps_search_yellow_pages q l n : keeps R (search_yellow_pages q l n).
Proof.
  pose proof keeps_yellow_pages_result. unfold search_yellow_pages. keeps_auto.
Qed.

Lemma keeps_search_yelp q l n : keeps R (search_yelp q l n).
Proof. pose proof keeps_yelp_result. unfold search_yelp. keeps_auto. Qed.

Lemma keeps_search_reddit q n : keeps R (search_reddit q n).
Proof. pose proof keeps_reddit_post. unfold search_reddit. keeps_auto. Qed.

Lemma keeps_find_one {A} (c : collection A) q : keeps R (find_one c q).
Proof. unfold find_one. keeps_auto. Qed.

Lemma keeps_find_to_list {A} (c : collection A) q s n k : keeps R (find_to_list c q s n k).
Proof. unfold find_to_list. keeps_auto. Qed.

Lemma keeps_find_all_to_list {A} (c : collection A) q k : keeps R (find_all_to_list c q k).
Proof. unfold find_all_to_list. keeps_auto. Qed.

Lemma keeps_count_documents {A} (c : collection A) q : keeps R (count_documents c q).
Proof. unfold count_documents. keeps_auto. Qed.

Lemma keeps_parse body : keeps R (parse_DVDStoreCreate body).
Proof. unfold parse_DVDStoreCreate. keeps_auto. Qed.

Lemma keeps_create_task job_id : keeps R (create_task job_id).
Proof. apply keeps_modify; try exact TR. intros w. apply tol_active. Qed.

Lemma keeps_job_cleanup job_id : keeps R (job_cleanup job_id).
Proof. apply keeps_modify; try exact TR. intros w. apply tol_active. Qed.

Lemma keeps_root : keeps R root.
Proof. apply keeps_ret; exact TR. Qed.

Lemma keeps_get_hunter_account : keeps R get_hunter_account.
Proof. pose proof keeps_get_account_info. unfold get_hunter_account. keeps_auto. Qed.

Lemma keeps_get_stores skip limit search state verified :
  keeps R (get_stores skip limit search state verified).
Proof. pose proof @keeps_find_to_list. unfold get_stores. keeps_auto. Qed.

Lemma keeps_get_search_jobs limit : keeps R (get_search_jobs limit).
Proof. unfold get_search_jobs. keeps_auto. Qed.

Lemma keeps_get_search_job job_id : keeps R (get_search_job job_id).
Proof. pose proof @keeps_find_one. unfold get_search_job. keeps_auto. Qed.

Lemma keeps_get_stats : keeps R get_stats.
Proof.
  pose proof @keeps_count_documents. pose proof keeps_get_account_info.
  unfold get_stats, encode_raw_jobs. keeps_auto.
Qed.

(** Writing to a collection the relation does not look at. *)
Section Writers.

Context {A : Type} (c : collection A).
Hypothesis c_free : forall x w, R w (set_docs c x w).

Lemma keeps_insert_one d : keeps R (insert_one c d).
Proof. unfold insert_one. keeps_auto. apply keeps_modify; try exact TR. intros w. apply c_free. Qed.

Lemma keeps_update_one q f : keeps R (update_one c q f).
Proof. unfold update_one. keeps_auto. apply keeps_modify; try exact TR. intros w. apply c_free. Qed.

Lemma keeps_find_one_and_update q f : keeps R (find_one_and_update c q f).
Proof.
  unfold find_one_and_update. keeps_auto.
  intros w. unfold after. destruct (update_first q f (docs c w)). apply c_free.
Qed.

Lemma keeps_delete_one q : keeps R (delete_one c q).
Proof.
  unfold delete_one. keeps_auto.
  intros w. unfold after. destruct (remove_first q (docs c w)). apply c_free.
Qed.

End Writers.

End KeepsReaders.


#[local] Hint Resolve keeps_make_request keeps_domain_search keeps_get_account_info
  keeps_yellow_pages_result keeps_yelp_result keeps_reddit_post
  keeps_search_yellow_pages keeps_search_yelp keeps_search_reddit
  keeps_find_one keeps_find_to_list keeps_find_all_to_list keeps_count_documents
  keeps_parse keeps_create_task keeps_job_cleanup keeps_root keeps_get_hunter_account
  keeps_get_stores keeps_get_search_jobs keeps_get_search_job keeps_get_stats : keeps.

#[local] Instance same_data_tolerant : Tolerant same_data.
Proof. constructor; unfold same_data; intros; cbn; intuition congruence. Qed.

#[local] Instance same_jobs_tolerant : Tolerant same_jobs.
Proof. constructor; unfold same_jobs; intros; cbn; congruence. Qed.

#[local] Instance same_jobs_ignores_stores : IgnoresStores same_jobs.
Proof. intros x w. reflexivity. Qed.

Lemma stamps_ok_clock t w : clock w <= t -> stamps_ok w -> stamps_ok (set_clock t w).
Proof. unfold stamps_ok. cbn. intros Ht H x Hx. specialize (H x Hx). lia. Qed.

#[local] Instance stamps_kept_tolerant : Tolerant stamps_kept.
Proof.
  constructor; unfold stamps_kept.
  - intros w. split; [lia | tauto].
  - intros a b c [H1 H2] [H3 H4]. split; [lia | tauto].
  - intros e w. split; cbn; [lia | tauto].
  - intros x w. split; cbn; [lia | tauto].
  - intros x w. split; cbn; [lia | tauto].
  - intros x w. split; cbn; [lia | tauto].
  - intros x w. split; cbn; [lia | tauto].
  - intros x w. split; cbn; [lia | tauto].
  - intros x w. split; cbn; [lia | tauto].
  - intros x w. split; cbn; [lia | tauto].
  - intros t w Ht. split; [exact Ht | now apply stamps_ok_clock].
Qed.

#[local] Instance stamps_kept_ignores_jobs : IgnoresJobs stamps_kept.
Proof. intros x w. split; cbn; [lia | tauto]. Qed.

(** Coroutines that write to the stored records, under a relation that does
    not look at them. *)
Section KeepsStoreWriters.

Context (R : world -> world -> Prop) {TR : Tolerant R} {IS : IgnoresStores R}.

Lemma keeps_stores_insert d : keeps R (insert_one db_dvd_stores d).
Proof. apply keeps_insert_one; [exact TR | intros; apply IS]. Qed.

Lemma keeps_stores_update q f : keeps R (update_one db_dvd_stores q f).
Proof. apply keeps_update_one; [exact TR | intros; apply IS]. Qed.

Lemma keeps_stores_find_update q f : keeps R (find_one_and_update db_dvd_stores q f).
Proof. apply keeps_find_one_and_update; [exact TR | intros; apply IS]. Qed.

Lemma keeps_stores_delete q : keeps R (delete_one db_dvd_stores q).
Proof. apply keeps_delete_one; [exact TR | intros; apply IS]. Qed.

Lemma keeps_discover_email credits store_id : keeps R (discover_email credits store_id).
Proof.
  pose proof keeps_stores_update. unfold discover_email. keeps_auto.
  apply keeps_sleep; [exact TR | unfold seconds; lia].
Qed.

Lemma keeps_store_candidate total c : keeps R (store_candidate total c).
Proof.
  pose proof keeps_stores_insert. unfold store_candidate, DVDStore_of_candidate. keeps_auto.
Qed.

Lemma keeps_collect job : keeps R (collect job).
Proof. pose proof keeps_discover_email. unfold collect. keeps_auto. Qed.

Lemma keeps_create_store store : keeps R (create_store store).
Proof. pose proof keeps_stores_insert. unfold create_store. keeps_auto. Qed.

Lemma keeps_update_store store_id u : keeps R (update_store store_id u).
Proof. pose proof keeps_stores_find_update. unfold update_store. keeps_auto. Qed.

Lemma keeps_verify_store store_id : keeps R (verify_store store_id).
Proof. pose proof keeps_stores_find_update. unfold verify_store. keeps_auto. Qed.

Lemma keeps_delete_store store_id : keeps R (delete_store store_id).
Proof. pose proof keeps_stores_delete. unfold delete_store. keeps_auto. Qed.

Lemma keeps_POST_stores body : keeps R (POST_stores body).
Proof. pose proof keeps_create_store. unfold POST_stores. keeps_auto. Qed.

Lemma keeps_PUT_stores store_id body : keeps R (PUT_stores store_id body).
Proof. pose proof keeps_update_store. unfold PUT_stores. keeps_auto. Qed.

End KeepsStoreWriters.


(** Coroutines that write to the stored records, as to the timestamps. *)
Section KeepsStamps.

Lemma update_first_all {A} (P : A -> Prop) (q : A -> bool) (f : A -> A) (l : list A) :
  (forall y, In y l -> P y) -> (forall y, In y l -> P (f y)) ->
  forall y, In y (snd (update_first q f l)) -> P y.
Proof.
  induction l as [|a l IH]; cbn [update_first]; intros Hl Hf y; [intros []|].
  destruct (q a).
  - cbn. intros [<- | Hy]; [apply Hf; now left | apply Hl; now right].
  - destruct (update_first q f l) as [o l'] eqn:E. cbn in *.
    intros [<- | Hy]; [apply Hl; now left|].
    apply IH; auto.
Qed.

Lemma remove_first_subset {A} (q : A -> bool) (l : list A) :
  forall y, In y (snd (remove_first q l)) -> In y l.
Proof.
  induction l as [|a l IH]; cbn [remove_first]; intros y; [intros []|].
  destruct (q a); cbn; [now right|].
  destruct (remove_first q l) as [n l'] eqn:E. cbn in *.
  intros [<- | Hy]; [now left | right; now apply IH].
Qed.

(** A record rewritten in place with the instant of the clock as its
    timestamp. *)
Lemma stamps_update_now q (f : Z -> DVDStore.t -> DVDStore.t) w :
  (forall now x, DVDStore.updated_at (f now x) <= now) ->
  stamps_kept w
    (set_dvd_stores (snd (update_first q (f (clock w)) (dvd_stores w)))
       (called "dvd_stores" "op" w)).
Proof.
  intros Hf. split; [cbn; lia|]. intros Hok x Hx. cbn in Hx |- *.
  revert x Hx. apply update_first_all.
  - exact Hok.
  - intros y _. apply Hf.
Qed.

Lemma stamps_called coll op w : stamps_kept w (called coll op w).
Proof. split; cbn; [lia | tauto]. Qed.

Lemma keeps_stamps_set_email q v c (x : Z) :
  keeps stamps_kept
    (now <- utcnow ;; update_one db_dvd_stores q (set_email v c now) ;; ret x).
Proof.
  intros w. unfold after, bind at 1, utcnow, gets. unfold bind at 1.
  rewrite update_one_run. cbv zeta.
  destruct (hd false (db_faults w)); cbn [snd].
  - apply stamps_called.
  - unfold ret. cbn [snd].
    pose proof (@stamps_update_now q (fun now => set_email v c now) w
                  (fun now _ => bson_datetime_le now)) as H.
    destruct H as [H1 H2]. split; [exact H1 | exact H2].
Qed.

Lemma keeps_stamps_discover_email credits store_id :
  keeps stamps_kept (discover_email credits store_id).
Proof.
  pose proof keeps_stamps_set_email. unfold discover_email. keeps_auto.
  apply keeps_sleep; [exact _ | unfold seconds; lia].
Qed.

Lemma keeps_stamps_store_candidate total c : keeps stamps_kept (store_candidate total c).
Proof.
  intros w. unfold after, store_candidate, DVDStore_of_candidate, uuid4, find_one,
    insert_one, db_call.
  run.
  destruct (hd false (db_faults w)); run; [split; [cbn; lia | tauto]|].
  match goal with |- context [find ?q (dvd_stores w)] =>
    destruct (find q (dvd_stores w)) end;
    cbn [is_some negb]; run; [split; [cbn; lia | tauto]|].
  destruct (hd false (tl (db_faults w))); run; (split; [cbn; lia|]);
    [tauto|].
  intros Hok x Hx. cbn in Hx |- *. apply in_app_iff in Hx.
  destruct Hx as [Hx | [<- | []]]; [now apply Hok|].
  cbn. pose proof (bson_datetime_le (clock w)). lia.
Qed.

Lemma keeps_stamps_create_store store : keeps stamps_kept (create_store store).
Proof.
  intros w. unfold after, create_store, uuid4. run.
  rewrite insert_one_run. cbv zeta. cbn [db_faults set_uuid_next].
  destruct (hd false (db_faults w)); cbn [snd].
  - split; [cbn; lia | tauto].
  - split; [cbn; lia|]. intros Hok x Hx. cbn in Hx |- *. apply in_app_iff in Hx.
    destruct Hx as [Hx | [<- | []]]; [now apply Hok|].
    cbn. pose proof (bson_datetime_le (clock w)). lia.
Qed.

Lemma keeps_stamps_update_store store_id u : keeps stamps_kept (update_store store_id u).
Proof.
  intros w. unfold after, update_store, bind at 1, utcnow, gets. unfold bind at 1.
  rewrite find_one_and_update_run. cbv zeta.
  destruct (hd false (db_faults w)); cbn [snd].
  - apply stamps_called.
  - pose proof (@stamps_update_now (store_by_id store_id) (fun now => apply_update u now) w
                  (fun now _ => bson_datetime_le now)) as [H1 H2].
    destruct (fst (update_first _ _ _)); cbn [snd]; (split; [exact H1 | exact H2]).
Qed.

Lemma keeps_stamps_verify_store store_id : keeps stamps_kept (verify_store store_id).
Proof.
  intros w. unfold after, verify_store, bind at 1, utcnow, gets. unfold bind at 1.
  rewrite find_one_and_update_run. cbv zeta.
  destruct (hd false (db_faults w)); cbn [snd].
  - apply stamps_called.
  - pose proof (@stamps_update_now (store_by_id store_id) (fun now => set_verified now) w
                  (fun now _ => bson_datetime_le now)) as [H1 H2].
    destruct (fst (update_first _ _ _)); cbn [snd]; (split; [exact H1 | exact H2]).
Qed.

Lemma keeps_stamps_delete_store store_id : keeps stamps_kept (delete_store store_id).
Proof.
  intros w. unfold after, delete_store, bind.
  rewrite delete_one_run. cbv zeta.
  destruct (hd false (db_faults w)); cbn [snd]; [apply stamps_called|].
  assert (Hk : stamps_kept w
                 (set_docs db_dvd_stores
                    (snd (remove_first (store_by_id store_id)
                            (docs db_dvd_stores (called (coll_name db_dvd_stores) "delete_one" w))))
                    (called (coll_name db_dvd_stores) "delete_one" w))).
  { split; [cbn; lia|]. intros Hok x Hx. cbn in Hx |- *. apply Hok.
    now apply remove_first_subset in Hx. }
  destruct (Nat.eqb _ 0); exact Hk.
Qed.

End KeepsStamps.


(** Coroutines that write to the jobs, under a relation that does not look
    at them. *)
Section KeepsJobWriters.

Context (R : world -> world -> Prop) {TR : Tolerant R} {IJ : IgnoresJobs R}.

Lemma keeps_jobs_insert d : keeps R (insert_one db_search_jobs d).
Proof. apply keeps_insert_one; [exact TR | intros; apply IJ]. Qed.

Lemma keeps_jobs_update q f : keeps R (update_one db_search_jobs q f).
Proof. apply keeps_update_one; [exact TR | intros; apply IJ]. Qed.

Lemma keeps_new_SearchJob job_type parameters : keeps R (new_SearchJob job_type parameters).
Proof. unfold new_SearchJob. keeps_auto. Qed.

Lemma keeps_start_directory_search q l n : keeps R (start_directory_search q l n).
Proof.
  pose proof keeps_jobs_insert. pose proof keeps_new_SearchJob.
  unfold start_directory_search. keeps_auto.
Qed.

Lemma keeps_start_reddit_search q n : keeps R (start_reddit_search q n).
Proof.
  pose proof keeps_jobs_insert. pose proof keeps_new_SearchJob.
  unfold start_reddit_search. keeps_auto.
Qed.

Lemma keeps_start_email_discovery ids : keeps R (start_email_discovery ids).
Proof.
  pose proof keeps_jobs_insert. pose proof keeps_new_SearchJob.
  unfold start_email_discovery. keeps_auto.
Qed.

Lemma keeps_job_begin job_id : keeps R (job_begin job_id).
Proof. pose proof keeps_jobs_update. unfold job_begin. keeps_auto. Qed.

Lemma keeps_job_failed job_id e : keeps R (job_failed job_id e).
Proof. pose proof keeps_jobs_update. unfold job_failed. keeps_auto. Qed.

Lemma keeps_task_begin job_id : keeps R (task_begin job_id).
Proof.
  intros w. unfold after, task_begin.
  pose proof (keeps_job_begin job_id w) as Hb. unfold after in Hb.
  destruct (job_begin job_id w) as [[[job|]|e] w1]; cbn [snd] in Hb.
  - exact Hb.
  - eapply tol_trans; [exact Hb|].
    apply (@keeps_try_finally R TR _ (ret (@None SearchJob.t)) (job_cleanup job_id));
      [apply keeps_ret | apply keeps_job_cleanup]; exact TR.
  - eapply tol_trans; [exact Hb|].
    apply (@keeps_try_finally R TR _ (job_failed job_id e ;; ret (@None SearchJob.t))
             (job_cleanup job_id)).
    + apply keeps_bind; [exact TR | apply keeps_job_failed | intros; apply keeps_ret; exact TR].
    + apply keeps_job_cleanup; exact TR.
Qed.

End KeepsJobWriters.

(** The timestamps through the moves of the service. *)
Section StampsOfMoves.

Lemma keeps_stamps_collect job : keeps stamps_kept (collect job).
Proof. pose proof keeps_stamps_discover_email. unfold collect. keeps_auto. Qed.

Lemma keeps_stamps_job_run job_id job : keeps stamps_kept (job_run job_id job).
Proof.
  pose proof keeps_stamps_collect. pose proof keeps_stamps_store_candidate.
  pose proof (@keeps_jobs_update stamps_kept _ _).
  unfold job_run. keeps_auto.
Qed.

Lemma keeps_stamps_task_run job_id job : keeps stamps_kept (task_run job_id job).
Proof.
  pose proof keeps_stamps_job_run. pose proof (@keeps_job_failed stamps_kept _ _).
  unfold task_run. keeps_auto.
Qed.

Lemma keeps_stamps_serve r : keeps stamps_kept (serve r).
Proof.
  pose proof keeps_stamps_create_store. pose proof keeps_stamps_update_store.
  pose proof keeps_stamps_verify_store. pose proof keeps_stamps_delete_store.
  pose proof (@keeps_start_directory_search stamps_kept _ _).
  pose proof (@keeps_start_reddit_search stamps_kept _ _).
  pose proof (@keeps_start_email_discovery stamps_kept _ _).
  destruct r; unfold serve, POST_stores, PUT_stores; keeps_auto.
Qed.

End StampsOfMoves.


(* ================================================================== *)
(** * The jobs *)

Section Jobs.

Lemma find_after_update_first (f : SearchJob.t -> SearchJob.t) job_id other l :
  (forall j, SearchJob.id (f j) = SearchJob.id j) ->
  find (job_by_id other) (snd (update_first (job_by_id job_id) f l))
  = if (other =? job_id)%string then option_map f (find (job_by_id other) l)
    else find (job_by_id other) l.
Proof.
  intros Hf. unfold job_by_id.
  induction l as [|j l IH]; cbn [update_first find snd option_map].
  - now destruct (other =? job_id)%string.
  - destruct (String.eqb_spec (SearchJob.id j) job_id) as [Hj | Hj].
    + cbn [snd find]. rewrite Hf.
      destruct (String.eqb_spec (SearchJob.id j) other) as [Ho | Ho].
      * assert (other = job_id) as -> by congruence. now rewrite String.eqb_refl.
      * destruct (String.eqb_spec other job_id); [congruence | reflexivity].
    + destruct (update_first _ f l) as [o l'] eqn:E.
      cbn [snd find] in *.
      destruct (String.eqb_spec (SearchJob.id j) other) as [Ho | Ho].
      * destruct (String.eqb_spec other job_id); [congruence | reflexivity].
      * exact IH.
Qed.

Lemma status_in_written job_id st w w' other :
  job_written job_id st w w' ->
  status_in other w' =
    if (other =? job_id)%string
    then option_map (fun _ => st) (status_in other w)
    else status_in other w.
Proof.
  intros [f [Hf Hjobs]]. unfold status_in. rewrite Hjobs.
  rewrite find_after_update_first by (intros j; apply Hf).
  destruct (other =? job_id)%string; [|reflexivity].
  destruct (find (job_by_id other) (search_jobs w)) as [j|]; cbn [option_map]; [|reflexivity].
  now rewrite (proj1 (Hf j)).
Qed.

Lemma status_in_appended w w' job other :
  search_jobs w' = search_jobs w ++ [job] ->
  ~ In (SearchJob.id job) (job_ids w) ->
  status_in other w' =
    if (other =? SearchJob.id job)%string then Some (SearchJob.status job)
    else status_in other w.
Proof.
  intros Hjobs Hfresh. unfold status_in, job_ids in *. rewrite Hjobs. clear Hjobs.
  induction (search_jobs w) as [|j l IH]; cbn [app find map In] in *.
  - unfold job_by_id. rewrite String.eqb_sym. now destruct (other =? SearchJob.id job)%string.
  - unfold job_by_id at 1 3.
    destruct (String.eqb_spec (SearchJob.id j) other) as [Ho | Ho].
    + cbn [option_map].
      destruct (String.eqb_spec other (SearchJob.id job)); [|reflexivity].
      exfalso. apply Hfresh. left. congruence.
    + apply IH. tauto.
Qed.

Lemma status_in_none other w : status_in other w = None <-> ~ In other (job_ids w).
Proof.
  unfold status_in, job_ids. induction (search_jobs w) as [|j l IH]; cbn [find map In].
  - cbn. tauto.
  - unfold job_by_id at 1.
    destruct (String.eqb_spec (SearchJob.id j) other) as [Ho | Ho]; cbn [option_map].
    + split; [discriminate | intros H; exfalso; apply H; now left].
    + rewrite IH. tauto.
Qed.

(** A job-creating route either appends one pending job under the id it
    answers with, or raises and leaves the jobs alone. *)
Lemma job_inserted job_type parameters w (k : SearchJob.t -> M started) o w' :
  (forall job w0, search_jobs (after (k job) w0) = search_jobs w0 /\
                  exists a, result (k job) w0 = Return a /\ job_id a = SearchJob.id job) ->
  (job <- new_SearchJob job_type parameters ;;
   insert_one db_search_jobs job ;; k job) w = (o, w') ->
  let jid := uuid_source w (uuid_next w) in
  (exists a job,
      o = Return a /\ job_id a = jid /\
      search_jobs w' = search_jobs w ++ [job] /\
      SearchJob.id job = jid /\ SearchJob.status job = pending) \/
  ((exists e, o = Raise e) /\ search_jobs w' = search_jobs w).
Proof.
  intros Hk Hm jid.
  assert (E1 : new_SearchJob job_type parameters w
               = (Return (SearchJob.mk jid job_type pending parameters None None (clock w)
                            None 0 0),
                  set_uuid_next (S (uuid_next w)) w)) by reflexivity.
  unfold bind in Hm. rewrite E1, insert_one_run in Hm. cbv zeta in Hm.
  cbn [db_faults set_uuid_next] in Hm.
  destruct (hd false (db_faults w)).
  - inversion Hm; subst. right. split; [eexists; reflexivity | reflexivity].
  - left.
    match type of Hm with context [k ?j ?w0] =>
      destruct (Hk j w0) as [Hj [a [Ha Hid]]]; unfold result, after in Hj, Ha;
      destruct (k j w0) as [r w1] eqn:Ek end.
    cbn [fst snd] in *. subst r. inversion Hm; subst.
    eexists a, _. split; [reflexivity|]. split; [exact Hid|].
    split; [rewrite Hj; reflexivity|]. split; reflexivity.
Qed.

Lemma task_registered job w0 (answer : SearchJob.t -> started) :
  (forall j, job_id (answer j) = SearchJob.id j) ->
  search_jobs (after (create_task (SearchJob.id job) ;; ret (answer job)) w0)
  = search_jobs w0 /\
  exists a, result (create_task (SearchJob.id job) ;; ret (answer job)) w0 = Return a /\
            job_id a = SearchJob.id job.
Proof.
  intros Ha. split; [reflexivity|]. exists (answer job). split; [reflexivity | apply Ha].
Qed.

Lemma start_directory_search_jobs query location max_results w o w' :
  start_directory_search query location max_results w = (o, w') ->
  let jid := uuid_source w (uuid_next w) in
  (exists a job,
      o = Return a /\ job_id a = jid /\
      search_jobs w' = search_jobs w ++ [job] /\
      SearchJob.id job = jid /\ SearchJob.status job = pending) \/
  ((exists e, o = Raise e) /\ search_jobs w' = search_jobs w).
Proof.
  unfold start_directory_search. intros H.
  eapply (job_inserted _ _ w (fun job => create_task (SearchJob.id job) ;;
                                ret (mk_started (SearchJob.id job) "started" None)));
    [|exact H].
  intros job w0. apply (task_registered job w0 (fun j => mk_started (SearchJob.id j) "started" None)).
  reflexivity.
Qed.

Lemma start_reddit_search_jobs query max_posts w o w' :
  start_reddit_search query max_posts w = (o, w') ->
  let jid := uuid_source w (uuid_next w) in
  (exists a job,
      o = Return a /\ job_id a = jid /\
      search_jobs w' = search_jobs w ++ [job] /\
      SearchJob.id job = jid /\ SearchJob.status job = pending) \/
  ((exists e, o = Raise e) /\ search_jobs w' = search_jobs w).
Proof.
  unfold start_reddit_search. intros H.
  eapply (job_inserted _ _ w (fun job => create_task (SearchJob.id job) ;;
                                ret (mk_started (SearchJob.id job) "started" None)));
    [|exact H].
  intros job w0. apply (task_registered job w0 (fun j => mk_started (SearchJob.id j) "started" None)).
  reflexivity.
Qed.

Lemma start_email_discovery_jobs store_ids w o w' :
  start_email_discovery store_ids w = (o, w') ->
  let jid := uuid_source w (uuid_next w) in
  (exists a job,
      o = Return a /\ job_id a = jid /\
      search_jobs w' = search_jobs w ++ [job] /\
      SearchJob.id job = jid /\ SearchJob.status job = pending) \/
  ((exists e, o = Raise e) /\ search_jobs w' = search_jobs w).
Proof.
  unfold start_email_discovery. unfold bind at 1. intros H. cbv zeta.
  destruct (no_ids store_ids).
  - unfold find_all_to_list, bind at 1, bind at 1 in H. rewrite db_call_run in H.
    destruct (hd false (db_faults w)).
    + inversion H; subst. right. split; [eexists; reflexivity | reflexivity].
    + unfold gets at 1, ret at 1 in H. cbv beta iota in H.
      match type of H with
      | (bind (new_SearchJob _ ?p) _) ?w0 = _ =>
          eapply (job_inserted _ p w0
                    (fun job => create_task (SearchJob.id job) ;;
                                ret (mk_started (SearchJob.id job) "started"
                                       (Some (length (get_or (Parameters.store_ids p) []))))))
            in H
      end.
      * exact H.
      * intros job w0. split; [reflexivity|]. eexists. split; reflexivity.
  - unfold ret at 1 in H. cbv beta iota in H.
    match type of H with
    | (bind (new_SearchJob _ ?p) _) ?w0 = _ =>
        eapply (job_inserted _ p w0
                  (fun job => create_task (SearchJob.id job) ;;
                              ret (mk_started (SearchJob.id job) "started"
                                     (Some (length (get_or (Parameters.store_ids p) []))))))
          in H
    end.
    + exact H.
    + intros job w0. split; [reflexivity|]. eexists. split; reflexivity.
Qed.


Lemma serve_jobs r w o w' :
  serve r w = (o, w') ->
  let jid := uuid_source w (uuid_next w) in
  (exists job,
      creates_job r = true /\ o = Return (Some jid) /\
      search_jobs w' = search_jobs w ++ [job] /\
      SearchJob.id job = jid /\ SearchJob.status job = pending) \/
  ((forall id, o <> Return (Some id)) /\ search_jobs w' = search_jobs w).
Proof.
  assert (Hquiet : forall {A} (m : M A),
             keeps same_jobs m ->
             (bind m (fun _ => ret (@None string))) w = (o, w') ->
             (forall id, o <> Return (Some id)) /\ search_jobs w' = search_jobs w).
  { intros A m Hm H. specialize (Hm w). unfold same_jobs, after in Hm. unfold bind, ret in H.
    destruct (m w) as [[a|e] w1]; inversion H; subst; cbn [snd] in Hm;
      (split; [intros id; discriminate | exact Hm]). }
  assert (Hstart : forall (m : M started),
             (forall o1 w1, m w = (o1, w1) ->
                 (exists a job,
                     o1 = Return a /\ job_id a = uuid_source w (uuid_next w) /\
                     search_jobs w1 = search_jobs w ++ [job] /\
                     SearchJob.id job = uuid_source w (uuid_next w) /\
                     SearchJob.status job = pending) \/
                 ((exists e, o1 = Raise e) /\ search_jobs w1 = search_jobs w)) ->
             creates_job r = true ->
             (bind m (fun a => ret (Some (job_id a)))) w = (o, w') ->
             (exists job,
                 creates_job r = true /\ o = Return (Some (uuid_source w (uuid_next w))) /\
                 search_jobs w' = search_jobs w ++ [job] /\
                 SearchJob.id job = uuid_source w (uuid_next w) /\
                 SearchJob.status job = pending) \/
             ((forall id, o <> Return (Some id)) /\ search_jobs w' = search_jobs w)).
  { intros m Hm Hc H. unfold bind, ret in H.
    destruct (m w) as [o1 w1] eqn:E.
    destruct (Hm o1 w1 eq_refl) as [[a [job [-> [Ha [Hj [Hid Hst]]]]]] | [[e ->] Hj]];
      inversion H; subst.
    - left. exists job. rewrite Ha. auto.
    - right. split; [intros id; discriminate | exact Hj]. }
  intros H. cbv zeta.
  destruct r; cbn [serve creates_job] in *;
    try (right; eapply Hquiet; [|exact H]);
    try (apply Hstart in H; [exact H | | reflexivity]).
  - apply keeps_root; exact _.
  - apply keeps_get_hunter_account; exact _.
  - apply keeps_POST_stores; exact _.
  - apply keeps_get_stores; exact _.
  - apply keeps_PUT_stores; exact _.
  - apply keeps_delete_store; exact _.
  - apply keeps_verify_store; exact _.
  - intros o1 w1. apply start_directory_search_jobs.
  - intros o1 w1. apply start_reddit_search_jobs.
  - intros o1 w1. apply start_email_discovery_jobs.
  - apply keeps_get_search_jobs; exact _.
  - apply keeps_get_search_job; exact _.
  - apply keeps_get_stats; exact _.
Qed.


Lemma sent_emit e w :
  is_HttpGet e = false -> requests_sent (emit e w) = requests_sent w.
Proof.
  intros He. unfold requests_sent. cbn [trace emit]. rewrite filter_app. cbn [filter].
  rewrite He. apply app_nil_r.
Qed.

Lemma set_running_written : forall j,
  SearchJob.status (set_running j) = running /\ SearchJob.id (set_running j) = SearchJob.id j.
Proof. intros j. split; reflexivity. Qed.

Lemma set_failed_written msg now : forall j,
  SearchJob.status (set_failed msg now j) = failed /\
  SearchJob.id (set_failed msg now j) = SearchJob.id j.
Proof. intros j. split; reflexivity. Qed.

Lemma set_completed_written r now : forall j,
  SearchJob.status (set_completed r now j) = completed /\
  SearchJob.id (set_completed r now j) = SearchJob.id j.
Proof. intros j. split; reflexivity. Qed.

Lemma sent_called c op w : requests_sent (called c op w) = requests_sent w.
Proof.
  unfold called, requests_sent. cbn [trace set_db_faults emit].
  rewrite filter_app. cbn. apply app_nil_r.
Qed.

(** The handler of the task writes [failed], or nothing when the repository
    refuses the write; it sends no request. *)
Lemma job_failed_run job_id e w :
  exists o w',
    job_failed job_id e w = (o, w') /\
    (search_jobs w' = search_jobs w \/ job_written job_id failed w w') /\
    requests_sent w' = requests_sent w.
Proof.
  unfold job_failed, logger, utcnow.
  unfold bind at 1, modify at 1. unfold bind at 1, gets at 1.
  rewrite update_one_run. cbv zeta. cbn [db_faults emit].
  set (w1 := emit (Logged "error" ("Job " ++ job_id ++ " failed: " ++ exn_str e)%string) w).
  assert (Hs : requests_sent (called (coll_name db_search_jobs) "update_one" w1)
               = requests_sent w).
  { rewrite sent_called. now apply sent_emit. }
  destruct (hd false (db_faults w)).
  - eexists _, _. split; [reflexivity|]. split; [left; reflexivity | exact Hs].
  - eexists _, _. split; [reflexivity|]. split; [right | exact Hs].
    eexists. split; [apply set_failed_written|]. reflexivity.
Qed.

(** The first move of a task up to the write of [running]: no request is
    sent; either [running] is written over the job found, or nothing is
    written. *)
Lemma job_begin_run job_id w :
  exists o w',
    job_begin job_id w = (o, w') /\
    requests_sent w' = requests_sent w /\
    ((exists job, o = Return (Some job) /\ job_written job_id running w w') \/
     ((forall job, o <> Return (Some job)) /\ search_jobs w' = search_jobs w)).
Proof.
  unfold job_begin. unfold bind at 1.
  rewrite find_one_run.
  destruct (hd false (db_faults w)).
  - eexists _, _. split; [reflexivity|]. split; [apply sent_called|].
    right. split; [intros; discriminate | reflexivity].
  - change (docs db_search_jobs (called (coll_name db_search_jobs) "find_one" w))
      with (search_jobs w).
    destruct (find (job_by_id job_id) (search_jobs w)) as [job|].
    + unfold bind. rewrite update_one_run. cbv zeta.
      destruct (hd false (db_faults (called (coll_name db_search_jobs) "find_one" w))).
      * eexists _, _. split; [reflexivity|]. split; [rewrite !sent_called; reflexivity|].
        right. split; [intros; discriminate | reflexivity].
      * eexists _, _. split; [reflexivity|]. split.
        -- change (requests_sent (called (coll_name db_search_jobs) "update_one"
                     (called (coll_name db_search_jobs) "find_one" w)) = requests_sent w).
           now rewrite !sent_called.
        -- left. exists job. split; [reflexivity|].
           exists set_running. split; [apply set_running_written | reflexivity].
    + eexists _, _. split; [reflexivity|]. split; [apply sent_called|].
      right. split; [intros; discriminate | reflexivity].
Qed.

(** The first move of a task: no request is sent; the task goes on only
    when [running] is written; otherwise it ends, having written nothing or
    [failed]. *)
Lemma task_begin_run job_id w :
  exists o w',
    task_begin job_id w = (o, w') /\
    requests_sent w' = requests_sent w /\
    ((exists job, o = Return (Some job) /\ job_written job_id running w w') \/
     ((forall job, o <> Return (Some job)) /\
      (search_jobs w' = search_jobs w \/ job_written job_id failed w w'))).
Proof.
  unfold task_begin.
  destruct (job_begin_run job_id w) as [o [w1 [-> [Hs Hc]]]].
  destruct o as [[job|]|e].
  - eexists _, _. split; [reflexivity|]. split; [exact Hs|].
    destruct Hc as [[job' [Ho Hw]] | [Hno _]]; [|exfalso; apply (Hno job); reflexivity].
    left. exists job. split; [reflexivity | exact Hw].
  - destruct Hc as [[job' [Ho _]] | [_ Hj]]; [discriminate|].
    eexists _, _. split; [reflexivity|]. cbn [snd search_jobs set_active_jobs].
    split; [exact Hs|]. right. split; [intros; discriminate | left; exact Hj].
  - destruct Hc as [[job' [Ho _]] | [_ Hj]]; [discriminate|].
    unfold try_finally, bind.
    destruct (job_failed_run job_id e w1) as [o2 [w2 [-> [Hf Hs2]]]].
    assert (Hfin : exists o3,
               (let (r, w3) := match o2 with
                               | Return _ => ret (@None SearchJob.t) w2
                               | Raise e0 => (Raise e0, w2)
                               end in
                match job_cleanup job_id w3 with
                | (Return _, w4) => (r, w4)
                | (Raise e0, w4) => (Raise e0, w4)
                end)
               = (o3, set_active_jobs
                        (filter (fun k => negb (k =? job_id)%string) (active_jobs w2)) w2) /\
               forall job, o3 <> Return (Some job)).
    { destruct o2; eexists; (split; [reflexivity | intros; discriminate]). }
    destruct Hfin as [o3 [-> Hno]].
    eexists _, _. split; [reflexivity|]. cbn [search_jobs set_active_jobs].
    split; [change (requests_sent w2 = requests_sent w); congruence|].
    right. split; [exact Hno|].
    destruct Hf as [Hf | [f [Hff Hf]]]; [left; congruence|].
    right. exists f. split; [exact Hff|].
    change (search_jobs w2 = snd (update_first (job_by_id job_id) f (search_jobs w))).
    now rewrite Hf, Hj.
Qed.

(** The work of a task up to its write of [completed]: either [completed]
    is written, or the run raises having written nothing to the jobs. *)
Lemma job_run_jobs job_id job w :
  exists o w',
    job_run job_id job w = (o, w') /\
    ((o = Return tt /\ job_written job_id completed w w') \/
     ((exists e, o = Raise e) /\ search_jobs w' = search_jobs w)).
Proof.
  unfold job_run. unfold bind at 1.
  pose proof (@keeps_collect same_jobs _ _ job w) as Hc. unfold same_jobs, after in Hc.
  destruct (collect job w) as [[[stores credits]|e] wa]; cbn [snd] in Hc.
  2:{ eexists _, _. split; [reflexivity|]. right. split; [eexists; reflexivity | exact Hc]. }
  unfold bind at 1.
  pose proof (@keeps_for_each same_jobs _ _ _ stores store_candidate
                (fun acc x => @keeps_store_candidate same_jobs _ _ acc x) 0 wa) as Hl.
  unfold same_jobs, after in Hl.
  destruct (for_each stores store_candidate 0 wa) as [[total|e] wb]; cbn [snd] in Hl.
  2:{ eexists _, _. split; [reflexivity|]. right. split; [eexists; reflexivity | congruence]. }
  unfold bind at 1, utcnow, gets. rewrite update_one_run. cbv zeta.
  destruct (hd false (db_faults wb)).
  - eexists _, _. split; [reflexivity|]. right. split; [eexists; reflexivity|].
    change (search_jobs wb = search_jobs w). congruence.
  - eexists _, _. split; [reflexivity|]. left. split; [reflexivity|].
    exists (set_completed (Results.mk stores total credits) (clock wb)).
    split; [apply set_completed_written|].
    rewrite <- Hc, <- Hl. reflexivity.
Qed.

(** The second move of a task ends it with one write at most: [completed],
    or [failed], or nothing. *)
Lemma task_run_jobs job_id job w :
  let w' := after (task_run job_id job) w in
  search_jobs w' = search_jobs w \/
  job_written job_id completed w w' \/
  job_written job_id failed w w'.
Proof.
  cbv zeta. unfold after, task_run, try_finally, try_except.
  destruct (job_run_jobs job_id job w) as [o [w1 [-> Hr]]].
  destruct Hr as [[-> Hw] | [[e ->] Hj]].
  - cbn [snd job_cleanup modify]. right. left.
    destruct Hw as [f [Hf Hw]]. exists f. split; [exact Hf | exact Hw].
  - destruct (job_failed_run job_id e w1) as [o2 [w2 [-> [Hf _]]]].
    cbn [snd job_cleanup modify].
    change (search_jobs w2 = search_jobs w \/
            job_written job_id completed w
              (set_active_jobs (filter (fun k => negb (k =? job_id)%string) (active_jobs w2)) w2) \/
            job_written job_id failed w
              (set_active_jobs (filter (fun k => negb (k =? job_id)%string) (active_jobs w2)) w2)).
    destruct Hf as [Hf | [f [Hff Hf]]]; [left; congruence|].
    right. right. exists f. split; [exact Hff|].
    change (search_jobs w2 = snd (update_first (job_by_id job_id) f (search_jobs w))).
    now rewrite Hf, Hj.
Qed.



End Jobs.


(* ================================================================== *)
(** * The service as a whole *)

Section Service_moves.

Lemma in_drop_task job_id x tasks :
  In x (drop_task job_id tasks) <-> In x tasks /\ fst x <> job_id.
Proof.
  unfold drop_task. rewrite filter_In. rewrite negb_true_iff.
  split; intros [H1 H2]; (split; [exact H1|]).
  - intros E. rewrite E, String.eqb_refl in H2. discriminate.
  - now apply String.eqb_neq.
Qed.

Lemma nodup_drop_task job_id tasks :
  NoDup (map fst tasks) -> NoDup (map fst (drop_task job_id tasks)).
Proof.
  unfold drop_task. induction tasks as [|t tasks IH]; cbn [map filter]; intros H;
    [constructor|].
  inversion H as [|? ? Hnot Hnd]; subst.
  destruct (negb _); [|now apply IH].
  cbn [map]. constructor; [|now apply IH].
  intros Hin. apply Hnot. apply in_map_iff in Hin. destruct Hin as [x [Hx Hin]].
  apply filter_In in Hin. apply in_map_iff. exists x. tauto.
Qed.

Lemma not_in_drop_task job_id tasks : ~ In job_id (map fst (drop_task job_id tasks)).
Proof.
  intros Hin. apply in_map_iff in Hin. destruct Hin as [x [Hx Hin]].
  apply in_drop_task in Hin. tauto.
Qed.

Lemma handle_world r d s :
  sys_world (handle r d s)
  = after (serve r) (set_clock (clock (sys_world s) + d) (sys_world s)).
Proof.
  unfold handle, after. destruct (serve r _) as [[[id|]|e] w']; reflexivity.
Qed.

Lemma begin_task_world job_id s :
  sys_world (begin_task job_id s) = after (task_begin job_id) (sys_world s).
Proof.
  unfold begin_task, after. destruct (task_begin job_id _) as [[[job|]|e] w']; reflexivity.
Qed.

(** No move puts a timestamp from the future on a record. *)
Lemma step_stamps s l s' :
  step s l s' -> stamps_ok (sys_world s) -> stamps_ok (sys_world s').
Proof.
  intros Hstep Hok. destruct Hstep as [s r d Hd Hfresh | s job_id Hin | s job_id job Hin | s d Hd].
  - rewrite handle_world.
    apply (keeps_stamps_serve r (set_clock (clock (sys_world s) + d) (sys_world s))).
    apply stamps_ok_clock; [lia | exact Hok].
  - rewrite begin_task_world.
    apply (@keeps_task_begin stamps_kept _ _ job_id (sys_world s)). exact Hok.
  - apply (keeps_stamps_task_run job_id job (sys_world s)). exact Hok.
  - cbn [sys_world]. apply stamps_ok_clock; [lia | exact Hok].
Qed.

Lemma status_in_same w w' job_id :
  search_jobs w' = search_jobs w -> status_in job_id w' = status_in job_id w.
Proof. unfold status_in. now intros ->. Qed.

Lemma nodup_snoc {A} (l : list A) x : NoDup l -> ~ In x l -> NoDup (l ++ [x]).
Proof.
  intros Hl Hx. induction Hl as [|a l Ha Hl IH]; cbn.
  - constructor; [intros [] | constructor].
  - constructor.
    + rewrite in_app_iff. cbn. intros [H | [H | []]]; [contradiction|].
      apply Hx. now left.
    + apply IH. intros H. apply Hx. now right.
Qed.

Lemma task_has_job s job_id pc :
  invariant s -> In (job_id, pc) (sys_tasks s) ->
  status_in job_id (sys_world s) <> None.
Proof.
  intros [_ [_ [H2 H3]]] Hin. destruct pc as [|job].
  - rewrite (H2 _ Hin). discriminate.
  - rewrite (H3 _ _ Hin). discriminate.
Qed.

(** A request served: the jobs stored stay as they are, and a job that
    appears is [pending] with its task not yet run. *)
Lemma serve_move s r d :
  invariant s ->
  (creates_job r = true ->
   ~ In (uuid_source (sys_world s) (uuid_next (sys_world s))) (job_ids (sys_world s))) ->
  let s' := handle r d s in
  NoDup (map fst (sys_tasks s')) /\
  (forall job_id, In (job_id, Spawned) (sys_tasks s') ->
                  status_in job_id (sys_world s') = Some pending) /\
  (forall job_id job, In (job_id, Started job) (sys_tasks s') ->
                      status_in job_id (sys_world s') = Some running) /\
  (forall job_id st, status_in job_id (sys_world s) = Some st ->
                     status_in job_id (sys_world s') = Some st) /\
  (forall job_id, status_in job_id (sys_world s) = None ->
                  status_in job_id (sys_world s') = None \/
                  status_in job_id (sys_world s') = Some pending).
Proof.
  intros Hinv Hfresh. pose proof Hinv as [_ [Hnd [H2 H3]]]. cbv zeta. unfold handle.
  set (w1 := set_clock (clock (sys_world s) + d) (sys_world s)).
  assert (Hw1 : forall id, status_in id w1 = status_in id (sys_world s)) by reflexivity.
  destruct (serve r w1) as [o w'] eqn:E.
  destruct (serve_jobs r w1 E) as [[job [Hc [-> [Hjobs [Hid Hst]]]]] | [Hno Hjobs]].
  - specialize (Hfresh Hc). rewrite <- Hid. cbn [sys_world sys_tasks].
    change (uuid_source w1 (uuid_next w1))
      with (uuid_source (sys_world s) (uuid_next (sys_world s))) in Hid.
    assert (Hnew : status_in (SearchJob.id job) (sys_world s) = None).
    { apply status_in_none. now rewrite Hid. }
    assert (Happ : forall other,
               status_in other w' =
               if (other =? SearchJob.id job)%string then Some pending
               else status_in other (sys_world s)).
    { intros other. rewrite <- Hst, <- Hw1. apply status_in_appended; [exact Hjobs|].
      change (job_ids w1) with (job_ids (sys_world s)). now rewrite Hid. }
    assert (Hold : forall id pc, In (id, pc) (sys_tasks s) -> id <> SearchJob.id job).
    { intros id pc Hin ->. now apply (task_has_job _ _ Hinv Hin). }
    split; [|split; [|split; [|split]]].
    + rewrite map_app. apply nodup_snoc; [exact Hnd|].
      intros Hin. apply in_map_iff in Hin. destruct Hin as [[id pc] [Hx Hin]].
      cbn in Hx. subst id. now apply (Hold _ _ Hin).
    + intros id Hin. rewrite Happ. apply in_app_iff in Hin.
      destruct Hin as [Hin | [Hin | []]].
      * destruct (String.eqb_spec id (SearchJob.id job)); [reflexivity | now apply H2].
      * inversion Hin; subst. now rewrite String.eqb_refl.
    + intros id j Hin. rewrite Happ. apply in_app_iff in Hin.
      destruct Hin as [Hin | [Hin | []]]; [|discriminate].
      destruct (String.eqb_spec id (SearchJob.id job)) as [-> | _];
        [exfalso; now apply (Hold _ _ Hin) | now apply (H3 _ j)].
    + intros id st Hs. rewrite Happ.
      destruct (String.eqb_spec id (SearchJob.id job)) as [-> | _]; [congruence | exact Hs].
    + intros id Hs. rewrite Happ.
      destruct (id =? SearchJob.id job)%string; [now right | now left].
  - assert (Hsame : forall id, status_in id w' = status_in id (sys_world s)).
    { intros id. rewrite <- Hw1. now apply status_in_same. }
    assert (Htasks : sys_tasks (match o with
                                | Return (Some job_id) =>
                                    mk_system w' (sys_tasks s ++ [(job_id, Spawned)])
                                | _ => mk_system w' (sys_tasks s)
                                end) = sys_tasks s
                     /\ sys_world (match o with
                                   | Return (Some job_id) =>
                                       mk_system w' (sys_tasks s ++ [(job_id, Spawned)])
                                   | _ => mk_system w' (sys_tasks s)
                                   end) = w').
    { destruct o as [[id|]|e]; [exfalso; now apply (Hno id) | |]; split; reflexivity. }
    destruct Htasks as [-> ->].
    split; [exact Hnd|]. split; [intros id Hin; rewrite Hsame; now apply H2|].
    split; [intros id j Hin; rewrite Hsame; now apply (H3 _ j)|].
    split; [intros id st Hs; now rewrite Hsame|].
    intros id Hs. left. now rewrite Hsame.
Qed.


Lemma written_status job_id st w w' other prev :
  job_written job_id st w w' ->
  status_in other w = Some prev ->
  status_in other w' = Some (if (other =? job_id)%string then st else prev).
Proof.
  intros Hw Hs. rewrite (status_in_written other Hw), Hs.
  now destruct (other =? job_id)%string.
Qed.

Lemma written_none job_id st w w' other :
  job_written job_id st w w' -> status_in other w = None -> status_in other w' = None.
Proof.
  intros Hw Hs. rewrite (status_in_written other Hw), Hs.
  now destruct (other =? job_id)%string.
Qed.

(** A task begins: it sends no request; its job, [pending] until then,
    becomes [running] and the task goes on, or the task ends with the job
    left [pending] or made [failed]. *)
Lemma begin_move s job_id :
  invariant s ->
  In (job_id, Spawned) (sys_tasks s) ->
  let s' := begin_task job_id s in
  NoDup (map fst (sys_tasks s')) /\
  (forall id, In (id, Spawned) (sys_tasks s') ->
              status_in id (sys_world s') = Some pending) /\
  (forall id job, In (id, Started job) (sys_tasks s') ->
                  status_in id (sys_world s') = Some running) /\
  (forall id st, status_in id (sys_world s) = Some st ->
                 exists st', status_in id (sys_world s') = Some st' /\
                             status_move (Begin job_id) id st st') /\
  (forall id, status_in id (sys_world s) = None -> status_in id (sys_world s') = None) /\
  requests_sent (sys_world s') = requests_sent (sys_world s).
Proof.
  intros Hinv Hin. pose proof Hinv as [_ [Hnd [H2 H3]]]. cbv zeta. unfold begin_task.
  pose proof (H2 _ Hin) as Hpending.
  destruct (task_begin_run job_id (sys_world s)) as [o [w' [-> [Hsent Hcases]]]].
  assert (Hdrop2 : forall id, In (id, Spawned) (drop_task job_id (sys_tasks s)) ->
                              id <> job_id /\ status_in id (sys_world s) = Some pending).
  { intros id Hd. apply in_drop_task in Hd. destruct Hd as [Hd Hne]. split; [exact Hne | now apply H2]. }
  assert (Hdrop3 : forall id j, In (id, Started j) (drop_task job_id (sys_tasks s)) ->
                                id <> job_id /\ status_in id (sys_world s) = Some running).
  { intros id j Hd. apply in_drop_task in Hd. destruct Hd as [Hd Hne].
    split; [exact Hne | now apply (H3 _ j)]. }
  destruct Hcases as [[job [-> Hw]] | [Hno Hw]].
  - cbn [sys_world sys_tasks].
    split; [|split; [|split; [|split; [|split]]]].
    + rewrite map_app. apply nodup_snoc; [now apply nodup_drop_task|].
      apply not_in_drop_task.
    + intros id Hi. apply in_app_iff in Hi. destruct Hi as [Hi | [Hi | []]]; [|discriminate].
      destruct (Hdrop2 id Hi) as [Hne Hs]. rewrite (written_status id Hw Hs).
      apply String.eqb_neq in Hne. now rewrite Hne.
    + intros id j Hi. apply in_app_iff in Hi. destruct Hi as [Hi | [Hi | []]].
      * destruct (Hdrop3 id j Hi) as [Hne Hs]. rewrite (written_status id Hw Hs).
        apply String.eqb_neq in Hne. now rewrite Hne.
      * injection Hi as <- <-. rewrite (written_status job_id Hw Hpending).
        now rewrite String.eqb_refl.
    + intros id st Hs. rewrite (written_status id Hw Hs). eexists. split; [reflexivity|].
      destruct (String.eqb_spec id job_id) as [-> | _]; [|now left].
      right. left. split; [reflexivity|]. split; [congruence | now left].
    + intros id Hs. exact (written_none id Hw Hs).
    + exact Hsent.
  - assert (Hsys : (match o with
                    | Return (Some job) =>
                        mk_system w' (drop_task job_id (sys_tasks s) ++ [(job_id, Started job)])
                    | _ => mk_system w' (drop_task job_id (sys_tasks s))
                    end) = mk_system w' (drop_task job_id (sys_tasks s))).
    { destruct o as [[j|]|e]; [exfalso; now apply (Hno j) | reflexivity | reflexivity]. }
    rewrite Hsys. cbn [sys_world sys_tasks]. clear Hsys.
    assert (Hst : forall id prev, status_in id (sys_world s) = Some prev ->
                    status_in id w' = Some prev \/
                    (id = job_id /\ status_in id w' = Some failed)).
    { intros id prev Hs. destruct Hw as [Hsame | Hw].
      - left. now rewrite (@status_in_same _ _ id Hsame).
      - rewrite (written_status id Hw Hs).
        destruct (String.eqb_spec id job_id); [right; split; auto | now left]. }
    split; [now apply nodup_drop_task|].
    split; [|split; [|split; [|split]]].
    + intros id Hi. destruct (Hdrop2 id Hi) as [Hne Hs].
      destruct (Hst id _ Hs) as [H | [H _]]; [exact H | contradiction].
    + intros id j Hi. destruct (Hdrop3 id j Hi) as [Hne Hs].
      destruct (Hst id _ Hs) as [H | [H _]]; [exact H | contradiction].
    + intros id st Hs. destruct (Hst id _ Hs) as [H | [-> H]].
      * exists st. split; [exact H | now left].
      * exists failed. split; [exact H|]. right. left.
        split; [reflexivity|]. split; [congruence | now right].
    + intros id Hs. destruct Hw as [Hsame | Hw].
      * now rewrite (@status_in_same _ _ id Hsame).
      * exact (written_none id Hw Hs).
    + exact Hsent.
Qed.

(** A task runs: its job, [running] until then, becomes [completed] or
    [failed], or stays [running] when the repository refuses both writes;
    the task is over. *)
Lemma run_move s job_id job :
  invariant s ->
  In (job_id, Started job) (sys_tasks s) ->
  let s' := run_task job_id job s in
  NoDup (map fst (sys_tasks s')) /\
  (forall id, In (id, Spawned) (sys_tasks s') ->
              status_in id (sys_world s') = Some pending) /\
  (forall id j, In (id, Started j) (sys_tasks s') ->
                status_in id (sys_world s') = Some running) /\
  (forall id st, status_in id (sys_world s) = Some st ->
                 exists st', status_in id (sys_world s') = Some st' /\
                             status_move (Run job_id) id st st') /\
  (forall id, status_in id (sys_world s) = None -> status_in id (sys_world s') = None).
Proof.
  intros Hinv Hin. pose proof Hinv as [_ [Hnd [H2 H3]]]. cbv zeta. unfold run_task.
  pose proof (H3 _ _ Hin) as Hrunning. cbn [sys_world sys_tasks].
  pose proof (task_run_jobs job_id job (sys_world s)) as Hw. cbv zeta in Hw.
  set (w' := after (task_run job_id job) (sys_world s)) in *.
  assert (Hst : forall id prev, status_in id (sys_world s) = Some prev ->
                  status_in id w' = Some prev \/
                  (id = job_id /\ (status_in id w' = Some completed \/
                                   status_in id w' = Some failed))).
  { intros id prev Hs. destruct Hw as [Hsame | [Hw | Hw]].
    - left. now rewrite (@status_in_same _ _ id Hsame).
    - rewrite (written_status id Hw Hs).
      destruct (String.eqb_spec id job_id); [right; split; auto | now left].
    - rewrite (written_status id Hw Hs).
      destruct (String.eqb_spec id job_id); [right; split; auto | now left]. }
  split; [now apply nodup_drop_task|].
  split; [|split; [|split]].
  - intros id Hi. apply in_drop_task in Hi. destruct Hi as [Hi Hne].
    destruct (Hst id _ (H2 _ Hi)) as [H | [H _]]; [exact H | contradiction].
  - intros id j Hi. apply in_drop_task in Hi. destruct Hi as [Hi Hne].
    destruct (Hst id _ (H3 _ _ Hi)) as [H | [H _]]; [exact H | contradiction].
  - intros id st Hs. destruct (Hst id _ Hs) as [H | [-> [H | H]]].
    + exists st. split; [exact H | now left].
    + exists completed. split; [exact H|]. right. right.
      split; [reflexivity|]. split; [congruence | now left].
    + exists failed. split; [exact H|]. right. right.
      split; [reflexivity|]. split; [congruence | now right].
  - intros id Hs. destruct Hw as [Hsame | [Hw | Hw]].
    + now rewrite (@status_in_same _ _ id Hsame).
    + exact (written_none id Hw Hs).
    + exact (written_none id Hw Hs).
Qed.


Lemma step_invariant s l s' : invariant s -> step s l s' -> invariant s'.
Proof.
  intros Hinv Hstep. pose proof (step_stamps Hstep (proj1 Hinv)) as Hok.
  destruct Hstep as [s r d Hd Hfresh | s job_id Hin | s job_id job Hin | s d Hd].
  - destruct (@serve_move _ r d Hinv Hfresh) as [H1 [H2 [H3 _]]]. repeat split; assumption.
  - destruct (@begin_move _ _ Hinv Hin) as [H1 [H2 [H3 _]]]. repeat split; assumption.
  - destruct (@run_move _ _ _ Hinv Hin) as [H1 [H2 [H3 _]]]. repeat split; assumption.
  - destruct Hinv as [_ [H1 [H2 H3]]]. repeat split; assumption.
Qed.

Lemma reachable_invariant s : reachable s -> invariant s.
Proof.
  induction 1 as [s [Hok Htasks] | s l s' _ IH Hstep].
  - unfold invariant. rewrite Htasks. cbn.
    split; [exact Hok|]. split; [constructor|]. split; intros; contradiction.
  - exact (step_invariant IH Hstep).
Qed.

Lemma status_move_le l job_id st st' : status_move l job_id st st' -> status_le st st'.
Proof.
  intros [-> | [[_ [-> [-> | ->]]] | [_ [-> [-> | ->]]]]]; cbn; auto.
  destruct st; cbn; auto.
Qed.

(** C2, as the code has it.  Through every move of the running service the
    status of a job only moves forward: a job appears [pending]; it changes
    only when its own task moves, from [pending] to [running] (or straight to
    [failed], when the task's lookup or its write of [running] raises) as the
    task begins, and from [running] to [completed] or [failed] as the task
    runs; a job that is [completed] or [failed] stays so.  A job has one task
    at most.  A task sends no request while it begins, and runs (the only
    move in which it calls outside) with its job already [running]. *)
Theorem job_status_moves_forward s l s' :
  reachable s ->
  step s l s' ->
  (forall job_id st,
      status_in job_id (sys_world s) = Some st ->
      exists st',
        status_in job_id (sys_world s') = Some st' /\
        status_move l job_id st st' /\ status_le st st') /\
  (forall job_id,
      status_in job_id (sys_world s) = None ->
      status_in job_id (sys_world s') = None \/
      status_in job_id (sys_world s') = Some pending) /\
  (forall job_id,
      l = Begin job_id ->
      status_in job_id (sys_world s) = Some pending /\
      requests_sent (sys_world s') = requests_sent (sys_world s)) /\
  (forall job_id, l = Run job_id -> status_in job_id (sys_world s) = Some running) /\
  NoDup (map fst (sys_tasks s')).
Proof.
  intros Hreach Hstep. pose proof (reachable_invariant Hreach) as Hinv.
  pose proof (step_invariant Hinv Hstep) as [_ [Hnd' _]].
  destruct Hstep as [s r d Hd Hfresh | s job_id Hin | s job_id job Hin | s d Hd].
  - destruct (@serve_move _ r d Hinv Hfresh) as [_ [_ [_ [Hm Hn]]]].
    split; [|split; [exact Hn | split; [|split]]]; try (intros; discriminate); [|exact Hnd'].
    intros id st Hs. exists st. split; [now apply Hm|]. split; [now left | destruct st; cbn; auto].
  - destruct (@begin_move _ _ Hinv Hin) as [_ [_ [_ [Hm [Hn Hsent]]]]].
    split; [|split; [|split; [|split]]]; [| | |intros; discriminate | exact Hnd'].
    + intros id st Hs. destruct (Hm id st Hs) as [st' [H1 H2]].
      exists st'. split; [exact H1|]. split; [exact H2 | exact (status_move_le H2)].
    + intros id Hs. left. now apply Hn.
    + intros id E. injection E as <-. split; [|exact Hsent].
      destruct Hinv as [_ [_ [H2 _]]]. now apply H2.
  - destruct (@run_move _ _ _ Hinv Hin) as [_ [_ [_ [Hm Hn]]]].
    split; [|split; [|split; [|split]]]; [| |intros; discriminate | | exact Hnd'].
    + intros id st Hs. destruct (Hm id st Hs) as [st' [H1 H2]].
      exists st'. split; [exact H1|]. split; [exact H2 | exact (status_move_le H2)].
    + intros id Hs. left. now apply Hn.
    + intros id E. injection E as <-.
      destruct Hinv as [_ [_ [_ H3]]]. now apply (H3 _ job).
  - cbn [sys_world sys_tasks] in *.
    split; [|split; [|split; [|split]]]; try (intros; discriminate); [| |exact Hnd'].
    + intros id st Hs. exists st. split; [exact Hs|]. split; [now left | destruct st; cbn; auto].
    + intros id Hs. now left.
Qed.


Lemma parse_ignores_world body w1 w2 u :
  result (parse_DVDStoreCreate body) w1 = Return u ->
  parse_DVDStoreCreate body w2 = (Return u, w2).
Proof.
  unfold result, parse_DVDStoreCreate.
  destruct (Body.name body) as [|[name|]]; try discriminate.
  destruct (Body.source body) as [|[src|]]; try discriminate;
    unfold ret; cbn [fst]; intros H; injection H as <-; reflexivity.
Qed.



End Service_moves.


(* ================================================================== *)
(** * Listing stores *)

Section Listing.

Lemma find_to_list_run {A} (c : collection A) q s n w :
  find_to_list c q s n n w
  = (if hd false (db_faults w) then Raise PyMongoError
     else Return (firstn n (skipn s (filter q (docs c (called (coll_name c) "find" w))))),
     called (coll_name c) "find" w).
Proof.
  unfold find_to_list, bind. rewrite db_call_run.
  destruct (hd false (db_faults w)); [reflexivity|].
  unfold gets. now rewrite firstn_firstn, Nat.min_id.
Qed.

Lemma listed_meets search state verified x :
  (forall term s, plain term = true -> regex_search term s = contains_ci term s) ->
  (forall term, search = Some term -> plain term = true) ->
  meets (filter_dict search state verified) x = listed search state verified x.
Proof.
  intros Hlaw Hplain. unfold meets, filter_dict, listed, truthy.
  rewrite !forallb_app.
  assert (H1 : forallb (fun c => c x)
                 (if match search with Some s => negb (s =? "")%string | None => false end
                  then [search_condition (get_or search "")] else [])
               = match search with
                 | Some term => orb (term =? "")%string (names_term term x)
                 | None => true
                 end).
  { destruct search as [term|]; [|reflexivity].
    destruct (term =? "")%string; [reflexivity|].
    cbn. rewrite andb_true_r. unfold search_condition, names_term.
    pose proof (Hlaw term) as Hterm. specialize (Hplain term eq_refl).
    destruct (DVDStore.city x), (DVDStore.address x);
      rewrite ?Hterm by exact Hplain; reflexivity. }
  assert (H2 : forallb (fun c => c x)
                 (if match state with Some s => negb (s =? "")%string | None => false end
                  then [fun s => option_eqb (DVDStore.state s) state] else [])
               = match state with
                 | Some st => orb (st =? "")%string (option_eqb (DVDStore.state x) (Some st))
                 | None => true
                 end).
  { destruct state as [st|]; [|reflexivity].
    destruct (st =? "")%string; [reflexivity|]. cbn. now rewrite andb_true_r. }
  assert (H3 : forallb (fun c => c x)
                 (match verified with
                  | Some v => [fun s => bool_eqb (DVDStore.verified s) v]
                  | None => []
                  end)
               = match verified with
                 | Some v => Bool.eqb (DVDStore.verified x) v
                 | None => true
                 end).
  { destruct verified as [v|]; [|reflexivity]. cbn. now rewrite andb_true_r. }
  rewrite H1, H2, H3. reflexivity.
Qed.

(** C8, as the code has it.  Let the expression engine find a term that has
    no operator character exactly where the term occurs without regard to
    case.  A listing query whose [skip] is negative or whose [limit] is
    outside 1..500 is refused before the handler runs.  Otherwise, with the
    repository answering and the search term (if there is one) free of
    operator characters, the answer is the page -- [limit] records after the
    first [skip] -- of the stored records, in storage order, that have the
    term in name, city or address without regard to case, have exactly the
    state asked for, and have exactly the flag asked for; an empty term or
    state asks for nothing. *)
Theorem store_listing_filter skip limit search state verified w :
  (forall term s, plain term = true -> regex_search term s = contains_ci term s) ->
  (skip < 0 \/ limit < 1 \/ 500 < limit ->
   exists field,
     get_stores skip limit search state verified w
     = (Raise (RequestValidationError field), w)) /\
  (0 <= skip -> 1 <= limit <= 500 ->
   hd false (db_faults w) = false ->
   (forall term, search = Some term -> plain term = true) ->
   result (get_stores skip limit search state verified) w
   = Return (firstn (Z.to_nat limit)
               (skipn (Z.to_nat skip)
                  (filter (listed search state verified) (dvd_stores w))))).
Proof.
  intros Hlaw. split.
  - intros Hbad. unfold get_stores.
    destruct (skip <? 0) eqn:Hs; [now exists "skip"|].
    apply Z.ltb_ge in Hs.
    destruct (orb (limit <? 1) (500 <? limit)) eqn:Hl; [now exists "limit"|].
    apply orb_false_iff in Hl. destruct Hl as [Hl1 Hl2].
    apply Z.ltb_ge in Hl1, Hl2. lia.
  - intros Hskip Hlimit Hdb Hplain. unfold get_stores, result.
    replace (skip <? 0) with false by (symmetry; apply Z.ltb_ge; lia).
    replace (limit <? 1) with false by (symmetry; apply Z.ltb_ge; lia).
    replace (500 <? limit) with false by (symmetry; apply Z.ltb_ge; lia).
    cbn [orb]. rewrite find_to_list_run, Hdb. cbn [fst].
    change (docs db_dvd_stores (called (coll_name db_dvd_stores) "find" w))
      with (dvd_stores w).
    do 3 f_equal. apply filter_ext. intros x. now apply listed_meets.
Qed.

End Listing.



(* ================================================================== *)
(** * The other routes on stores *)

Section StoreRoutes.

Lemma remove_first_spec {A} (q : A -> bool) (l : list A) x :
  find q l = Some x ->
  exists l1 l2,
    l = l1 ++ x :: l2 /\
    (forall y, In y l1 -> q y = false) /\
    remove_first q l = (1%nat, l1 ++ l2).
Proof.
  induction l as [|a l IH]; cbn [find remove_first]; [discriminate|].
  destruct (q a) eqn:Hq.
  - intros H. injection H as <-. exists [], l. repeat split. intros y [].
  - intros H. destruct (IH H) as [l1 [l2 [-> [Hl1 ->]]]].
    exists (a :: l1), l2. repeat split.
    intros y [<- | Hy]; [exact Hq | now apply Hl1].
Qed.

Lemma remove_first_none {A} (q : A -> bool) (l : list A) :
  find q l = None -> remove_first q l = (0%nat, l).
Proof.
  induction l as [|a l IH]; cbn [find remove_first]; [reflexivity|].
  destruct (q a); [discriminate|]. intros H. now rewrite (IH H).
Qed.

Lemma not_by_id store_id y : store_by_id store_id y = false -> DVDStore.id y <> store_id.
Proof.
  unfold store_by_id. intros H E. rewrite E, String.eqb_refl in H. discriminate.
Qed.

(** X1.  [delete_store], with the repository answering: when a record has
    the id, the first such record is removed, the others stay in their order,
    and the route confirms; when none has it the route answers 404 and the
    collection is as it was.  The jobs are not touched either way. *)
Theorem delete_store_outcome store_id w :
  hd false (db_faults w) = false ->
  let w' := after (delete_store store_id) w in
  (forall old,
      find (store_by_id store_id) (dvd_stores w) = Some old ->
      exists l1 l2,
        dvd_stores w = l1 ++ old :: l2 /\
        (forall y, In y l1 -> DVDStore.id y <> store_id) /\
        dvd_stores w' = l1 ++ l2 /\
        result (delete_store store_id) w = Return "Store deleted successfully") /\
  (find (store_by_id store_id) (dvd_stores w) = None ->
   dvd_stores w' = dvd_stores w /\
   result (delete_store store_id) w = Raise (HTTPException 404 "Store not found")) /\
  search_jobs w' = search_jobs w.
Proof.
  intros Hdb w'. subst w'. unfold after, result, delete_store, bind.
  rewrite delete_one_run, Hdb. cbv zeta.
  change (docs db_dvd_stores (called (coll_name db_dvd_stores) "delete_one" w))
    with (dvd_stores w).
  split; [|split].
  - intros old Hfind.
    destruct (remove_first_spec (store_by_id store_id) (dvd_stores w) Hfind)
      as [l1 [l2 [Hl [Hl1 Hr]]]].
    exists l1, l2. rewrite Hr. cbn. repeat split; try assumption.
    intros y Hy. apply not_by_id. now apply Hl1.
  - intros Hfind. rewrite (remove_first_none _ _ Hfind). cbn. split; reflexivity.
  - destruct (remove_first (store_by_id store_id) (dvd_stores w)) as [[|n] l]; reflexivity.
Qed.

Lemma verify_store_run store_id w :
  hd false (db_faults w) = false ->
  verify_store store_id w
  = (match fst (update_first (store_by_id store_id) (set_verified (clock w)) (dvd_stores w))
     with
     | Some doc => Return doc
     | None => Raise (HTTPException 404 "Store not found")
     end,
     set_dvd_stores
       (snd (update_first (store_by_id store_id) (set_verified (clock w)) (dvd_stores w)))
       (called "dvd_stores" "find_one_and_update" w)).
Proof.
  intros Hdb. unfold verify_store.
  unfold bind at 1, utcnow at 1, gets at 1. unfold bind at 1.
  rewrite find_one_and_update_run, Hdb. cbv zeta.
  change (docs db_dvd_stores (called (coll_name db_dvd_stores) "find_one_and_update" w))
    with (dvd_stores w).
  destruct (update_first (store_by_id store_id) (set_verified (clock w)) (dvd_stores w))
    as [[doc|] l]; reflexivity.
Qed.

(** X2.  [verify_store], with the repository answering: when a record has
    the id, the first such record gets [verified = True] and, as
    [updated_at], the time of the call cut to the millisecond; each of its
    other fields is as it was, and no other record changes; the route answers
    the record as it is stored.  When no record has the id the route answers
    404 and the collection is as it was. *)
Theorem verify_store_outcome store_id w :
  hd false (db_faults w) = false ->
  let w' := after (verify_store store_id) w in
  (forall old,
      find (store_by_id store_id) (dvd_stores w) = Some old ->
      exists l1 l2 new,
        dvd_stores w = l1 ++ old :: l2 /\
        (forall y, In y l1 -> DVDStore.id y <> store_id) /\
        dvd_stores w' = l1 ++ new :: l2 /\
        result (verify_store store_id) w = Return new /\
        DVDStore.verified new = true /\
        DVDStore.updated_at new = bson_datetime (clock w) /\
        (DVDStore.id new = DVDStore.id old /\
         DVDStore.name new = DVDStore.name old /\
         DVDStore.address new = DVDStore.address old /\
         DVDStore.city new = DVDStore.city old /\
         DVDStore.state new = DVDStore.state old /\
         DVDStore.phone new = DVDStore.phone old /\
         DVDStore.website new = DVDStore.website old /\
         DVDStore.email new = DVDStore.email old /\
         DVDStore.email_confidence new = DVDStore.email_confidence old /\
         DVDStore.source new = DVDStore.source old /\
         DVDStore.source_url new = DVDStore.source_url old /\
         DVDStore.notes new = DVDStore.notes old /\
         DVDStore.created_at new = DVDStore.created_at old)) /\
  (find (store_by_id store_id) (dvd_stores w) = None ->
   dvd_stores w' = dvd_stores w /\
   result (verify_store store_id) w = Raise (HTTPException 404 "Store not found")).
Proof.
  intros Hdb w'. subst w'. unfold after, result.
  rewrite (verify_store_run store_id w Hdb).
  split.
  - intros old Hfind.
    destruct (update_first_spec (store_by_id store_id) (set_verified (clock w))
                (dvd_stores w) Hfind) as [l1 [l2 [Hl [Hl1 Hu]]]].
    exists l1, l2, (set_verified (clock w) old). rewrite Hu. cbn.
    split; [exact Hl|]. split; [|repeat split].
    intros y Hy. apply not_by_id. now apply Hl1.
  - intros Hfind. rewrite update_first_none by exact Hfind. cbn. split; reflexivity.
Qed.

Lemma create_store_run u w :
  hd false (db_faults w) = false ->
  exists new,
    create_store u w
    = (Return new,
       set_dvd_stores (dvd_stores w ++ [bson_store new])
         (called "dvd_stores" "insert_one" (set_uuid_next (S (uuid_next w)) w))) /\
    new = DVDStore.mk (uuid_source w (uuid_next w)) (DVDStoreCreate.name u)
            (or_default (DVDStoreCreate.address u) None)
            (or_default (DVDStoreCreate.city u) None)
            (or_default (DVDStoreCreate.state u) None)
            (or_default (DVDStoreCreate.phone u) None)
            (or_default (DVDStoreCreate.website u) None)
            (or_default (DVDStoreCreate.email u) None)
            None
            (or_default (DVDStoreCreate.source u) "manual")
            (or_default (DVDStoreCreate.source_url u) None)
            (or_default (DVDStoreCreate.notes u) None)
            false (clock w) (clock w).
Proof.
  intros Hdb. eexists. split; [|reflexivity].
  unfold create_store, uuid4. run.
  rewrite insert_one_run. cbv zeta. run. rewrite Hdb. reflexivity.
Qed.

(** X3.  [create_store] behind its validation, with the repository
    answering: a body that validates adds exactly one record, at the end of
    the collection and whatever is stored already (no check for an equal name
    and city is made).  The record answered has a fresh id, the payload's
    fields with [None] (for [source]: ["manual"]) where the payload has none,
    no confidence, [verified = False], and the time of the call as both
    timestamps; the record stored is that record with both timestamps cut to
    the millisecond.  A body without a name is refused and nothing is
    stored. *)
Theorem create_store_appends body w :
  (forall u,
      result (parse_DVDStoreCreate body) w = Return u ->
      hd false (db_faults w) = false ->
      exists new stored,
        result (POST_stores body) w = Return new /\
        dvd_stores (after (POST_stores body) w) = dvd_stores w ++ [stored] /\
        DVDStore.id new = uuid_source w (uuid_next w) /\
        DVDStore.name new = DVDStoreCreate.name u /\
        (set_or_kept (DVDStoreCreate.address u) None (DVDStore.address new) /\
         set_or_kept (DVDStoreCreate.city u) None (DVDStore.city new) /\
         set_or_kept (DVDStoreCreate.state u) None (DVDStore.state new) /\
         set_or_kept (DVDStoreCreate.phone u) None (DVDStore.phone new) /\
         set_or_kept (DVDStoreCreate.website u) None (DVDStore.website new) /\
         set_or_kept (DVDStoreCreate.email u) None (DVDStore.email new) /\
         set_or_kept (DVDStoreCreate.source u) "manual" (DVDStore.source new) /\
         set_or_kept (DVDStoreCreate.source_url u) None (DVDStore.source_url new) /\
         set_or_kept (DVDStoreCreate.notes u) None (DVDStore.notes new)) /\
        DVDStore.email_confidence new = None /\
        DVDStore.verified new = false /\
        DVDStore.created_at new = clock w /\
        DVDStore.updated_at new = clock w /\
        (DVDStore.id stored = DVDStore.id new /\
         DVDStore.name stored = DVDStore.name new /\
         DVDStore.address stored = DVDStore.address new /\
         DVDStore.city stored = DVDStore.city new /\
         DVDStore.state stored = DVDStore.state new /\
         DVDStore.phone stored = DVDStore.phone new /\
         DVDStore.website stored = DVDStore.website new /\
         DVDStore.email stored = DVDStore.email new /\
         DVDStore.email_confidence stored = DVDStore.email_confidence new /\
         DVDStore.source stored = DVDStore.source new /\
         DVDStore.source_url stored = DVDStore.source_url new /\
         DVDStore.notes stored = DVDStore.notes new /\
         DVDStore.verified stored = DVDStore.verified new) /\
        DVDStore.created_at stored = bson_datetime (clock w) /\
        DVDStore.updated_at stored = bson_datetime (clock w)) /\
  (Body.name body = Unset \/ Body.name body = Given None ->
   POST_stores body w = (Raise (RequestValidationError "name"), w)).
Proof.
  split.
  - intros u Hparse Hdb.
    pose proof (parse_ignores_world body w w Hparse) as Hp.
    destruct (create_store_run u w Hdb) as [new [Hrun Hnew]].
    assert (Hpost : POST_stores body w
                    = (Return new,
                       set_dvd_stores (dvd_stores w ++ [bson_store new])
                         (called "dvd_stores" "insert_one"
                            (set_uuid_next (S (uuid_next w)) w)))).
    { unfold POST_stores, bind. now rewrite Hp, Hrun. }
    exists new, (bson_store new). unfold result, after. rewrite Hpost. cbn [fst snd].
    split; [reflexivity|]. split; [reflexivity|].
    rewrite Hnew.
    cbn [bson_store DVDStore.id DVDStore.name DVDStore.address DVDStore.city DVDStore.state
         DVDStore.phone DVDStore.website DVDStore.email DVDStore.source
         DVDStore.source_url DVDStore.notes DVDStore.email_confidence DVDStore.verified
         DVDStore.created_at DVDStore.updated_at].
    unfold set_or_kept, or_default.
    destruct u as [n a c st ph ws em src su nt]; cbn.
    destruct a, c, st, ph, ws, em, src, su, nt; repeat split.
  - intros Hname. unfold POST_stores, bind.
    pose proof (parse_requires_name body w) as Hp.
    destruct Hname as [Hn | Hn]; rewrite Hn in Hp; now rewrite Hp.
Qed.

End StoreRoutes.



(* ================================================================== *)
(** * The routes on jobs and the read-only routes *)

Section ReadRoutes.

Lemma in_firstn {A} (l : list A) n x : In x (firstn n l) -> In x l.
Proof.
  intros H. rewrite <- (firstn_skipn n l). apply in_or_app. now left.
Qed.

Lemma in_skipn {A} (l : list A) n x : In x (skipn n l) -> In x l.
Proof.
  intros H. rewrite <- (firstn_skipn n l). apply in_or_app. now right.
Qed.

Lemma insert_newest_first_perm j l : Permutation (insert_newest_first j l) (j :: l).
Proof.
  induction l as [|x l IH]; cbn [insert_newest_first]; [reflexivity|].
  destruct (SearchJob.created_at x <? SearchJob.created_at j); [reflexivity|].
  rewrite IH. apply perm_swap.
Qed.

Lemma newest_first_perm l : Permutation (newest_first l) l.
Proof.
  induction l as [|x l IH]; cbn [newest_first fold_right]; [reflexivity|].
  fold (newest_first l). rewrite insert_newest_first_perm. now constructor.
Qed.

Lemma insert_newest_first_sorted j l :
  newest_to_oldest l -> newest_to_oldest (insert_newest_first j l).
Proof.
  unfold newest_to_oldest.
  induction l as [|x l IH]; cbn [insert_newest_first]; intros Hs.
  - constructor; constructor.
  - apply StronglySorted_inv in Hs. destruct Hs as [Hl Hx].
    destruct (SearchJob.created_at x <? SearchJob.created_at j) eqn:E.
    + apply Z.ltb_lt in E. constructor; [constructor; assumption|].
      constructor; [lia|].
      rewrite Forall_forall in Hx |- *. intros y Hy. specialize (Hx y Hy). lia.
    + apply Z.ltb_ge in E. constructor; [now apply IH|].
      rewrite Forall_forall in Hx |- *. intros y Hy.
      apply (Permutation_in _ (insert_newest_first_perm j l)) in Hy.
      destruct Hy as [<- | Hy]; [exact E | now apply Hx].
Qed.

Lemma newest_first_sorted l : newest_to_oldest (newest_first l).
Proof.
  induction l as [|x l IH]; cbn [newest_first fold_right].
  - constructor.
  - now apply insert_newest_first_sorted.
Qed.

Lemma sorted_firstn (l : list SearchJob.t) n :
  newest_to_oldest l -> newest_to_oldest (firstn n l).
Proof.
  unfold newest_to_oldest. revert n.
  induction l as [|x l IH]; intros n Hs.
  - rewrite firstn_nil. constructor.
  - destruct n as [|n]; [constructor|].
    apply StronglySorted_inv in Hs. destruct Hs as [Hl Hx].
    cbn [firstn]. constructor; [now apply IH|].
    rewrite Forall_forall in Hx |- *. intros y Hy. apply Hx. exact (in_firstn _ _ _ Hy).
Qed.

Lemma sorted_firstn_skipn (l : list SearchJob.t) n a b :
  newest_to_oldest l -> In a (firstn n l) -> In b (skipn n l) ->
  SearchJob.created_at b <= SearchJob.created_at a.
Proof.
  unfold newest_to_oldest. revert n.
  induction l as [|x l IH]; intros n Hs Ha Hb.
  - rewrite firstn_nil in Ha. contradiction.
  - destruct n as [|n]; [contradiction|].
    apply StronglySorted_inv in Hs. destruct Hs as [Hl Hx].
    cbn [firstn skipn] in Ha, Hb. destruct Ha as [<- | Ha].
    + rewrite Forall_forall in Hx. apply Hx. exact (in_skipn _ _ _ Hb).
    + exact (IH n Hl Ha Hb).
Qed.

Lemma get_search_jobs_run limit w :
  1 <= limit <= 100 ->
  get_search_jobs limit w
  = (if hd false (db_faults w) then Raise PyMongoError
     else Return (firstn (Z.to_nat limit) (newest_first (search_jobs w))),
     called "search_jobs" "find" w).
Proof.
  intros Hl. unfold get_search_jobs.
  replace (limit <? 1) with false by (symmetry; apply Z.ltb_ge; lia).
  replace (100 <? limit) with false by (symmetry; apply Z.ltb_ge; lia).
  cbn [orb]. unfold bind. rewrite db_call_run.
  destruct (hd false (db_faults w)); reflexivity.
Qed.

(** X4.  [get_search_jobs]: a [limit] outside 1..100 is refused before the
    handler runs.  Otherwise, with the repository answering, the route lists
    stored jobs newest first: [limit] of them, or all if there are fewer;
    every job it leaves out is no newer than any job it lists; nothing
    stored changes. *)
Theorem get_search_jobs_newest_first limit w :
  (limit < 1 \/ 100 < limit ->
   get_search_jobs limit w = (Raise (RequestValidationError "limit"), w)) /\
  (1 <= limit <= 100 ->
   hd false (db_faults w) = false ->
   exists jobs,
     result (get_search_jobs limit) w = Return jobs /\
     newest_to_oldest jobs /\
     (forall j, In j jobs -> In j (search_jobs w)) /\
     length jobs = Nat.min (Z.to_nat limit) (length (search_jobs w)) /\
     (forall a b,
         In a jobs -> In b (search_jobs w) -> ~ In b jobs ->
         SearchJob.created_at b <= SearchJob.created_at a) /\
     search_jobs (after (get_search_jobs limit) w) = search_jobs w /\
     dvd_stores (after (get_search_jobs limit) w) = dvd_stores w).
Proof.
  split.
  - intros Hbad. unfold get_search_jobs.
    destruct (orb (limit <? 1) (100 <? limit)) eqn:E; [reflexivity|].
    apply orb_false_iff in E. destruct E as [E1 E2].
    apply Z.ltb_ge in E1, E2. lia.
  - intros Hl Hdb. unfold result, after.
    rewrite (get_search_jobs_run w Hl), Hdb. cbn [fst snd].
    set (sorted := newest_first (search_jobs w)).
    pose proof (newest_first_sorted (search_jobs w)) as Hs. fold sorted in Hs.
    pose proof (newest_first_perm (search_jobs w)) as Hp. fold sorted in Hp.
    exists (firstn (Z.to_nat limit) sorted).
    split; [reflexivity|]. split; [|split; [|split; [|split; [|split]]]].
    + now apply sorted_firstn.
    + intros j Hj. apply (Permutation_in _ Hp). exact (in_firstn _ _ _ Hj).
    + rewrite length_firstn. now rewrite (Permutation_length Hp).
    + intros a b Ha Hb Hnot.
      apply (Permutation_in _ (Permutation_sym Hp)) in Hb.
      rewrite <- (firstn_skipn (Z.to_nat limit) sorted) in Hb.
      apply in_app_or in Hb. destruct Hb as [Hb | Hb]; [contradiction|].
      exact (@sorted_firstn_skipn _ _ _ _ Hs Ha Hb).
    + reflexivity.
    + reflexivity.
Qed.

(** X5.  [get_search_job], with the repository answering: the route answers
    with a stored job that has the id asked for, and answers 404 exactly when
    no stored job has it. *)
Theorem get_search_job_outcome job_id w :
  hd false (db_faults w) = false ->
  (exists j,
      result (get_search_job job_id) w = Return j /\
      In j (search_jobs w) /\ SearchJob.id j = job_id) \/
  (result (get_search_job job_id) w = Raise (HTTPException 404 "Job not found") /\
   forall j, In j (search_jobs w) -> SearchJob.id j <> job_id).
Proof.
  intros Hdb. unfold result, get_search_job, bind.
  rewrite find_one_run, Hdb.
  change (docs db_search_jobs (called (coll_name db_search_jobs) "find_one" w))
    with (search_jobs w).
  destruct (find (job_by_id job_id) (search_jobs w)) as [j|] eqn:Hfind.
  - left. exists j. apply find_some in Hfind. destruct Hfind as [Hin Hq].
    unfold job_by_id in Hq. apply String.eqb_eq in Hq. now repeat split.
  - right. split; [reflexivity|]. intros j Hin E.
    pose proof (find_none _ _ Hfind j Hin) as Hq.
    unfold job_by_id in Hq. rewrite E, String.eqb_refl in Hq. discriminate.
Qed.

(** X6.  Serving a route that reads ([GET /], [/hunter/account], [/stores],
    [/jobs], [/jobs/{id}], [/stats]) leaves both collections exactly as they
    were, whatever the repository, the provider and the request do. *)
Theorem read_routes_change_nothing r w :
  reads_only r = true ->
  dvd_stores (after (serve r) w) = dvd_stores w /\
  search_jobs (after (serve r) w) = search_jobs w.
Proof.
  intros Hr.
  assert (H : keeps same_data (serve r)).
  { pose proof (@keeps_root same_data _). pose proof (@keeps_get_hunter_account same_data _).
    pose proof (@keeps_get_stores same_data _). pose proof (@keeps_get_search_jobs same_data _).
    pose proof (@keeps_get_search_job same_data _). pose proof (@keeps_get_stats same_data _).
    destruct r; try discriminate; unfold serve; keeps_auto. }
  exact (H w).
Qed.

(** X7.  [get_hunter_account] answers, or fails with status 500: whatever
    the provider call raises (the provider's 401 and 429 included) reaches the
    client as a 500, after one error line is logged. *)
Theorem hunter_account_errors_are_500 w :
  (exists v, result get_hunter_account w = Return v /\
             exists info, result get_account_info w = Return info /\
                          fst v = credits_left info) \/
  (exists e detail line,
      result get_account_info w = Raise e /\
      result get_hunter_account w = Raise (HTTPException 500 detail) /\
      trace (after get_hunter_account w)
      = trace (after get_account_info w) ++ [Logged "error" line]).
Proof.
  assert (Hrun : get_hunter_account w
                 = match get_account_info w with
                   | (Return info, w1) =>
                       (Return (credits_left info,
                                match HunterJson.data info with
                                | Some d => get_or (HunterJson.plan_name d) "unknown"
                                | None => "unknown"
                                end), w1)
                   | (Raise e, w1) =>
                       (Raise (HTTPException 500 (exn_str e)),
                        emit (Logged "error" ("Failed to get account info: " ++ exn_str e))
                             w1)
                   end).
  { unfold get_hunter_account, try_except, bind.
    destruct (get_account_info w) as [[info|e] w1]; reflexivity. }
  unfold result, after. rewrite Hrun.
  destruct (get_account_info w) as [[info|e] w1].
  - left. eexists. split; [reflexivity|]. exists info. split; reflexivity.
  - right. exists e. do 2 eexists. split; [reflexivity|]. split; reflexivity.
Qed.

End ReadRoutes.



(* ================================================================== *)
(** * Statistics *)

Section Stats.

Lemma bind_return {A B} (m : M A) (k : A -> M B) w a w1 :
  m w = (Return a, w1) -> bind m k w = k a w1.
Proof. unfold bind. now intros ->. Qed.

Lemma bind_raise {A B} (m : M A) (k : A -> M B) w e w1 :
  m w = (Raise e, w1) -> bind m k w = (Raise e, w1).
Proof. unfold bind. now intros ->. Qed.

Lemma called_healthy coll op w : db_healthy w -> db_healthy (called coll op w).
Proof. intros H b Hb. exact (healthy_tl H eq_refl b Hb). Qed.

Lemma count_stores_run q w :
  hd false (db_faults w) = false ->
  count_documents db_dvd_stores q w
  = (Return (length (filter q (dvd_stores w))), called "dvd_stores" "count_documents" w).
Proof.
  intros Hdb. unfold count_documents, bind. rewrite db_call_run, Hdb. reflexivity.
Qed.

(** X8.  [get_stats], with the repository answering.  While no job is
    stored the route answers whatever the provider does: the three counts are
    those of the stored records (all, verified, with an email), the number of
    active jobs is the size of the task registry, and the credits are the
    provider's figure when the provider answers 200 with a body and
    ["unknown"] in every other case.  Once a job is stored the route fails:
    it hands the raw job documents to the JSON encoder, which refuses them. *)
Theorem get_stats_outcome w :
  db_healthy w ->
  (search_jobs w = [] ->
   result get_stats w
   = Return
       (mk_stats
          (length (dvd_stores w))
          (length (filter DVDStore.verified (dvd_stores w)))
          (length (filter (fun s => is_some (DVDStore.email s)) (dvd_stores w)))
          (length (active_jobs w))
          (match hunter_wire w with
           | HResponse code _ (Gives body) :: _ =>
               if code =? 200 then Some (credits_left body) else None
           | _ => None
           end)
          [])) /\
  (search_jobs w <> [] ->
   exists msg, result get_stats w = Raise (Error "ValueError" msg)).
Proof.
  intros H0.
  pose proof (called_healthy "dvd_stores" "count_documents" H0) as H1.
  pose proof (called_healthy "dvd_stores" "count_documents" H1) as H2.
  pose proof (called_healthy "dvd_stores" "count_documents" H2) as H3.
  set (w1 := called "dvd_stores" "count_documents" w) in *.
  set (w2 := called "dvd_stores" "count_documents" w1) in *.
  set (w3 := called "dvd_stores" "count_documents" w2) in *.
  set (w4 := called "search_jobs" "find" w3).
  assert (Hcredits :
            exists w5,
              try_except (info <- get_account_info ;; ret (Some (credits_left info)))
                         (fun _ => ret None) w4
              = (Return (match hunter_wire w with
                         | HResponse code _ (Gives body) :: _ =>
                             if code =? 200 then Some (credits_left body) else None
                         | _ => None
                         end), w5)).
  { unfold try_except, bind, get_account_info. rewrite make_request_run. cbv zeta.
    change (hunter_wire w4) with (hunter_wire w).
    destruct (hunter_wire w) as [|[|msg|code text json] rest]; try (eexists; reflexivity).
    destruct (code =? 403) eqn:E403.
    { apply Z.eqb_eq in E403. subst code.
      destruct json; eexists; reflexivity. }
    destruct (code =? 401) eqn:E401.
    { apply Z.eqb_eq in E401. subst code.
      destruct json; eexists; reflexivity. }
    destruct (code =? 200) eqn:E200; cbn [negb];
      destruct json; eexists; reflexivity. }
  destruct Hcredits as [w5 Hcredits].
  assert (Hrun : get_stats w
                 = (encode_raw_jobs (firstn 5 (newest_first (search_jobs w))) ;;
                    ret (mk_stats
                           (length (dvd_stores w))
                           (length (filter DVDStore.verified (dvd_stores w)))
                           (length (filter (fun s => is_some (DVDStore.email s))
                                           (dvd_stores w)))
                           (length (active_jobs w))
                           (match hunter_wire w with
                            | HResponse code _ (Gives body) :: _ =>
                                if code =? 200 then Some (credits_left body) else None
                            | _ => None
                            end)
                           (firstn 5 (newest_first (search_jobs w))))) w5).
  { unfold get_stats.
    rewrite (@bind_return _ _ _ _ _ _ _ (count_stores_run _ w (healthy_hd H0))). fold w1.
    rewrite (@bind_return _ _ _ _ _ _ _ (count_stores_run _ w1 (healthy_hd H1))). fold w2.
    rewrite (@bind_return _ _ _ _ _ _ _ (count_stores_run _ w2 (healthy_hd H2))). fold w3.
    rewrite (@bind_return _ _ (gets (fun w => length (active_jobs w))) _ w3 _ _ eq_refl).
    rewrite (@bind_return _ _ (db_call "search_jobs" "find") _ w3 tt
               (called "search_jobs" "find" w3))
      by (rewrite db_call_run, (healthy_hd H3); reflexivity).
    fold w4.
    rewrite (@bind_return _ _ (gets (fun w => firstn 5 (newest_first (search_jobs w)))) _
               w4 _ _ eq_refl).
    rewrite (@bind_return _ _ _ _ _ _ _ Hcredits).
    rewrite (filter_all (fun _ => true) (dvd_stores w)) by reflexivity.
    reflexivity. }
  unfold result. rewrite Hrun. split.
  - intros Hnone. rewrite Hnone. reflexivity.
  - intros Hsome.
    pose proof (Permutation_length (newest_first_perm (search_jobs w))) as Hlen.
    destruct (search_jobs w) as [|j l]; [contradiction|].
    destruct (newest_first (j :: l)) as [|j' l']; [discriminate|].
    eexists. reflexivity.
Qed.

End Stats.



(* ================================================================== *)
(** * Starting a search *)

Section StartSearch.

Lemma start_run job_type parameters extra w :
  (job <- new_SearchJob job_type parameters ;;
   insert_one db_search_jobs job ;;
   create_task (SearchJob.id job) ;;
   ret (mk_started (SearchJob.id job) "started" extra)) w
  = let jid := uuid_source w (uuid_next w) in
    let job := SearchJob.mk jid job_type pending parameters None None
                 (bson_datetime (clock w)) None 0 0 in
    let w1 := called "search_jobs" "insert_one" (set_uuid_next (S (uuid_next w)) w) in
    if hd false (db_faults w) then (Raise PyMongoError, w1)
    else (Return (mk_started jid "started" extra),
          set_active_jobs
            (if existsb (fun k => (k =? jid)%string) (active_jobs w)
             then active_jobs w else active_jobs w ++ [jid])
            (set_search_jobs (search_jobs w ++ [job]) w1)).
Proof.
  unfold new_SearchJob, uuid4, create_task. run.
  rewrite insert_one_run. cbv zeta. run.
  destruct (hd false (db_faults w)); reflexivity.
Qed.

Lemma registered jid (l : list string) :
  In jid (if existsb (fun k => (k =? jid)%string) l then l else l ++ [jid]).
Proof.
  destruct (existsb _ l) eqn:E.
  - apply existsb_exists in E. destruct E as [k [Hk E]].
    apply String.eqb_eq in E. now subst k.
  - apply in_or_app. right. now left.
Qed.

(** X9.  [start_directory_search] and [start_reddit_search]: when the
    repository takes the insert, exactly one job is added, at the end of the
    collection, [pending], with a fresh id, the time of the call cut to the
    millisecond as its creation time, and the parameters as they were given (no bound is put on [max_results] or
    [max_posts]); its task is registered under the id, and the route answers
    with that id and ["started"].  When the insert fails the route fails with
    it and neither a job nor a task is left behind. *)
Theorem start_search_outcome w :
  let jid := uuid_source w (uuid_next w) in
  let job job_type parameters :=
    SearchJob.mk jid job_type pending parameters None None (bson_datetime (clock w))
      None 0 0 in
  let outcome (m : M started) (j : SearchJob.t) :=
    if hd false (db_faults w) then
      result m w = Raise PyMongoError /\
      search_jobs (after m w) = search_jobs w /\
      active_jobs (after m w) = active_jobs w
    else
      result m w = Return (mk_started jid "started" None) /\
      search_jobs (after m w) = search_jobs w ++ [j] /\
      In jid (active_jobs (after m w)) /\
      dvd_stores (after m w) = dvd_stores w in
  (forall query location max_results,
      outcome (start_directory_search query location max_results)
        (job "directory_search"
           (Parameters.mk (Some query) (Some location) (Some max_results) None None))) /\
  (forall query max_posts,
      outcome (start_reddit_search query max_posts)
        (job "reddit_search" (Parameters.mk (Some query) None None (Some max_posts) None))).
Proof.
  intros jid job outcome. subst outcome. cbv beta.
  split; intros; unfold result, after.
  - unfold start_directory_search. rewrite start_run. cbv zeta.
    destruct (hd false (db_faults w)); cbn [fst snd].
    + repeat split.
    + split; [reflexivity|]. split; [reflexivity|]. split; [|reflexivity].
      apply registered.
  - unfold start_reddit_search. rewrite start_run. cbv zeta.
    destruct (hd false (db_faults w)); cbn [fst snd].
    + repeat split.
    + split; [reflexivity|]. split; [reflexivity|]. split; [|reflexivity].
      apply registered.
Qed.

End StartSearch.



(* ================================================================== *)
(** * The task as a whole *)

Section Task.

(** X10.  Whatever happens in the task -- the job is missing, the work
    fails, the handler itself fails -- [process_search_job] ends with its
    job id out of the registry of active tasks. *)
Theorem task_leaves_registry job_id w :
  ~ In job_id (active_jobs (after (process_search_job job_id) w)).
Proof.
  unfold after, process_search_job, try_finally.
  destruct (try_except _ _ w) as [r w1].
  unfold job_cleanup, modify. cbn [snd active_jobs set_active_jobs].
  intros Hin. apply filter_In in Hin. destruct Hin as [_ Hne].
  rewrite String.eqb_refl in Hne. discriminate.
Qed.

(** X11.  A task whose job is not in the collection does nothing: with the
    repository answering its lookup, it makes that one repository call, sends
    no request, logs nothing, writes to neither collection and returns. *)
Theorem unknown_job_is_ignored job_id w :
  hd false (db_faults w) = false ->
  find (job_by_id job_id) (search_jobs w) = None ->
  result (process_search_job job_id) w = Return tt /\
  trace (after (process_search_job job_id) w) = trace w ++ [DbCall "search_jobs" "find_one"] /\
  search_jobs (after (process_search_job job_id) w) = search_jobs w /\
  dvd_stores (after (process_search_job job_id) w) = dvd_stores w.
Proof.
  intros Hdb Hfind.
  assert (Hrun : process_search_job job_id w
                 = (Return tt,
                    set_active_jobs
                      (filter (fun k => negb (k =? job_id)%string) (active_jobs w))
                      (called "search_jobs" "find_one" w))).
  { unfold process_search_job, try_finally, try_except, job_begin, bind.
    rewrite find_one_run, Hdb.
    change (docs db_search_jobs (called (coll_name db_search_jobs) "find_one" w))
      with (search_jobs w).
    rewrite Hfind. reflexivity. }
  unfold result, after. rewrite Hrun. repeat split.
Qed.


(** X13.  At every moment of the running service no stored record carries
    an [updated_at] later than the clock: the routes that create, update and
    verify, and the tasks that store candidates and emails, stamp records
    with the time at which they run. *)
Theorem stored_timestamps_are_past s x :
  reachable s ->
  In x (dvd_stores (sys_world s)) ->
  DVDStore.updated_at x <= clock (sys_world s).
Proof.
  intros Hreach Hin. destruct (reachable_invariant Hreach) as [Hok _].
  exact (Hok x Hin).
Qed.

End Task.



(* ================================================================== *)
(** * Collecting *)

Section Collecting.

Lemma yelp_result_run page stores r w :
  match yelp_parsed page r with
  | Some c => yelp_result page stores r w = (Return (stores ++ [c]), w)
  | None => exists msg,
      yelp_result page stores r w = (Return stores, emit (Logged "warning" msg) w)
  end.
Proof.
  unfold yelp_parsed, yelp_result. destruct r as [n]. cbn [YelpResult.biz_name].
  destruct n as [m|n]; cbn [gives from_access]; [eexists; reflexivity | reflexivity].
Qed.

Lemma yelp_loop page rs : forall acc w,
  exists w',
    for_each rs (yelp_result page) acc w
    = (Return (acc ++ flat_map (fun r => option_list (yelp_parsed page r)) rs), w').
Proof.
  induction rs as [|r rs IH]; intros acc w; cbn [for_each flat_map].
  - exists w. now rewrite app_nil_r.
  - unfold bind at 1. pose proof (yelp_result_run page acc r w) as Hr.
    destruct (yelp_parsed page r) as [c|].
    + rewrite Hr. destruct (IH (acc ++ [c]) w) as [w' Hrun].
      exists w'. rewrite Hrun. cbn [option_list app]. now rewrite <- app_assoc.
    + destruct Hr as [msg Hr]. rewrite Hr.
      destruct (IH acc (emit (Logged "warning" msg) w)) as [w' Hrun].
      exists w'. rewrite Hrun. reflexivity.
Qed.

Lemma search_yelp_run query location max_results w :
  exists w',
    search_yelp query location max_results w
    = (Return
         match web_wire w with
         | WResponse code page :: _ =>
             if code =? 200 then
               match Page.serp_ia_card page with
               | Gives results =>
                   flat_map (fun r => option_list (yelp_parsed page r))
                            (slice_to results max_results)
               | Raises _ => []
               end
             else []
         | _ => []
         end, w').
Proof.
  unfold search_yelp, try_except, bind at 1, session_get.
  destruct (web_wire w) as [|[msg|code page] rest] eqn:Hwire.
  - eexists. reflexivity.
  - eexists. reflexivity.
  - cbv beta iota. destruct (Z.eqb_spec code 200) as [->|Hne]; cbn [negb].
    + destruct (Page.serp_ia_card page) as [msg|results] eqn:Hdiv; cbn [from_access].
      * eexists. reflexivity.
      * unfold bind at 1, ret at 1. unfold bind at 1.
        set (w1 := set_web_wire rest _).
        destruct (yelp_loop page (slice_to results max_results) [] w1) as [w2 Hrun].
        rewrite Hrun. cbv beta iota. unfold bind at 1.
        destruct (courtesy_delay_returns w2) as [w3 Hdelay]. rewrite Hdelay.
        exists w3. reflexivity.
    + eexists. reflexivity.
Qed.

Lemma length_flat_map_option {A B} (f : A -> option B) (l : list A) :
  (length (flat_map (fun x => option_list (f x)) l) <= length l)%nat.
Proof.
  induction l as [|x l IH]; cbn [flat_map length]; [lia|].
  rewrite length_app. destruct (f x); cbn [option_list length]; lia.
Qed.

Lemma length_slice_to {A} (l : list A) n :
  0 <= n -> Z.of_nat (length (slice_to l n)) <= n.
Proof.
  intros Hn. unfold slice_to.
  replace (0 <=? n) with true by (symmetry; apply Z.leb_le; lia).
  pose proof (firstn_le_length (Z.to_nat n) l). lia.
Qed.

Lemma in_flat_map_option {A B} (f : A -> option B) (l : list A) y :
  In y (flat_map (fun x => option_list (f x)) l) -> exists x, In x l /\ f x = Some y.
Proof.
  intros H. apply in_flat_map in H. destruct H as [x [Hx Hy]].
  exists x. split; [exact Hx|]. destruct (f x) as [b|]; cbn in Hy; [|contradiction].
  destruct Hy as [<- | []]. reflexivity.
Qed.

Lemma yelp_found_bound max_results w :
  0 <= max_results -> Z.of_nat (length (yelp_found max_results w)) <= max_results.
Proof.
  intros Hn. unfold yelp_found.
  destruct (web_wire w) as [|[msg|code page] rest]; cbn [length]; try lia.
  destruct (code =? 200); cbn [length]; try lia.
  destruct (Page.serp_ia_card page) as [msg|results]; cbn [length]; try lia.
  pose proof (length_flat_map_option (yelp_parsed page) (slice_to results max_results)).
  pose proof (length_slice_to results Hn). lia.
Qed.

Lemma yelp_found_shape max_results w c :
  In c (yelp_found max_results w) ->
  Candidate.source c = "yelp" /\
  Candidate.address c = None /\ Candidate.city c = None /\
  Candidate.phone c = None /\ Candidate.website c = None /\
  exists code page rest,
    web_wire w = WResponse code page :: rest /\
    Candidate.source_url c = Some (Page.url page).
Proof.
  unfold yelp_found. intros Hc.
  destruct (web_wire w) as [|[msg|code page] rest]; try contradiction.
  destruct (code =? 200); try contradiction.
  destruct (Page.serp_ia_card page) as [msg|results]; try contradiction.
  apply in_flat_map_option in Hc. destruct Hc as [r [_ Hr]].
  unfold yelp_parsed in Hr. destruct (gives (YelpResult.biz_name r)); [|discriminate].
  injection Hr as <-. cbn. repeat split. exists code, page, rest. split; reflexivity.
Qed.

(** X14.  [search_yelp] always returns a list.  A reply other than a 200
    with a readable result list gives the empty list.  Otherwise the list has
    one candidate for each of the first [max_results] results whose name can
    be read, in page order: never more than [max_results] of them, each with
    source ["yelp"], the URL of the reply, and no address, city, phone or
    website. *)
Theorem search_yelp_outcome query location max_results w :
  let stores :=
    match web_wire w with
    | WResponse code page :: _ =>
        if code =? 200 then
          match Page.serp_ia_card page with
          | Gives results =>
              flat_map (fun r => option_list (yelp_parsed page r))
                       (slice_to results max_results)
          | Raises _ => []
          end
        else []
    | _ => []
    end in
  result (search_yelp query location max_results) w = Return stores /\
  (0 <= max_results -> Z.of_nat (length stores) <= max_results) /\
  (forall c,
      In c stores ->
      Candidate.source c = "yelp" /\
      Candidate.address c = None /\ Candidate.city c = None /\
      Candidate.phone c = None /\ Candidate.website c = None /\
      exists code page rest,
        web_wire w = WResponse code page :: rest /\
        Candidate.source_url c = Some (Page.url page)).
Proof.
  intros stores. split; [|split].
  - destruct (search_yelp_run query location max_results w) as [w' Hrun].
    unfold result. now rewrite Hrun.
  - exact (@yelp_found_bound max_results w).
  - exact (@yelp_found_shape max_results w).
Qed.

Lemma for_each_returns {A B} (body : B -> A -> M B) :
  (forall acc x w, exists b, result (body acc x) w = Return b) ->
  forall xs acc w, exists b, result (for_each xs body acc) w = Return b.
Proof.
  intros Hbody. induction xs as [|x xs IH]; intros acc w; cbn [for_each].
  - exists acc. reflexivity.
  - unfold result, bind. destruct (Hbody acc x w) as [b Hb]. unfold result in Hb.
    destruct (body acc x w) as [[b'|e] w1]; cbn [fst] in Hb; [|discriminate].
    apply IH.
Qed.

Lemma collect_returns job w : exists found, result (collect job) w = Return found.
Proof.
  unfold collect.
  destruct (SearchJob.job_type job =? "directory_search")%string.
  { unfold result, bind.
    destruct (search_yellow_pages_run
                (get_or (Parameters.query (SearchJob.parameters job)) "DVD store")
                (get_or (Parameters.location (SearchJob.parameters job)) "United States")
                (get_or (Parameters.max_results (SearchJob.parameters job)) 100 / 2) w)
      as [w1 [Hyp _]].
    rewrite Hyp.
    destruct (search_yelp_run
                (get_or (Parameters.query (SearchJob.parameters job)) "DVD store")
                (get_or (Parameters.location (SearchJob.parameters job)) "United States")
                (get_or (Parameters.max_results (SearchJob.parameters job)) 100 / 2) w1)
      as [w2 Hyelp].
    rewrite Hyelp. eexists. reflexivity. }
  destruct (SearchJob.job_type job =? "reddit_search")%string.
  { unfold result, bind.
    destruct (search_reddit_run
                (get_or (Parameters.query (SearchJob.parameters job))
                        "DVD store recommendations")
                (get_or (Parameters.max_posts (SearchJob.parameters job)) 100) w)
      as [w1 [Hr _]].
    rewrite Hr. eexists. reflexivity. }
  destruct (SearchJob.job_type job =? "email_discovery")%string.
  { unfold result, bind.
    destruct (for_each_returns discover_email discover_email_returns
                (get_or (Parameters.store_ids (SearchJob.parameters job)) []) 0 w)
      as [credits Hc].
    unfold result in Hc.
    destruct (for_each _ discover_email 0 w) as [[c|e] w1]; cbn [fst] in Hc; [|discriminate].
    eexists. reflexivity. }
  eexists. reflexivity.
Qed.

(** X15.  Collecting never fails, whatever the sites and the provider
    answer, and neither does the storing of what was collected; so the work
    of a job can raise only at its last step, the repository write of
    [completed], and a running task ends by returning or with that
    repository error. *)
Theorem collectors_never_fail_a_job :
  (forall job w, exists found, result (collect job) w = Return found) /\
  (forall stores total w,
      exists n, result (for_each stores store_candidate total) w = Return n) /\
  (forall job_id job w,
      result (job_run job_id job) w = Return tt \/
      result (job_run job_id job) w = Raise PyMongoError) /\
  (forall job_id job w,
      result (task_run job_id job) w = Return tt \/
      result (task_run job_id job) w = Raise PyMongoError).
Proof.
  assert (Hstore : forall stores total w,
             exists n, result (for_each stores store_candidate total) w = Return n).
  { intros stores total w. destruct (store_loop stores total w) as [added [_ [Hr _]]].
    eexists. exact Hr. }
  assert (Hrun : forall job_id job w,
             exists o w',
               job_run job_id job w = (o, w') /\ (o = Return tt \/ o = Raise PyMongoError)).
  { intros job_id job w. unfold job_run. unfold bind at 1.
    destruct (collect_returns job w) as [found Hf]. unfold result in Hf.
    destruct (collect job w) as [[found'|e] w1]; cbn [fst] in Hf; [|discriminate].
    destruct found' as [stores credits]. unfold bind at 1.
    destruct (Hstore stores 0 w1) as [n Hn]. unfold result in Hn.
    destruct (for_each stores store_candidate 0 w1) as [[n'|e] w2]; cbn [fst] in Hn;
      [|discriminate].
    unfold bind, utcnow, gets. rewrite update_one_run. cbv zeta.
    destruct (hd false (db_faults w2)); do 2 eexists; (split; [reflexivity|]); auto. }
  split; [exact collect_returns|]. split; [exact Hstore|]. split.
  { intros job_id job w. destruct (Hrun job_id job w) as [o [w' [E Ho]]].
    unfold result. rewrite E. exact Ho. }
  intros job_id job w. destruct (Hrun job_id job w) as [o [w1 [E Ho]]].
  assert (Htask : exists o' w',
             task_run job_id job w = (o', w') /\
             (o' = Return tt \/ o' = Raise PyMongoError)).
  { unfold task_run, try_finally, try_except. rewrite E.
    destruct Ho as [-> | ->].
    - do 2 eexists. split; [reflexivity|]. now left.
    - unfold job_failed, bind, logger, modify, utcnow, gets.
      rewrite update_one_run. cbv zeta.
      match goal with |- context [hd false ?l] => destruct (hd false l) end;
        do 2 eexists; (split; [reflexivity|]); auto. }
  destruct Htask as [o' [w' [E' Ho']]]. unfold result. rewrite E'. exact Ho'.
Qed.

(** X16.  A directory job asks each of the two directories for half of its
    [max_results] (rounded down), so it collects at most [max_results]
    candidates, each from one of the two directories; it uses no credit and
    writes to no collection while collecting. *)
Theorem directory_search_budget job w :
  SearchJob.job_type job = "directory_search" ->
  let m := get_or (Parameters.max_results (SearchJob.parameters job)) 100 in
  exists stores,
    result (collect job) w = Return (stores, 0) /\
    (0 <= m -> Z.of_nat (length stores) <= m) /\
    (forall c, In c stores ->
               Candidate.source c = "yellow_pages" \/ Candidate.source c = "yelp") /\
    dvd_stores (after (collect job) w) = dvd_stores w /\
    search_jobs (after (collect job) w) = search_jobs w.
Proof.
  intros Htype m.
  set (query := get_or (Parameters.query (SearchJob.parameters job)) "DVD store").
  set (location := get_or (Parameters.location (SearchJob.parameters job)) "United States").
  destruct (search_yellow_pages_run query location (m / 2) w) as [w1 [Hyp _]].
  destruct (search_yelp_run query location (m / 2) w1) as [w2 Hyelp].
  match type of Hyp with _ = (Return ?a, _) => set (from_yp := a) in * end.
  match type of Hyelp with _ = (Return ?a, _) => set (from_yelp := a) in * end.
  assert (Hrun : collect job w = (Return (from_yp ++ from_yelp, 0), w2)).
  { unfold collect. rewrite Htype. cbn [String.eqb Ascii.eqb Bool.eqb].
    fold query location m. unfold bind. rewrite Hyp, Hyelp. reflexivity. }
  exists (from_yp ++ from_yelp). unfold result. rewrite Hrun. cbn [fst].
  split; [reflexivity|].
  split; [|split].
  - intros Hm. rewrite length_app. unfold from_yp, from_yelp.
    assert (Hhalf : 0 <= m / 2) by (apply Z.div_pos; lia).
    assert (H2 : 2 * (m / 2) <= m) by (apply Z.mul_div_le; lia).
    assert (Ha : Z.of_nat (length
               match web_wire w with
               | WResponse code page :: _ =>
                   if code =? 200 then
                     match Page.div_result page with
                     | Gives results =>
                         flat_map (fun r => option_list (yellow_pages_parsed page r))
                                  (slice_to results (m / 2))
                     | Raises _ => []
                     end
                   else []
               | _ => []
               end) <= m / 2).
    { destruct (web_wire w) as [|[msg|code page] rest]; cbn [length]; try lia.
      destruct (code =? 200); cbn [length]; try lia.
      destruct (Page.div_result page) as [msg|results]; cbn [length]; try lia.
      pose proof (length_flat_map_option (yellow_pages_parsed page)
                    (slice_to results (m / 2))).
      pose proof (length_slice_to results Hhalf). lia. }
    pose proof (@yelp_found_bound (m / 2) w1 Hhalf) as Hb.
    unfold yelp_found in Hb. lia.
  - intros c Hc. apply in_app_or in Hc. unfold from_yp, from_yelp in Hc.
    destruct Hc as [Hc | Hc].
    + left.
      destruct (web_wire w) as [|[msg|code page] rest]; try contradiction.
      destruct (code =? 200); try contradiction.
      destruct (Page.div_result page) as [msg|results]; try contradiction.
      apply in_flat_map_option in Hc. destruct Hc as [r [_ Hr]].
      unfold yellow_pages_parsed in Hr.
      destruct (gives (YPResult.business_name r)); [|discriminate].
      destruct (gives (YPResult.street_address r)); [|discriminate].
      destruct (gives (YPResult.locality r)); [|discriminate].
      destruct (gives (YPResult.phones r)); [|discriminate].
      destruct (gives (YPResult.track_visit_website r)); [|discriminate].
      injection Hr as <-. reflexivity.
    + right.
      exact (proj1 (@yelp_found_shape (m / 2) w1 c Hc)).
  - unfold after. rewrite Hrun. cbn [snd].
    pose proof (@keeps_search_yellow_pages same_data _ query location (m / 2) w) as [H1 H2].
    pose proof (@keeps_search_yelp same_data _ query location (m / 2) w1) as [H3 H4].
    unfold after in H1, H2, H3, H4. rewrite Hyp in H1, H2. rewrite Hyelp in H3, H4.
    cbn [snd] in H1, H2, H3, H4. split; congruence.
Qed.

End Collecting.



(* ================================================================== *)
(** * What is never removed, and what a lookup may touch *)

Section Frames.

Lemma update_first_map {A B} (g : A -> B) (q : A -> bool) (f : A -> A) (l : list A) :
  (forall x, g (f x) = g x) -> map g (snd (update_first q f l)) = map g l.
Proof.
  intros Hg. induction l as [|a l IH]; cbn [update_first]; [reflexivity|].
  destruct (q a).
  - cbn. now rewrite Hg.
  - destruct (update_first q f l) as [o l']. cbn in *. now rewrite IH.
Qed.

#[local] Instance records_kept_tolerant : Tolerant records_kept.
Proof.
  constructor; unfold records_kept; intros;
    try (exists []; cbn; now rewrite app_nil_r).
  destruct H as [x Hx]. destruct H0 as [y Hy].
  exists (x ++ y). now rewrite Hy, Hx, app_assoc.
Qed.

#[local] Instance records_kept_ignores_jobs : IgnoresJobs records_kept.
Proof. intros x w. exists []. cbn. now rewrite app_nil_r. Qed.

#[local] Instance emails_only_tolerant : Tolerant emails_only.
Proof. constructor; unfold emails_only; intros; cbn; intuition congruence. Qed.

Lemma kept_called coll op w : records_kept w (called coll op w).
Proof. exists []. cbn. now rewrite app_nil_r. Qed.

Lemma kept_update q f w :
  (forall x, DVDStore.id (f x) = DVDStore.id x) ->
  records_kept w
    (set_dvd_stores (snd (update_first q f (dvd_stores w))) (called "dvd_stores" "op" w)).
Proof.
  intros Hf. exists []. cbn. rewrite app_nil_r. now apply update_first_map.
Qed.

Lemma kept_insert d w :
  records_kept w (set_dvd_stores (dvd_stores w ++ [d]) (called "dvd_stores" "op" w)).
Proof. exists [DVDStore.id d]. cbn. now rewrite map_app. Qed.

Lemma keeps_kept_insert d : keeps records_kept (insert_one db_dvd_stores d).
Proof.
  intros w. unfold after. rewrite insert_one_run. cbv zeta.
  destruct (hd false (db_faults w)); cbn [snd];
    [apply kept_called | exact (kept_insert (bson_store d) w)].
Qed.

Lemma keeps_kept_set_email q v c (x : Z) :
  keeps records_kept
    (now <- utcnow ;; update_one db_dvd_stores q (set_email v c now) ;; ret x).
Proof.
  intros w. unfold after, bind at 1, utcnow, gets. unfold bind at 1.
  rewrite update_one_run. cbv zeta.
  destruct (hd false (db_faults w)); cbn [snd].
  - apply kept_called.
  - unfold ret. cbn [snd].
    exact (@kept_update q (set_email v c (clock w)) w (fun _ => eq_refl)).
Qed.

Lemma keeps_kept_discover_email credits store_id :
  keeps records_kept (discover_email credits store_id).
Proof.
  pose proof keeps_kept_set_email. unfold discover_email. keeps_auto.
  apply keeps_sleep; [exact _ | unfold seconds; lia].
Qed.

Lemma keeps_kept_store_candidate total c : keeps records_kept (store_candidate total c).
Proof.
  pose proof keeps_kept_insert. pose proof (@keeps_find_one records_kept _).
  unfold store_candidate, DVDStore_of_candidate. keeps_auto.
Qed.

Lemma keeps_kept_create_store store : keeps records_kept (create_store store).
Proof.
  pose proof keeps_kept_insert. unfold create_store. keeps_auto.
Qed.

Lemma keeps_kept_find_update store_id (f : Z -> DVDStore.t -> DVDStore.t) :
  (forall now x, DVDStore.id (f now x) = DVDStore.id x) ->
  keeps records_kept
    (now <- utcnow ;;
     result <- find_one_and_update db_dvd_stores (store_by_id store_id) (f now) ;;
     match result with
     | None => raise (HTTPException 404 "Store not found")
     | Some doc => ret doc
     end).
Proof.
  intros Hf w. unfold after, bind at 1, utcnow, gets. unfold bind at 1.
  rewrite find_one_and_update_run. cbv zeta.
  destruct (hd false (db_faults w)); cbn [snd].
  - apply kept_called.
  - pose proof (@kept_update (store_by_id store_id) (f (clock w)) w (Hf (clock w))) as H.
    destruct (fst (update_first _ _ _)); cbn [snd]; exact H.
Qed.

Lemma keeps_kept_collect job : keeps records_kept (collect job).
Proof. pose proof keeps_kept_discover_email. unfold collect. keeps_auto. Qed.

Lemma keeps_kept_job_run job_id job : keeps records_kept (job_run job_id job).
Proof.
  pose proof keeps_kept_collect. pose proof keeps_kept_store_candidate.
  pose proof (@keeps_jobs_update records_kept _ _).
  unfold job_run. keeps_auto.
Qed.

Lemma keeps_kept_task_run job_id job : keeps records_kept (task_run job_id job).
Proof.
  pose proof keeps_kept_job_run. pose proof (@keeps_job_failed records_kept _ _).
  unfold task_run. keeps_auto.
Qed.

Lemma keeps_kept_serve r :
  (forall store_id, r <> DELETE_stores store_id) -> keeps records_kept (serve r).
Proof.
  intros Hr.
  pose proof keeps_kept_create_store.
  pose proof (fun store_id u =>
                @keeps_kept_find_update store_id (fun now => apply_update u now)
                  (fun _ _ => eq_refl)) as Hupdate.
  pose proof (fun store_id =>
                @keeps_kept_find_update store_id (fun now => set_verified now)
                  (fun _ _ => eq_refl)) as Hverify.
  pose proof (@keeps_start_directory_search records_kept _ _).
  pose proof (@keeps_start_reddit_search records_kept _ _).
  pose proof (@keeps_start_email_discovery records_kept _ _).
  cbv beta in Hupdate, Hverify.
  destruct r; try (exfalso; eapply Hr; reflexivity);
    unfold serve, POST_stores, PUT_stores, update_store, verify_store; keeps_auto.
Qed.

(** X17.  Of all the moves of the running service only [DELETE
    /stores/{id}] removes a record: through any other request, through the
    moves of the tasks and through idle time, the ids stored stay stored,
    in their order, and new ones are added after them. *)
Theorem only_delete_removes_records s l s' :
  step s l s' ->
  (forall store_id d, l <> Serve (DELETE_stores store_id) d) ->
  exists added,
    map DVDStore.id (dvd_stores (sys_world s'))
    = map DVDStore.id (dvd_stores (sys_world s)) ++ added.
Proof.
  intros Hstep Hl.
  destruct Hstep as [s r d Hd Hfresh | s job_id Hin | s job_id job Hin | s d Hd].
  - rewrite handle_world.
    assert (Hr : forall store_id, r <> DELETE_stores store_id).
    { intros store_id E. apply (Hl store_id d). now rewrite E. }
    pose proof (keeps_kept_serve Hr (set_clock (clock (sys_world s) + d) (sys_world s)))
      as [added Ha].
    exists added. exact Ha.
  - rewrite begin_task_world.
    exact (@keeps_task_begin records_kept _ _ job_id (sys_world s)).
  - exact (keeps_kept_task_run job_id job (sys_world s)).
  - exists []. cbn. now rewrite app_nil_r.
Qed.

Lemma keeps_emails_set_email q v c (x : Z) :
  keeps emails_only
    (now <- utcnow ;; update_one db_dvd_stores q (set_email v c now) ;; ret x).
Proof.
  intros w. unfold after, bind at 1, utcnow, gets. unfold bind at 1.
  rewrite update_one_run. cbv zeta.
  destruct (hd false (db_faults w)); cbn [snd].
  - split; reflexivity.
  - unfold ret. cbn [snd]. split; [|reflexivity]. cbn.
    apply update_first_map. reflexivity.
Qed.

(** X18.  Collecting, for a job of any type, adds no record and removes
    none; the only fields of a stored record it may change are [email],
    [email_confidence] and [updated_at] (the email lookups write them), and
    it leaves the jobs alone. *)
Theorem collecting_touches_emails_only job w :
  map forget_email (dvd_stores (after (collect job) w)) = map forget_email (dvd_stores w) /\
  search_jobs (after (collect job) w) = search_jobs w.
Proof.
  assert (Hd : forall credits store_id, keeps emails_only (discover_email credits store_id)).
  { intros credits store_id. pose proof keeps_emails_set_email.
    unfold discover_email. keeps_auto.
    apply keeps_sleep; [exact _ | unfold seconds; lia]. }
  assert (H : keeps emails_only (collect job)) by (unfold collect; keeps_auto).
  exact (H w).
Qed.

End Frames.



(* ================================================================== *)
(** * The provider client beyond its errors *)

Section Client.

Lemma make_request_world endpoint params w :
  exists tail,
    after (_make_request endpoint params) w
    = set_hunter_wire tail
        (emit (HttpGet (HUNTER_BASE_URL ++ "/" ++ endpoint)%string
                       (params ++ [("api_key", PStr HUNTER_API_KEY)]))
              (after _enforce_rate_limit w)).
Proof.
  unfold after at 1. rewrite make_request_run. cbv zeta.
  destruct (hunter_wire w) as [|[|msg|code text json] rest] eqn:Hwire; cbn [snd].
  - exists []. unfold set_hunter_wire, emit. cbn.
    pose proof (proj1 (enforce_leaves_wire w)) as Hw. rewrite Hwire in Hw.
    unfold after in *. destruct (snd (_enforce_rate_limit w)). cbn in *. now subst.
  - exists rest. reflexivity.
  - exists rest. reflexivity.
  - exists rest. reflexivity.
Qed.

(** X19.  Every call of [_make_request] is counted by the rate limiter at
    the instant it was made, whether the request then succeeds or fails: the
    call's timestamp is appended to those not older than 60 s.  A 200 with a
    JSON body is returned as that body; a 200 whose body is not JSON raises
    the decoder's error, not an HTTP error.  No collection is touched. *)
Theorem every_call_is_counted endpoint params w :
  let w' := after (_make_request endpoint params) w in
  request_timestamps w'
  = filter (fun ts => clock w - seconds 60 <? ts) (request_timestamps w) ++ [clock w] /\
  (forall text body rest,
      hunter_wire w = HResponse 200 text (Gives body) :: rest ->
      result (_make_request endpoint params) w = Return body) /\
  (forall text msg rest,
      hunter_wire w = HResponse 200 text (Raises msg) :: rest ->
      result (_make_request endpoint params) w = Raise (Error "JSONDecodeError" msg)) /\
  dvd_stores w' = dvd_stores w /\
  search_jobs w' = search_jobs w.
Proof.
  intros w'. subst w'.
  destruct (make_request_world endpoint params w) as [tail Hw].
  rewrite Hw. cbn [request_timestamps dvd_stores search_jobs set_hunter_wire emit].
  destruct (enforce_frame w) as [Hs [Hj _]].
  split; [apply enforce_stamps|].
  split; [|split; [|split; assumption]].
  - intros text body rest Hwire. unfold result. rewrite make_request_run, Hwire.
    reflexivity.
  - intros text msg rest Hwire. unfold result. rewrite make_request_run, Hwire.
    reflexivity.
Qed.

Lemma make_request_sent endpoint params w :
  requests_sent (after (_make_request endpoint params) w)
  = requests_sent w
      ++ [HttpGet (HUNTER_BASE_URL ++ "/" ++ endpoint)%string
                  (params ++ [("api_key", PStr HUNTER_API_KEY)])].
Proof.
  destruct (make_request_world endpoint params w) as [tail Hw]. rewrite Hw.
  pose proof (proj2 (enforce_leaves_wire w)) as Hsent.
  unfold requests_sent in *. cbn [trace set_hunter_wire emit].
  rewrite filter_app, Hsent. reflexivity.
Qed.

(** X20.  Each of the four calls of the client -- domain search, email
    finder, account information, email count -- sends exactly one GET, to its
    own endpoint under the provider's base URL, with its arguments and then
    the API key as query parameters. *)
Theorem client_calls_send_one_request w :
  (forall domain limit,
      requests_sent (after (domain_search domain limit) w)
      = requests_sent w
          ++ [HttpGet "https://api.hunter.io/v2/domain-search"
                [("domain", PStr domain); ("limit", PInt limit);
                 ("api_key", PStr HUNTER_API_KEY)]]) /\
  (forall domain first_name last_name,
      requests_sent (after (email_finder domain first_name last_name) w)
      = requests_sent w
          ++ [HttpGet "https://api.hunter.io/v2/email-finder"
                [("domain", PStr domain); ("first_name", PStr first_name);
                 ("last_name", PStr last_name); ("api_key", PStr HUNTER_API_KEY)]]) /\
  requests_sent (after get_account_info w)
  = requests_sent w
      ++ [HttpGet "https://api.hunter.io/v2/account" [("api_key", PStr HUNTER_API_KEY)]] /\
  (forall domain,
      requests_sent (after (email_count domain) w)
      = requests_sent w
          ++ [HttpGet "https://api.hunter.io/v2/email-count"
                [("domain", PStr domain); ("api_key", PStr HUNTER_API_KEY)]]).
Proof.
  split; [|split; [|split]]; intros;
    unfold domain_search, email_finder, get_account_info, email_count;
    rewrite make_request_sent; reflexivity.
Qed.

End Client.


(* ================================================================== *)
(** * The domain of a website *)

Section Domain.

Lemma split_head_no_sep sep s :
  Forall (fun c => c <> sep) (list_ascii_of_string (split_head sep s)).
Proof.
  induction s as [|c s IH]; cbn [split_head list_ascii_of_string]; [constructor|].
  destruct (Ascii.eqb c sep) eqn:E; cbn [list_ascii_of_string]; [constructor|].
  constructor; [|exact IH]. now apply Ascii.eqb_neq.
Qed.

Lemma split_head_absent sep s :
  Forall (fun c => c <> sep) (list_ascii_of_string s) -> split_head sep s = s.
Proof.
  induction s as [|a rest IH]; intros Hs; [reflexivity|].
  cbn [split_head]. cbn [list_ascii_of_string] in Hs. inversion Hs; subst.
  destruct (Ascii.eqb a sep) eqn:E; [apply Ascii.eqb_eq in E; contradiction|].
  now rewrite IH.
Qed.

Lemma remove_all_absent old s : occurs old s = false -> remove_all old s = s.
Proof.
  unfold remove_all. induction s as [|a rest IH]; [reflexivity|].
  cbn [occurs remove_all_from]. intros H. apply orb_false_iff in H.
  destruct H as [Hp Ho]. rewrite Hp, andb_false_r. now rewrite IH.
Qed.

Lemma remove_all_from_keeps (P : ascii -> Prop) old s :
  Forall P (list_ascii_of_string s) ->
  forall skip, Forall P (list_ascii_of_string (remove_all_from old s skip)).
Proof.
  induction s as [|a rest IH]; intros Hs skip; [destruct skip; constructor|].
  cbn [list_ascii_of_string] in Hs. inversion Hs; subst.
  cbn [remove_all_from]. destruct skip as [|k]; [|now apply IH].
  destruct (andb _ _); [now apply IH|].
  cbn [list_ascii_of_string]. constructor; [assumption | now apply IH].
Qed.

Lemma prefix_in old s c :
  String.prefix old s = true ->
  In c (list_ascii_of_string old) -> In c (list_ascii_of_string s).
Proof.
  revert s. induction old as [|a old IH]; intros s Hp Hc; [contradiction|].
  destruct s as [|b s]; [discriminate|]. cbn [String.prefix] in Hp.
  destruct (ascii_dec a b) as [->|]; [|discriminate].
  cbn [list_ascii_of_string] in *.
  destruct Hc as [<- | Hc]; [now left | right; now apply IH].
Qed.

Lemma absent_char old s c :
  In c (list_ascii_of_string old) ->
  Forall (fun x => x <> c) (list_ascii_of_string s) ->
  occurs old s = false.
Proof.
  intros Hc. induction s as [|a rest IH]; intros Hs.
  - cbn. destruct old; [contradiction | reflexivity].
  - cbn [occurs]. apply orb_false_iff. split.
    + destruct (String.prefix old (String a rest)) eqn:E; [|reflexivity].
      pose proof (prefix_in _ _ c E Hc) as Hin.
      rewrite Forall_forall in Hs. exfalso. exact (Hs c Hin eq_refl).
    + apply IH. cbn [list_ascii_of_string] in Hs. now inversion Hs.
Qed.

Lemma prefix_nil s : String.prefix "" s = true.
Proof. destruct s; reflexivity. Qed.

Lemma domain_of_no_slash host :
  Forall (fun c => c <> "/"%char) (list_ascii_of_string host) ->
  domain_of host = remove_all "www." host.
Proof.
  intros Hs. unfold domain_of.
  rewrite (remove_all_absent "http://" host)
    by (apply (@absent_char _ _ "/"%char); [cbn; tauto | exact Hs]).
  rewrite (remove_all_absent "https://" host)
    by (apply (@absent_char _ _ "/"%char); [cbn; tauto | exact Hs]).
  apply split_head_absent. unfold remove_all. now apply remove_all_from_keeps.
Qed.

(** X21.  The domain taken from a website never has a slash in it.  A
    leading [http://], [https://] or [www.] does not count: the domain is
    that of the rest.  Of a website without a slash the domain is the website
    with every [www.] cut out, also inside a host name, so a website with
    neither a slash nor [www.] is its own domain.  The scheme is recognised in
    lower case only: of a website that starts with [HTTP://] the domain is
    [HTTP:], whatever follows. *)
Theorem domain_of_shape :
  (forall website,
      Forall (fun c => c <> "/"%char) (list_ascii_of_string (domain_of website))) /\
  (forall rest, domain_of ("http://" ++ rest) = domain_of rest) /\
  (forall rest, domain_of ("https://" ++ rest) = domain_of rest) /\
  (forall rest, domain_of ("www." ++ rest) = domain_of rest) /\
  (forall host,
      Forall (fun c => c <> "/"%char) (list_ascii_of_string host) ->
      domain_of host = remove_all "www." host) /\
  (forall host,
      Forall (fun c => c <> "/"%char) (list_ascii_of_string host) ->
      occurs "www." host = false ->
      domain_of host = host) /\
  (forall rest, domain_of ("HTTP://" ++ rest) = "HTTP:") /\
  domain_of "https://www.vvp.example/contact" = "vvp.example" /\
  domain_of "http://awww.shop.example" = "ashop.example".
Proof.
  split; [intros website; apply split_head_no_sep|].
  split; [intros rest; unfold domain_of, remove_all; cbn;
          rewrite ?prefix_nil; reflexivity|].
  split; [intros rest; unfold domain_of, remove_all; cbn;
          rewrite ?prefix_nil; reflexivity|].
  split; [intros rest; unfold domain_of, remove_all; cbn;
          rewrite ?prefix_nil; reflexivity|].
  split; [exact domain_of_no_slash|].
  split; [intros host Hs Hw; rewrite (@domain_of_no_slash _ Hs);
          now apply remove_all_absent|].
  split; [intros rest; unfold domain_of, remove_all; cbn;
          rewrite ?prefix_nil; reflexivity|].
  split; vm_compute; reflexivity.
Qed.

End Domain.


(* ================================================================== *)
(** * What a completed job records *)

Section Completed.


End Completed.



(* ================================================================== *)
(** * Lookups that are skipped, and a round trip *)

Section RoundTrips.

(** X23.  The email lookup for an id that has no record, or whose record
    has no website, does nothing beyond its one repository read: no request
    is sent, no second of delay is taken, no record changes and the credits
    stand. *)
Theorem lookup_skips_stores_without_website credits store_id w :
  hd false (db_faults w) = false ->
  (find (store_by_id store_id) (dvd_stores w) = None \/
   exists doc, find (store_by_id store_id) (dvd_stores w) = Some doc /\
               truthy (DVDStore.website doc) = false) ->
  let w' := after (discover_email credits store_id) w in
  result (discover_email credits store_id) w = Return credits /\
  trace w' = trace w ++ [DbCall "dvd_stores" "find_one"] /\
  clock w' = clock w /\
  dvd_stores w' = dvd_stores w /\
  request_timestamps w' = request_timestamps w.
Proof.
  intros Hdb Hcase w'. subst w'.
  assert (Hrun : discover_email credits store_id w
                 = (Return credits, called "dvd_stores" "find_one" w)).
  { unfold discover_email, try_except. unfold bind at 1.
    rewrite find_one_run, Hdb.
    change (docs db_dvd_stores (called (coll_name db_dvd_stores) "find_one" w))
      with (dvd_stores w).
    destruct Hcase as [Hnone | [doc [Hsome Hweb]]].
    - rewrite Hnone. reflexivity.
    - rewrite Hsome, Hweb. reflexivity. }
  unfold result, after. rewrite Hrun. repeat split.
Qed.

Lemma remove_first_last {A} (q : A -> bool) (l : list A) x :
  (forall y, In y l -> q y = false) -> q x = true ->
  remove_first q (l ++ [x]) = (1%nat, l).
Proof.
  intros Hl Hx. induction l as [|a l IH]; cbn [app remove_first].
  - now rewrite Hx.
  - rewrite (Hl a (or_introl eq_refl)). rewrite IH; [reflexivity|].
    intros y Hy. apply Hl. now right.
Qed.

(** X24.  Creating a store and then deleting it by the id the creation
    answered gives back the collection as it was, provided the repository
    answers and the fresh id is not already the id of a stored record. *)
Theorem create_then_delete_restores body u w :
  result (parse_DVDStoreCreate body) w = Return u ->
  db_healthy w ->
  (forall x, In x (dvd_stores w) -> DVDStore.id x <> uuid_source w (uuid_next w)) ->
  exists new,
    result (POST_stores body) w = Return new /\
    result (delete_store (DVDStore.id new)) (after (POST_stores body) w)
    = Return "Store deleted successfully" /\
    dvd_stores (after (delete_store (DVDStore.id new)) (after (POST_stores body) w))
    = dvd_stores w.
Proof.
  intros Hparse Hh Hfresh.
  pose proof (parse_ignores_world body w w Hparse) as Hp.
  destruct (create_store_run u w (healthy_hd Hh)) as [new [Hrun Hnew]].
  assert (Hpost : POST_stores body w
                  = (Return new,
                     set_dvd_stores (dvd_stores w ++ [bson_store new])
                       (called "dvd_stores" "insert_one"
                          (set_uuid_next (S (uuid_next w)) w)))).
  { unfold POST_stores, bind. now rewrite Hp, Hrun. }
  exists new. unfold result, after. rewrite Hpost. cbn [fst snd].
  split; [reflexivity|].
  set (w1 := set_dvd_stores _ _).
  assert (Hid : DVDStore.id new = uuid_source w (uuid_next w)) by (now rewrite Hnew).
  unfold delete_store, bind. rewrite delete_one_run. cbv zeta.
  replace (hd false (db_faults w1)) with false
    by (symmetry; exact (healthy_hd_tl Hh)).
  change (docs db_dvd_stores (called (coll_name db_dvd_stores) "delete_one" w1))
    with (dvd_stores w ++ [bson_store new]).
  rewrite remove_first_last.
  - split; reflexivity.
  - intros y Hy. unfold store_by_id. apply String.eqb_neq. rewrite Hid. now apply Hfresh.
  - unfold store_by_id. cbn [bson_store DVDStore.id]. apply String.eqb_refl.
Qed.

End RoundTrips.



End Service.


(* ================================================================== *)
(** * The sample engine *)

Lemma plain_cons p term :
  plain (String p term) = true -> Ascii.eqb p "." = false /\ plain term = true.
Proof.
  unfold plain. cbn [list_ascii_of_string forallb]. intros H.
  apply andb_true_iff in H. destruct H as [Hp Ht]. split; [|exact Ht].
  destruct (Ascii.eqb p ".") eqn:E; [|reflexivity].
  apply Ascii.eqb_eq in E. subst p. vm_compute in Hp. discriminate.
Qed.

Lemma dot_prefix_plain term s :
  plain term = true -> dot_prefix term s = prefix_ci term s.
Proof.
  revert s. induction term as [|p term IH]; intros s Hplain; [reflexivity|].
  destruct (plain_cons p term Hplain) as [Hp Ht].
  destruct s as [|c s]; [reflexivity|].
  cbn [dot_prefix prefix_ci]. unfold dot_char. rewrite Hp, IH by exact Ht. reflexivity.
Qed.

(** On a term without operator characters the sample engine is substring
    search without regard to case. *)
Lemma dot_engine_plain term s :
  plain term = true -> dot_engine term s = contains_ci term s.
Proof.
  intros Hplain. induction s as [|c s IH].
  - cbn [dot_engine contains_ci]. now rewrite dot_prefix_plain.
  - cbn [dot_engine contains_ci]. now rewrite dot_prefix_plain, IH.
Qed.


(* ================================================================== *)
(** * The statements at sample inputs *)

(** C1 at sample inputs: a saturated client is held for the 50 seconds its
    oldest timestamp still has to age; the 16th of 16 simultaneous calls waits
    one second; the 501st of 501 calls spaced 0.1 s apart waits until the
    first is 60 s old. *)
Lemma rate_limit_contract_witness :
  (0 < seconds 60 - (seconds 10 - 0) /\
   seconds 10 + (seconds 60 - (seconds 10 - 0))
     <= clock (after _enforce_rate_limit saturated_world)) /\
  seconds 1 <= seconds 1 /\
  100000 + seconds 60 <= (seconds 50 + 100000) + seconds 10.
Proof.
  destruct rate_limit_contract as [Hcall [H16 H501]].
  split; [|split].
  - destruct (Hcall saturated_world) as [_ [_ [_ [_ [_ [_ [Hmin _]]]]]]].
    assert (Hlen : 500 <= 500) by lia.
    destruct (Hmin Hlen) as [Hpos [Hwake _]].
    split; [exact Hpos | exact Hwake].
  - apply (H16 quiet_world (repeat 0 16) 0 0 0 (seconds 1)).
    + reflexivity.
    + apply Forall_forall. intros x Hx. apply repeat_spec in Hx. lia.
    + reflexivity.
    + vm_compute. reflexivity.
    + vm_compute. reflexivity.
    + vm_compute. reflexivity.
  - apply (H501 quiet_world (repeat 100000 501) 100000 0 (seconds 50 + 100000) (seconds 10)).
    + reflexivity.
    + apply Forall_forall. intros x Hx. apply repeat_spec in Hx. lia.
    + vm_compute. reflexivity.
    + vm_compute. reflexivity.
    + vm_compute. reflexivity.
    + vm_compute. reflexivity.
Defined.

(** C7 at a sample input: a 500 from the provider surfaces with its status
    and body. *)
Lemma make_request_errors_witness :
  result (_make_request "account" []) failing_provider
  = Raise (HTTPException 500 "API request failed: down").
Proof.
  pose proof (@make_request_errors "account" [] failing_provider
                (HResponse 500 "down" (Raises "not JSON")) [] eq_refl) as H.
  cbv zeta in H. destruct H as [[_ [_ H]] _].
  apply H; discriminate.
Defined.

(** C9 at sample inputs: of three directory results the broken one is left
    out and logged once; a 503 gives the empty list. *)
Lemma scrapers_swallow_failures_witness :
  (result (search_yellow_pages "dvd" "Los Angeles" 50) directory_answers
   = Return [ Candidate.mk "Vintage Video Palace" (Some "1 Main St") (Some "Los Angeles")
                None None "yellow_pages" (Some (Page.url sample_page)) None;
              Candidate.mk "Unknown" None (Some "Reno") None
                (Some "http://www.reno-dvd.example/shop") "yellow_pages"
                (Some (Page.url sample_page)) None ] /\
   length (warnings (after (search_yellow_pages "dvd" "Los Angeles" 50) directory_answers))
   = 1%nat) /\
  result (search_yellow_pages "dvd" "Los Angeles" 50) directory_refuses = Return [].
Proof.
  destruct (scrapers_swallow_failures (fun _ _ => [])) as [Hyp _].
  split.
  - destruct (Hyp "dvd" "Los Angeles" 50 directory_answers) as [_ [_ H200]].
    exact (H200 sample_page [] _ eq_refl eq_refl).
  - destruct (Hyp "dvd" "Los Angeles" 50 directory_refuses) as [_ [Hnon _]].
    apply (Hnon 503 sample_page []); [reflexivity | discriminate].
Defined.

(** C3 at sample inputs: a candidate with a stored pair is dropped, one with
    a new pair is inserted. *)
Lemma no_duplicate_pairs_witness :
  (dvd_stores (after (store_candidate 0 palace_again) one_store) = [palace] /\
   result (store_candidate 0 palace_again) one_store = Return 0) /\
  exists s,
    dvd_stores (after (store_candidate 0 movie_madness) one_store) = [palace; s] /\
    store_key s = ("Movie Madness", None) /\
    result (store_candidate 0 movie_madness) one_store = Return 1.
Proof.
  destruct no_duplicate_pairs as [Hdrop [_ [Hins _]]].
  split.
  - apply (Hdrop 0 palace_again one_store). cbn. left. reflexivity.
  - apply (Hins 0 movie_madness one_store).
    + intros b [].
    + cbn. intros [H | []]. discriminate.
Defined.




(** C10 at a sample input: an update that only gives a city is refused and
    nothing moves. *)
Lemma update_requires_name_witness :
  PUT_stores "s-1" nameless one_store = (Raise (RequestValidationError "name"), one_store).
Proof.
  apply (proj1 (update_requires_name "s-1" nameless one_store)). left. reflexivity.
Defined.

(** C2 at a sample input: the task of a forum search just requested begins
    with its job [pending] and sends no request in that move. *)
Lemma job_status_moves_forward_witness :
  let s := reddit_requested (fun _ _ => false) quiet_world in
  let s' := begin_task "00000000" s in
  status_in "00000000" (sys_world s) = Some pending /\
  requests_sent (sys_world s') = requests_sent (sys_world s).
Proof.
  intros s s'.
  assert (Hreach : reachable (fun _ _ => []) (fun _ _ => false) s).
  { apply reach_step with (s := mk_system quiet_world [])
                          (l := Serve (POST_search_reddit "dvd" 10) 1).
    - apply reach_boot. split; [intros x [] | reflexivity].
    - apply (step_serve (fun _ _ => []) (fun _ _ => false) (mk_system quiet_world [])
               (POST_search_reddit "dvd" 10)); [reflexivity | intros _ []]. }
  assert (Hstep : step (fun _ _ => []) (fun _ _ => false) s (Begin "00000000") s').
  { apply step_begin. left. reflexivity. }
  destruct (job_status_moves_forward Hreach Hstep) as [_ [_ [Hbegin _]]].
  exact (Hbegin "00000000" eq_refl).
Defined.

(** C2 as stated fails when the repository fails the task's lookup of its
    job: the handler of the task writes [failed] over [pending], and the job
    has never been [running]. *)
Lemma job_fails_before_running :
  let s := reddit_requested (fun _ _ => false) flaky_world in
  let s' := begin_task "00000000" s in
  reachable (fun _ _ => []) (fun _ _ => false) s /\
  step (fun _ _ => []) (fun _ _ => false) s (Begin "00000000") s' /\
  status_in "00000000" (sys_world s) = Some pending /\
  status_in "00000000" (sys_world s') = Some failed /\
  ~ status_edge pending failed.
Proof.
  intros s s'. split; [|split; [|split; [|split]]].
  - apply reach_step with (s := mk_system flaky_world [])
                          (l := Serve (POST_search_reddit "dvd" 10) 1).
    + apply reach_boot. split; [intros x [] | reflexivity].
    + apply (step_serve (fun _ _ => []) (fun _ _ => false) (mk_system flaky_world [])
               (POST_search_reddit "dvd" 10)); [reflexivity | intros _ []].
  - apply step_begin. left. reflexivity.
  - vm_compute. reflexivity.
  - vm_compute. reflexivity.
  - intros [H | [[_ H] | [H _]]]; discriminate.
Qed.


(** C5 as stated fails for two writes in the same millisecond: a store is
    created 1.5 ms after boot and updated 0.1 ms later; the repository keeps
    milliseconds, so [updated_at] is 1 ms before and after the update. *)
Lemma update_within_a_millisecond :
  let s0 := mk_system quiet_world [] in
  let s1 := handle (fun _ _ => false) (POST_stores_ moved_to_reno) 1500 s0 in
  let s2 := handle (fun _ _ => false) (PUT_stores_ "00000000" moved_to_reno) 100 s1 in
  reachable (fun _ _ => []) (fun _ _ => false) s1 /\
  step (fun _ _ => []) (fun _ _ => false) s1
       (Serve (PUT_stores_ "00000000" moved_to_reno) 100) s2 /\
  exists old new,
    dvd_stores (sys_world s1) = [old] /\
    dvd_stores (sys_world s2) = [new] /\
    DVDStore.id old = "00000000" /\ DVDStore.id new = "00000000" /\
    DVDStore.updated_at old = 1000 /\
    DVDStore.updated_at new = 1000 /\
    ~ DVDStore.updated_at old < DVDStore.updated_at new.
Proof.
  intros s0 s1 s2. split; [|split].
  - apply reach_step with (s := s0) (l := Serve (POST_stores_ moved_to_reno) 1500).
    + apply reach_boot. split; [intros x [] | reflexivity].
    + apply (step_serve (fun _ _ => []) (fun _ _ => false) s0 (POST_stores_ moved_to_reno));
        [reflexivity | discriminate].
  - apply (step_serve (fun _ _ => []) (fun _ _ => false) s1
             (PUT_stores_ "00000000" moved_to_reno)); [reflexivity | discriminate].
  - eexists. eexists. split; [vm_compute; reflexivity|]. split; [vm_compute; reflexivity|].
    cbn. repeat split. lia.
Qed.

(** C8 as stated fails for a term with an operator character: the term [.]
    lists a record none of whose name, city and address has a full stop. *)
Lemma listing_reads_term_as_pattern :
  result (get_stores dot_engine 0 100 (Some ".") None None) one_store = Return [palace] /\
  names_term "." palace = false.
Proof. split; vm_compute; reflexivity. Qed.

(** C8 at sample inputs: the stored record is listed for the term [video],
    state [CA], unverified; a limit of 501 is refused. *)
Lemma store_listing_filter_witness :
  result (get_stores dot_engine 0 100 (Some "video") (Some "CA") (Some false)) one_store
  = Return [palace] /\
  exists field,
    get_stores dot_engine 0 501 None None None one_store
    = (Raise (RequestValidationError field), one_store).
Proof.
  split.
  - assert (H0 : 0 <= 0) by lia.
    assert (H1 : 1 <= 100 <= 500) by lia.
    assert (Hp : forall term, Some "video"%string = Some term -> plain term = true).
    { intros term E. injection E as <-. reflexivity. }
    exact (proj2 (@store_listing_filter dot_engine 0 100 (Some "video"%string)
                    (Some "CA"%string) (Some false) one_store dot_engine_plain)
             H0 H1 eq_refl Hp).
  - assert (H : 0 < 0 \/ 501 < 1 \/ 500 < 501) by lia.
    exact (proj1 (@store_listing_filter dot_engine 0 501 None None None one_store
                    dot_engine_plain) H).
Defined.


(* ================================================================== *)
(** * The further statements at sample inputs *)

(** X1 at sample inputs: the one stored record is deleted; an unknown id is
    answered 404 and nothing moves. *)
Lemma delete_store_outcome_witness :
  (exists l1 l2,
      dvd_stores one_store = (l1 ++ palace :: l2)%list /\
      dvd_stores (after (delete_store "s-1") one_store) = (l1 ++ l2)%list /\
      result (delete_store "s-1") one_store = Return "Store deleted successfully") /\
  dvd_stores (after (delete_store "s-9") one_store) = dvd_stores one_store /\
  result (delete_store "s-9") one_store = Raise (HTTPException 404 "Store not found").
Proof.
  split.
  - destruct (delete_store_outcome "s-1" one_store eq_refl) as [H _].
    destruct (H palace eq_refl) as [l1 [l2 [Hl [_ [Hd Hr]]]]].
    exists l1, l2. repeat split; assumption.
  - destruct (delete_store_outcome "s-9" one_store eq_refl) as [_ [H _]].
    exact (H eq_refl).
Defined.

(** X2 at a sample input: the stored record is verified 10.5 ms after the
    epoch and stamped with 10 ms. *)
Lemma verify_store_outcome_witness :
  exists l1 l2 new,
    dvd_stores one_store = (l1 ++ palace :: l2)%list /\
    dvd_stores (after (verify_store "s-1") one_store) = (l1 ++ new :: l2)%list /\
    DVDStore.verified new = true /\
    DVDStore.updated_at new = 10000 /\
    DVDStore.name new = DVDStore.name palace.
Proof.
  destruct (verify_store_outcome "s-1" one_store eq_refl) as [H _].
  destruct (H palace eq_refl) as [l1 [l2 [new [Hl [_ [Hd [_ [Hv [Hu [_ [Hn _]]]]]]]]]]].
  exists l1, l2, new. repeat split; assumption.
Defined.

(** X3 at a sample input: a second record with the stored name is accepted
    and added after the first; it is answered with the instant of the call,
    10.5 ms, and stored with 10 ms. *)
Lemma create_store_appends_witness :
  exists new stored,
    result (POST_stores moved_to_reno) one_store = Return new /\
    dvd_stores (after (POST_stores moved_to_reno) one_store) = [palace; stored] /\
    DVDStore.name new = DVDStore.name palace /\
    DVDStore.source new = "manual" /\
    DVDStore.name stored = DVDStore.name new /\
    DVDStore.updated_at new = 10500 /\
    DVDStore.updated_at stored = 10000.
Proof.
  destruct (proj1 (create_store_appends moved_to_reno one_store)
              moved_to_reno_valid eq_refl eq_refl)
    as (new & stored & Hr & Hd & _ & Hn & Hfields & _ & _ & _ & Hu & Hsame & _ & Hsu).
  destruct Hfields as (_ & _ & _ & _ & _ & _ & Hs & _).
  destruct Hsame as (_ & Hsn & _).
  exists new, stored. repeat split; assumption.
Defined.

(** X4 at a sample input: of two stored jobs the newer is listed. *)
Lemma get_search_jobs_newest_first_witness :
  exists jobs,
    result (get_search_jobs 1) two_jobs = Return jobs /\
    length jobs = 1%nat /\
    forall a b, In a jobs -> In b (search_jobs two_jobs) -> ~ In b jobs ->
                SearchJob.created_at b <= SearchJob.created_at a.
Proof.
  assert (Hl : 1 <= 1 <= 100) by lia.
  destruct (proj2 (get_search_jobs_newest_first 1 two_jobs) Hl eq_refl)
    as [jobs [Hr [_ [_ [Hlen [Hnew _]]]]]].
  exists jobs. repeat split; assumption.
Defined.

(** X5 at a sample input: the stored job is found by its id. *)
Lemma get_search_job_outcome_witness :
  (exists j,
      result (get_search_job "j-1") two_jobs = Return j /\
      In j (search_jobs two_jobs) /\ SearchJob.id j = "j-1") \/
  (result (get_search_job "j-1") two_jobs = Raise (HTTPException 404 "Job not found") /\
   forall j, In j (search_jobs two_jobs) -> SearchJob.id j <> "j-1").
Proof. exact (get_search_job_outcome "j-1" two_jobs eq_refl). Defined.

(** X6 at a sample input: the statistics route leaves the collections
    alone. *)
Lemma read_routes_change_nothing_witness :
  dvd_stores (after (serve dot_engine GET_stats) one_store) = dvd_stores one_store /\
  search_jobs (after (serve dot_engine GET_stats) one_store) = search_jobs one_store.
Proof. exact (read_routes_change_nothing dot_engine GET_stats one_store eq_refl). Defined.

(** X8 at sample inputs: one record and no job, nobody answering for the
    provider; then two jobs stored. *)
Lemma get_stats_outcome_witness :
  result get_stats one_store = Return (mk_stats 1 0 0 0 None []) /\
  exists msg, result get_stats two_jobs = Raise (Error "ValueError" msg).
Proof.
  split.
  - assert (Hh : db_healthy one_store) by (intros b []).
    exact (proj1 (get_stats_outcome Hh) eq_refl).
  - assert (Hh : db_healthy two_jobs) by (intros b []).
    apply (proj2 (get_stats_outcome Hh)). discriminate.
Defined.

(** X11 at a sample input: a task for a job that is not stored. *)
Lemma unknown_job_is_ignored_witness :
  result (process_search_job (fun _ _ => []) "j-9") two_jobs = Return tt /\
  trace (after (process_search_job (fun _ _ => []) "j-9") two_jobs)
  = (trace two_jobs ++ [DbCall "search_jobs" "find_one"])%list /\
  search_jobs (after (process_search_job (fun _ _ => []) "j-9") two_jobs)
  = search_jobs two_jobs /\
  dvd_stores (after (process_search_job (fun _ _ => []) "j-9") two_jobs)
  = dvd_stores two_jobs.
Proof. exact (@unknown_job_is_ignored (fun _ _ => []) "j-9" two_jobs eq_refl eq_refl). Defined.

(** X13 at a sample input: the record stored at boot, after an update of
    it has been served. *)
Lemma stored_timestamps_are_past_witness :
  DVDStore.updated_at (apply_update moved_to_reno_valid 10501 palace)
  <= clock (sys_world (handle dot_engine (PUT_stores_ "s-1" moved_to_reno) 1
                         (mk_system one_store []))).
Proof.
  set (s := handle dot_engine (PUT_stores_ "s-1" moved_to_reno) 1 (mk_system one_store [])).
  assert (Hreach : reachable (fun _ _ => []) dot_engine s).
  { apply reach_step with (s := mk_system one_store [])
                          (l := Serve (PUT_stores_ "s-1" moved_to_reno) 1).
    - apply reach_boot. split; [|reflexivity].
      intros y [<- | []]. vm_compute. discriminate.
    - apply (step_serve (fun _ _ => []) dot_engine (mk_system one_store [])
               (PUT_stores_ "s-1" moved_to_reno)); [reflexivity | discriminate]. }
  assert (Hx : In (apply_update moved_to_reno_valid 10501 palace)
                  (dvd_stores (sys_world s))).
  { left. reflexivity. }
  exact (@stored_timestamps_are_past (fun _ _ => []) dot_engine s _ Hreach Hx).
Defined.

(** X16 at a sample input: a directory job asking for four results, the
    first directory answering with three results and the second not at all. *)
Lemma directory_search_budget_witness :
  exists stores,
    result (collect (fun _ _ => []) directory_job) directory_answers = Return (stores, 0) /\
    (0 <= 4 -> Z.of_nat (length stores) <= 4) /\
    dvd_stores (after (collect (fun _ _ => []) directory_job) directory_answers)
    = dvd_stores directory_answers.
Proof.
  destruct (@directory_search_budget (fun _ _ => []) directory_job directory_answers eq_refl)
    as [stores [Hr [Hlen [_ [Hd _]]]]].
  exists stores. repeat split; assumption.
Defined.

(** X17 at a sample input: the task of a forum search begins. *)
Lemma only_delete_removes_records_witness :
  exists added,
    map DVDStore.id
      (dvd_stores (sys_world (begin_task "00000000" (reddit_requested dot_engine one_store))))
    = (map DVDStore.id (dvd_stores (sys_world (reddit_requested dot_engine one_store)))
       ++ added)%list.
Proof.
  assert (Hstep : step (fun _ _ => []) dot_engine (reddit_requested dot_engine one_store)
                    (Begin "00000000")
                    (begin_task "00000000" (reddit_requested dot_engine one_store))).
  { apply step_begin. left. reflexivity. }
  assert (Hl : forall store_id d, Begin "00000000" <> Serve (DELETE_stores store_id) d)
    by discriminate.
  exact (@only_delete_removes_records (fun _ _ => []) dot_engine _ _ _ Hstep Hl).
Defined.


(** X23 at a sample input: a lookup for an id that has no record. *)
Lemma lookup_skips_stores_without_website_witness :
  result (discover_email 0 "s-9") one_store = Return 0 /\
  trace (after (discover_email 0 "s-9") one_store)
  = (trace one_store ++ [DbCall "dvd_stores" "find_one"])%list /\
  clock (after (discover_email 0 "s-9") one_store) = clock one_store /\
  dvd_stores (after (discover_email 0 "s-9") one_store) = dvd_stores one_store /\
  request_timestamps (after (discover_email 0 "s-9") one_store)
  = request_timestamps one_store.
Proof.
  assert (Hcase : find (store_by_id "s-9") (dvd_stores one_store) = None \/
                  exists doc, find (store_by_id "s-9") (dvd_stores one_store) = Some doc /\
                              truthy (DVDStore.website doc) = false)
    by (left; reflexivity).
  exact (lookup_skips_stores_without_website 0 "s-9" one_store eq_refl Hcase).
Defined.

(** X24 at a sample input: a store is created beside the stored one and
    deleted again. *)
Lemma create_then_delete_restores_witness :
  exists new,
    result (POST_stores moved_to_reno) one_store = Return new /\
    result (delete_store (DVDStore.id new)) (after (POST_stores moved_to_reno) one_store)
    = Return "Store deleted successfully" /\
    dvd_stores (after (delete_store (DVDStore.id new))
                  (after (POST_stores moved_to_reno) one_store))
    = dvd_stores one_store.
Proof.
  assert (Hh : db_healthy one_store) by (intros b []).
  assert (Hfresh : forall x, In x (dvd_stores one_store) ->
                             DVDStore.id x <> uuid_source one_store (uuid_next one_store)).
  { intros x [<- | []]. discriminate. }
  exact (@create_then_delete_restores moved_to_reno moved_to_reno_valid one_store
           eq_refl Hh Hfresh).
Defined.
